(** * LLM evaluation platform: metrics engine and orchestrator

    A shallow embedding of
    - [backend_new/app/evaluators/basic_evaluator.py] (class [BasicEvaluator]);
    - [backend_new/app/services/evaluation_service.py] (class
      [EvaluationService]: [evaluate_single], [_run_evaluations],
      [evaluate_bulk], [_determine_winner]),
    followed by the properties of the specification that concern them.

    Modelling conventions.
    - A Python [str] is a Rocq [string]; a character is read as the code
      point U+0000..U+00FF it denotes (the Latin-1 block of Unicode), and
      the character tables below are Python's for that block.
    - In the scorers a Python [float] is an exact rational [Q];
      "returns exactly x" is read as rational equality [==].  BLEU,
      which calls [math.exp] and [math.log], is a real number, and so
      are the values of the mapping that [evaluate] returns.
    - In the comparator, where rounding can decide which model wins,
      the sum, the division and the subtraction of the interpreter are
      parameters ([Arithmetic]); exact and binary64 arithmetic are its
      two instances.
    - A Python [dict] is an association list in insertion order with
      unique keys, a [set] is a duplicate-free list.
    - A call that may raise returns [exc A]: the value or the message of
      the exception.
    - Wall-clock readings ([time.time()], [datetime.now()]) and log
      output are left out: no statement below depends on them. *)

From Stdlib Require Import Reals Lra.
From Stdlib Require Import List String Ascii Bool Arith NArith ZArith.
From Stdlib Require Import QArith Qminmax Qabs Qreals Lia Lqa Psatz.
From Stdlib Require Import Permutation Sorted.
Import ListNotations.

Set Implicit Arguments.
Set Warnings "-register-all".

(* ================================================================== *)
(** ** Python values, exceptions, dictionaries *)

Module Py.

(** The outcome of a call: a value, or a raised exception carrying
    [str(e)]. *)
Inductive exc (A : Type) : Type :=
| Ok (a : A)
| Raise (msg : string).
Arguments Ok {A} a.
Arguments Raise {A} msg.

Definition bind {A B} (m : exc A) (k : A -> exc B) : exc B :=
  match m with
  | Ok a => k a
  | Raise msg => Raise msg
  end.

Definition raised {A} (m : exc A) : bool :=
  match m with Ok _ => false | Raise _ => true end.

(** The values a metric dictionary can hold. *)
Inductive value : Type :=
| PyNone
| PyBool (b : bool)
| PyInt (z : Z)
| PyFloat (q : Q)
| PyStr (s : string)
| PyDict (d : list (string * value)).

Definition dict := list (string * value).

Section Dict.
Variable V : Type.

(** [d.get(k)] *)
Fixpoint get (d : list (string * V)) (k : string) : option V :=
  match d with
  | [] => None
  | (k', v) :: d' => if String.eqb k' k then Some v else get d' k
  end.

(** [d[k] = v]: overwrite in place, or append a new key. *)
Fixpoint set (d : list (string * V)) (k : string) (v : V)
  : list (string * V) :=
  match d with
  | [] => [(k, v)]
  | (k', v') :: d' =>
      if String.eqb k' k then (k', v) :: d' else (k', v') :: set d' k v
  end.

(** [d.update(other)] *)
Definition update (d other : list (string * V)) : list (string * V) :=
  fold_left (fun acc kv => set acc (fst kv) (snd kv)) other d.

Definition keys (d : list (string * V)) : list string := map fst d.
End Dict.

End Py.

(* ================================================================== *)
(** ** Float arithmetic on exact rationals *)

Module Num.
Local Open Scope Q_scope.

(** An [int] count used as a float operand. *)
Definition Qnat (n : nat) : Q := inject_Z (Z.of_nat n).

(** [x < y] *)
Definition Qltb (x y : Q) : bool := negb (Qle_bool y x).

(** [sum(l)] *)
Definition sum_Q (l : list Q) : Q := fold_right Qplus 0 l.

End Num.

(* ================================================================== *)
(** ** Characters, [str] methods and the regular expressions used *)

Module Text.

Definition code (c : ascii) : N := N_of_ascii c.

Definition between (lo hi : N) (c : ascii) : bool :=
  ((lo <=? code c) && (code c <=? hi))%N.

(** [[A-Z]] and [[a-z]] *)
Definition is_ascii_upper (c : ascii) : bool := between 65 90 c.
Definition is_ascii_lower (c : ascii) : bool := between 97 122 c.
Definition is_ascii_digit (c : ascii) : bool := between 48 57 c.

(** [str.isalnum] on U+0000..U+00FF: the ASCII letters and digits, the
    Latin-1 letters, and the Latin-1 characters with a numeric value
    (superscripts two, three, one and the three vulgar fractions). *)
Definition is_alnum (c : ascii) : bool :=
  is_ascii_digit c || is_ascii_upper c || is_ascii_lower c
  || (code c =? 170)%N || (code c =? 181)%N || (code c =? 186)%N
  || (code c =? 178)%N || (code c =? 179)%N || (code c =? 185)%N
  || between 188 190 c
  || between 192 214 c || between 216 246 c || between 248 255 c.

(** The class [\w] of [re] on [str] patterns: alphanumeric or the
    underscore. *)
Definition is_word (c : ascii) : bool :=
  is_alnum c || (code c =? 95)%N.

(** [str.isspace], the characters removed by [str.strip()]. *)
Definition is_space (c : ascii) : bool :=
  between 9 13 c || between 28 32 c
  || (code c =? 133)%N || (code c =? 160)%N.

(** The class [[.!?]]. *)
Definition is_terminator (c : ascii) : bool :=
  (code c =? 46)%N || (code c =? 33)%N || (code c =? 63)%N.

Definition lower_char (c : ascii) : ascii :=
  if is_ascii_upper c || between 192 214 c || between 216 222 c
  then ascii_of_N (code c + 32)
  else c.

(** [s.lower()] *)
Fixpoint lower (s : string) : string :=
  match s with
  | EmptyString => EmptyString
  | String c s' => String (lower_char c) (lower s')
  end.

Definition snoc (s : string) (c : ascii) : string :=
  (s ++ String c EmptyString)%string.

Definition is_empty (s : string) : bool :=
  match s with EmptyString => true | String _ _ => false end.

Fixpoint all_chars (p : ascii -> bool) (s : string) : bool :=
  match s with
  | EmptyString => true
  | String c s' => p c && all_chars p s'
  end.

Fixpoint lstrip (s : string) : string :=
  match s with
  | EmptyString => EmptyString
  | String c s' => if is_space c then lstrip s' else s
  end.

Fixpoint rstrip (s : string) : string :=
  match s with
  | EmptyString => EmptyString
  | String c s' =>
      let r := rstrip s' in
      if is_empty r && is_space c then EmptyString else String c r
  end.

(** [s.strip()] *)
Definition strip (s : string) : string := rstrip (lstrip s).

(** [sub in s] *)
Fixpoint contains (sub s : string) : bool :=
  String.prefix sub s
  || match s with
     | EmptyString => false
     | String _ s' => contains sub s'
     end.

(** The left-to-right scan of [re.findall(r'\b\w+\b', s)].  A match
    starts at a word boundary and [\w+] is greedy, so the matches are
    the maximal runs of [\w] characters; [cur] is the run being read. *)
Fixpoint word_runs (s : string) (cur : string) : list string :=
  match s with
  | EmptyString => if is_empty cur then [] else [cur]
  | String c s' =>
      if is_word c then word_runs s' (snoc cur c)
      else if is_empty cur then word_runs s' EmptyString
           else cur :: word_runs s' EmptyString
  end.

Definition findall_words (s : string) : list string :=
  word_runs s EmptyString.

(** [re.split(r'[.!?]+', s)]: the pieces between the maximal runs of
    terminators, empty pieces included; [in_sep] tells that the
    previous character was a terminator. *)
Fixpoint split_runs (s : string) (cur : string) (in_sep : bool)
  : list string :=
  match s with
  | EmptyString => [cur]
  | String c s' =>
      if is_terminator c
      then if in_sep then split_runs s' EmptyString true
           else cur :: split_runs s' EmptyString true
      else split_runs s' (snoc cur c) false
  end.

Definition split_terminators (s : string) : list string :=
  split_runs s EmptyString false.

(** [len(re.findall(r'[.!?]', s))] *)
Fixpoint count_terminators (s : string) : nat :=
  match s with
  | EmptyString => 0
  | String c s' =>
      (if is_terminator c then 1 else 0) + count_terminators s'
  end.

(** A whole word of the shape [[A-Z][a-z]+]. *)
Definition is_capitalized (w : string) : bool :=
  match w with
  | String c (String c' w') =>
      is_ascii_upper c && is_ascii_lower c' && all_chars is_ascii_lower w'
  | _ => false
  end.

(** [re.findall(r'\b[A-Z][a-z]+\b', s)]: inside a run of [\w]
    characters the only word boundaries are its two ends, so a match
    is a maximal run that has the shape as a whole. *)
Definition findall_capitalized (s : string) : list string :=
  filter is_capitalized (findall_words s).

Definition starts_outside (p : ascii -> bool) (rest : string) : Prop :=
  match rest with
  | EmptyString => True
  | String c _ => p c = false
  end.

(** [runs p s ws]: [ws] are, in order, the maximal non-empty runs of
    characters satisfying [p] in [s]; what lies between them satisfies
    [p] nowhere. *)
Inductive runs (p : ascii -> bool) : string -> list string -> Prop :=
| runs_done sep :
    all_chars (fun c => negb (p c)) sep = true ->
    runs p sep []
| runs_word sep w rest ws :
    all_chars (fun c => negb (p c)) sep = true ->
    w <> EmptyString ->
    all_chars p w = true ->
    starts_outside p rest ->
    runs p rest ws ->
    runs p (sep ++ w ++ rest)%string (w :: ws).

End Text.


(* ================================================================== *)
(** ** [BasicEvaluator]: the offline metrics engine *)

Module BasicEvaluator.
Import Num Text.
Local Open Scope Q_scope.

Definition available_metrics : list string :=
  ["rouge1"; "rouge2"; "rougeL"; "bleu"; "meteor_approx";
   "coherence"; "relevance"; "fluency"; "informativeness";
   "length_ratio"; "word_overlap"; "sentence_similarity"]%string.

(** [text] may be [None]; [not text] holds for [None] and for [""]. *)
Definition _tokenize (text : option string) : list string :=
  match text with
  | None => []
  | Some s => if is_empty s then [] else findall_words (lower s)
  end.

Definition tokens_of (s : string) : list string := _tokenize (Some s).

Definition ngram := list string.
Definition ngram_dec : forall x y : ngram, {x = y} + {x <> y} :=
  list_eq_dec string_dec.

Definition _get_ngrams (tokens : list string) (n : nat) : list ngram :=
  if (List.length tokens <? n)%nat then []
  else map (fun i => firstn n (skipn i tokens))
           (seq 0 (List.length tokens - n + 1)).

(** *** Sets of hashable values, as duplicate-free lists *)
Section PySet.
Variable A : Type.
Variable A_dec : forall x y : A, {x = y} + {x <> y}.

Definition mem (x : A) (l : list A) : bool :=
  if in_dec A_dec x l then true else false.
Definition to_set (l : list A) : list A := nodup A_dec l.
Definition intersection (a b : list A) : list A :=
  filter (fun x => mem x b) a.
Definition union (a b : list A) : list A := nodup A_dec (a ++ b).
End PySet.

Definition str_set := to_set string_dec.
Definition str_inter := intersection string_dec.
Definition str_union := union string_dec.

(** [2 * (p * r) / (p + r) if (p + r) > 0 else 0] *)
Definition f1 (p r : Q) : Q :=
  if Qltb 0 (p + r) then 2 * (p * r) / (p + r) else 0.

(** [len(overlap) / len(s) if s else 0] *)
Definition ratio_or_zero (num den : nat) : Q :=
  match den with
  | O => 0
  | S _ => Qnat num / Qnat den
  end.

(** *** ROUGE-L: the table [dp] of [lcs_length], filled row by row.
    Row [i] is computed from row [i-1] ([prev]) alone; [left] is the
    cell [dp[i][j-1]] written just before. *)
Fixpoint lcs_row (xi : string) (y : list string) (prev : list nat)
         (left : nat) : list nat :=
  match y, prev with
  | yj :: y', diag :: ((up :: _) as prev') =>
      let cell := if String.eqb xi yj then (diag + 1)%nat
                  else Nat.max up left in
      cell :: lcs_row xi y' prev' cell
  | _, _ => []
  end.

(** Row [i] from row [i-1]: [dp[i][0]] keeps its initial 0. *)
Definition lcs_step (y : list string) (prev : list nat) (xi : string)
  : list nat :=
  O :: lcs_row xi y prev O.

(** The last row [dp[m]], from the row of zeros [dp[0]]. *)
Definition lcs_table (x y : list string) : list nat :=
  fold_left (lcs_step y) x (repeat O (List.length y + 1)).

(** [dp[m][n]] *)
Definition lcs_length (x y : list string) : nat :=
  last (lcs_table x y) O.

Definition _calculate_lcs_f1 (candidate_tokens reference_tokens : list string)
  : Q :=
  let lcs_len := lcs_length candidate_tokens reference_tokens in
  match candidate_tokens, reference_tokens with
  | [], _ | _, [] => 0
  | _, _ =>
      let precision := Qnat lcs_len / Qnat (List.length candidate_tokens) in
      let recall := Qnat lcs_len / Qnat (List.length reference_tokens) in
      if Qeq_bool (precision + recall) 0 then 0
      else 2 * (precision * recall) / (precision + recall)
  end.

Record RougeScores := { rouge1 : Q; rouge2 : Q; rougeL : Q }.

Definition _calculate_rouge (candidate reference : string) : RougeScores :=
  let candidate_tokens := tokens_of candidate in
  let reference_tokens := tokens_of reference in
  match candidate_tokens, reference_tokens with
  | [], _ | _, [] => {| rouge1 := 0; rouge2 := 0; rougeL := 0 |}
  | _, _ =>
      let candidate_unigrams := str_set candidate_tokens in
      let reference_unigrams := str_set reference_tokens in
      let overlap_unigrams :=
        str_inter candidate_unigrams reference_unigrams in
      let rouge1_precision :=
        ratio_or_zero (List.length overlap_unigrams) (List.length candidate_unigrams) in
      let rouge1_recall :=
        ratio_or_zero (List.length overlap_unigrams) (List.length reference_unigrams) in
      let rouge1_f1 := f1 rouge1_precision rouge1_recall in
      let candidate_bigrams :=
        to_set ngram_dec (_get_ngrams candidate_tokens 2) in
      let reference_bigrams :=
        to_set ngram_dec (_get_ngrams reference_tokens 2) in
      let overlap_bigrams :=
        intersection ngram_dec candidate_bigrams reference_bigrams in
      let rouge2_precision :=
        ratio_or_zero (List.length overlap_bigrams) (List.length candidate_bigrams) in
      let rouge2_recall :=
        ratio_or_zero (List.length overlap_bigrams) (List.length reference_bigrams) in
      let rouge2_f1 := f1 rouge2_precision rouge2_recall in
      let rougeL_f1 := _calculate_lcs_f1 candidate_tokens reference_tokens in
      {| rouge1 := rouge1_f1; rouge2 := rouge2_f1; rougeL := rougeL_f1 |}
  end.

(** *** BLEU.  The four clipped precisions are exact rationals; the
    geometric mean and the brevity penalty go through [math.log] and
    [math.exp] and are real numbers. *)

(** [Counter(ngrams)[g]] *)
Definition counter (ngrams : list ngram) (g : ngram) : nat :=
  count_occ ngram_dec ngrams g.

Definition sum_nat (l : list nat) : nat := fold_right Nat.add O l.

(** The body of the loop [for n in range(1, 5)]. *)
Definition bleu_precision (candidate_tokens reference_tokens : list string)
           (n : nat) : Q :=
  let candidate_ngrams := _get_ngrams candidate_tokens n in
  let reference_ngrams := _get_ngrams reference_tokens n in
  match candidate_ngrams with
  | [] => 0
  | _ =>
      let overlap :=
        sum_nat (map (fun g => Nat.min (counter candidate_ngrams g)
                                       (counter reference_ngrams g))
                     (to_set ngram_dec candidate_ngrams)) in
      Qnat overlap / Qnat (List.length candidate_ngrams)
  end.

Definition bleu_precisions (candidate_tokens reference_tokens : list string)
  : list Q :=
  map (bleu_precision candidate_tokens reference_tokens) [1; 2; 3; 4]%nat.

Definition bleu_weights : list R := [0.25; 0.25; 0.25; 0.25]%R.

Definition sum_R (l : list R) : R := fold_right Rplus 0%R l.

(** [min(1.0, math.exp(1 - len(reference) / len(candidate)))] *)
Definition brevity_penalty (candidate_tokens reference_tokens : list string)
  : R :=
  Rmin 1 (exp (1 - INR (List.length reference_tokens)
                   / INR (List.length candidate_tokens))).

(** The geometric mean of positive numbers: the [n]-th root of their
    product. *)
Definition geometric_mean (ps : list Q) : R :=
  Rpower (fold_right Rmult 1%R (map Q2R ps)) (/ INR (List.length ps)).

Definition _calculate_bleu (candidate reference : string) : R :=
  let candidate_tokens := tokens_of candidate in
  let reference_tokens := tokens_of reference in
  match candidate_tokens, reference_tokens with
  | [], _ | _, [] => 0%R
  | _, _ =>
      let precisions := bleu_precisions candidate_tokens reference_tokens in
      let bleu_score :=
        if forallb (fun p => Qltb 0 p) precisions
        then exp (sum_R (map (fun wp => (fst wp * ln (Q2R (snd wp)))%R)
                             (combine bleu_weights precisions)))
        else 0%R in
      let bp := brevity_penalty candidate_tokens reference_tokens in
      (bp * bleu_score)%R
  end.

(** *** Heuristic scorers *)

Definition _calculate_meteor_approx (candidate reference : string) : Q :=
  let candidate_tokens := tokens_of candidate in
  let reference_tokens := tokens_of reference in
  match candidate_tokens, reference_tokens with
  | [], _ | _, [] => 0
  | _, _ =>
      let candidate_set := str_set candidate_tokens in
      let reference_set := str_set reference_tokens in
      let matches := List.length (str_inter candidate_set reference_set) in
      let precision := ratio_or_zero matches (List.length candidate_set) in
      let recall := ratio_or_zero matches (List.length reference_set) in
      if Qeq_bool (precision + recall) 0 then 0
      else
        let f_mean := (10 * precision * recall) / (9 * precision + recall) in
        let penalty :=
          (1 # 2) * (Qnat matches / Qnat (List.length candidate_tokens)) in
        f_mean * (1 - penalty)
  end.

(** [[s.strip() for s in re.split(r'[.!?]+', text) if s.strip()]] *)
Definition sentences_of (text : string) : list string :=
  map strip (filter (fun s => negb (is_empty (strip s)))
                    (split_terminators text)).

Definition connectors : list string :=
  ["however"; "therefore"; "moreover"; "furthermore"; "additionally";
   "consequently"; "meanwhile"; "similarly"; "in contrast";
   "as a result"]%string.

(** [max(l)] and [min(l)] of a non-empty list of lengths. *)
Definition max_of (l : list nat) : nat := fold_right Nat.max O l.
Definition min_of (l : list nat) : nat :=
  match l with
  | [] => O
  | x :: l' => fold_right Nat.min x l'
  end.

(** The running pair [(score, factors)]: [score += x; factors += 1]. *)
Definition add_factor (acc : Q * nat) (x : Q) : Q * nat :=
  (fst acc + x, S (snd acc)).

(** The running pair stays within [0 <= score <= factors]. *)
Definition bounded (acc : Q * nat) : Prop :=
  0 <= fst acc <= Qnat (snd acc).

(** [score / factors if factors > 0 else 0.5] *)
Definition average_or_half (acc : Q * nat) : Q :=
  match snd acc with
  | O => 1 # 2
  | S _ => fst acc / Qnat (snd acc)
  end.

Definition _calculate_coherence (text : string) : Q :=
  if is_empty text then 0
  else
    let sentences := sentences_of text in
    if (List.length sentences <? 2)%nat then 8 # 10
    else
      let acc := (0, O) in
      let entities := findall_capitalized text in
      let acc :=
        match entities with
        | [] => acc
        | _ => add_factor acc (Qnat (List.length (str_set entities))
                               / Qnat (List.length entities))
        end in
      let connector_count :=
        List.length (filter (fun connector => contains connector (lower text))
                            connectors) in
      let connector_score :=
        Qmin 1 (Qnat connector_count / Qnat (List.length sentences)) in
      let acc := add_factor acc connector_score in
      let lengths := map (fun s => List.length (tokens_of s)) sentences in
      let acc :=
        match lengths with
        | [] => acc
        | _ => add_factor acc
                 (1 - Qnat (max_of lengths - min_of lengths)
                      / Qnat (max_of lengths + 1))
        end in
      average_or_half acc.

Definition truthy (o : option string) : bool :=
  match o with
  | None => false
  | Some s => negb (is_empty s)
  end.

Definition _calculate_relevance (question answer : string)
           (context : option string) : Q :=
  if is_empty question || is_empty answer then 0
  else
    let question_tokens := str_set (tokens_of question) in
    let answer_tokens := str_set (tokens_of answer) in
    let context_tokens :=
      if truthy context then str_set (_tokenize context) else [] in
    let question_overlap :=
      List.length (str_inter question_tokens answer_tokens) in
    let question_relevance :=
      ratio_or_zero question_overlap (List.length question_tokens) in
    let context_relevance :=
      match context_tokens with
      | [] => 0
      | _ => Qnat (List.length (str_inter context_tokens answer_tokens))
             / Qnat (List.length context_tokens)
      end in
    if truthy context
    then (7 # 10) * question_relevance + (3 # 10) * context_relevance
    else question_relevance.

Definition grammar_markers : list string :=
  ["the"; "a"; "an"; "is"; "are"; "was"; "were"; "have"; "has"; "had"]%string.

Definition _calculate_fluency (text : string) : Q :=
  if is_empty text then 0
  else
    let acc := (0, O) in
    let sentences := sentences_of text in
    let acc :=
      match sentences with
      | [] => acc
      | _ =>
          let avg_length :=
            Qnat (sum_nat (map (fun s => List.length (tokens_of s)) sentences))
            / Qnat (List.length sentences) in
          let length_score := 1 - Qabs (avg_length - 15) / 20 in
          add_factor acc (Qmax 0 length_score)
      end in
    let tokens := tokens_of text in
    let acc :=
      match tokens with
      | [] => acc
      | _ =>
          let grammar_ratio :=
            Qnat (List.length
                    (filter (fun token => mem string_dec token grammar_markers)
                            tokens))
            / Qnat (List.length tokens) in
          let grammar_score :=
            1 - Qabs (grammar_ratio - (3 # 10)) / (3 # 10) in
          add_factor acc (Qmax 0 grammar_score)
      end in
    let punct_count := count_terminators text in
    let sent_count := List.length sentences in
    let acc :=
      match sent_count with
      | O => acc
      | S _ =>
          let punct_ratio := Qnat punct_count / Qnat sent_count in
          add_factor acc (Qmin 1 punct_ratio)
      end in
    average_or_half acc.

Definition stop_words : list string :=
  ["the"; "a"; "an"; "and"; "or"; "but"; "in"; "on"; "at"; "to"; "for";
   "of"; "with"; "by"; "is"; "are"; "was"; "were"; "be"; "been"; "being";
   "have"; "has"; "had"; "do"; "does"; "did"; "will"; "would"; "could";
   "should"; "may"; "might"; "must"; "can"; "this"; "that"; "these";
   "those"; "i"; "you"; "he"; "she"; "it"; "we"; "they"; "me"; "him";
   "her"; "us"; "them"; "my"; "your"; "his"; "her"; "its"; "our";
   "their"]%string.

Definition _calculate_informativeness (text : string) : Q :=
  if is_empty text then 0
  else
    let tokens := tokens_of text in
    match tokens with
    | [] => 0
    | _ =>
        let unique_tokens := str_set tokens in
        let vocabulary_richness :=
          Qnat (List.length unique_tokens) / Qnat (List.length tokens) in
        let content_words :=
          filter (fun token => negb (mem string_dec token stop_words))
                 tokens in
        let content_ratio :=
          Qnat (List.length content_words) / Qnat (List.length tokens) in
        let informativeness :=
          (6 # 10) * vocabulary_richness + (4 # 10) * content_ratio in
        Qmin 1 informativeness
    end.

Definition _calculate_length_ratio (candidate reference : string) : Q :=
  if is_empty reference then 0
  else
    let candidate_length := List.length (tokens_of candidate) in
    let reference_length := List.length (tokens_of reference) in
    if (reference_length =? 0)%nat
    then (if (candidate_length =? 0)%nat then 1 else 0)
    else
      let ratio := Qnat candidate_length / Qnat reference_length in
      1 - Qabs (1 - ratio) / Qmax 1 ratio.

(** [len(overlap) / len(union) if union else 0.0] for two token sets. *)
Definition jaccard (a b : list string) : Q :=
  ratio_or_zero (List.length (str_inter a b)) (List.length (str_union a b)).

Definition _calculate_word_overlap (candidate reference : string) : Q :=
  let candidate_tokens := str_set (tokens_of candidate) in
  let reference_tokens := str_set (tokens_of reference) in
  match candidate_tokens, reference_tokens with
  | [], [] => 1
  | [], _ | _, [] => 0
  | _, _ => jaccard candidate_tokens reference_tokens
  end.

(** The inner loop over [reference_sentences], from [best_sim = 0.0]. *)
Definition best_similarity (cand_tokens : list string)
           (reference_sentences : list string) : Q :=
  fold_left
    (fun best_sim ref_sent =>
       let ref_tokens := str_set (tokens_of ref_sent) in
       match cand_tokens, ref_tokens with
       | [], _ | _, [] => best_sim
       | _, _ => Qmax best_sim (jaccard cand_tokens ref_tokens)
       end)
    reference_sentences 0.

Definition _calculate_sentence_similarity (candidate reference : string)
  : Q :=
  let candidate_sentences := sentences_of candidate in
  let reference_sentences := sentences_of reference in
  match candidate_sentences, reference_sentences with
  | [], _ | _, [] => 0
  | _, _ =>
      let similarities :=
        map (fun cand_sent =>
               best_similarity (str_set (tokens_of cand_sent))
                               reference_sentences)
            candidate_sentences in
      sum_Q similarities / Qnat (List.length similarities)
  end.

(** *** The facade [evaluate] *)

(** The evaluation context built by [evaluate_single]. *)
Record EvalContext := {
  question : string;
  answer : string;
  context : option string;
  expected_answer : option string;
  category : option string
}.

Definition rouge_get (scores : RougeScores) (metric : string) : Q :=
  if String.eqb metric "rouge1" then rouge1 scores
  else if String.eqb metric "rouge2" then rouge2 scores
  else if String.eqb metric "rougeL" then rougeL scores
  else 0.

(** [results[metric] = score] when [cond] holds. *)
Definition store_if (cond : bool) (metric : string) (score : R)
           (results : list (string * R)) : list (string * R) :=
  if cond then Py.set results metric score else results.

(** [selected_metrics or self.available_metrics]: [None] and the empty
    list both stand for the whole catalog. *)
Definition effective_selection (selected_metrics : option (list string))
  : list string :=
  match selected_metrics with
  | Some (m :: l) => m :: l
  | _ => available_metrics
  end.

(** The metrics whose branch in [evaluate] tests [expected_answer], and
    those whose branch does not. *)
Definition reference_metrics : list string :=
  ["rouge1"; "rouge2"; "rougeL"; "bleu"; "meteor_approx";
   "length_ratio"; "word_overlap"; "sentence_similarity"]%string.

Definition reference_free_metrics : list string :=
  ["coherence"; "relevance"; "fluency"; "informativeness"]%string.

(** The keys of a dictionary after [d[k] = v]: an existing key keeps
    its place, a new one goes last. *)
Definition keys_after_set (k : string) (l : list string) : list string :=
  if mem string_dec k l then l else (l ++ [k])%list.

(** With the field types of [EvalContext] no scorer raises, so the
    [except] branch of the source (which stores 0.0 for every selected
    metric not yet computed) is never entered. *)
Definition evaluate (eval_context : EvalContext)
           (selected_metrics : option (list string)) : list (string * R) :=
  let question := question eval_context in
  let answer := answer eval_context in
  let has_expected := truthy (expected_answer eval_context) in
  let expected :=
    match expected_answer eval_context with
    | Some s => s
    | None => EmptyString
    end in
  let context := context eval_context in
  let metrics_to_calculate := effective_selection selected_metrics in
  let selected metric := mem string_dec metric metrics_to_calculate in
  let results := [] in
  let results :=
    if has_expected && existsb (String.prefix "rouge") metrics_to_calculate
    then
      let rouge_scores := _calculate_rouge answer expected in
      fold_left
        (fun results metric =>
           store_if (selected metric) metric
                    (Q2R (rouge_get rouge_scores metric)) results)
        ["rouge1"; "rouge2"; "rougeL"]%string results
    else results in
  let results :=
    store_if (selected "bleu"%string && has_expected) "bleu"
             (_calculate_bleu answer expected) results in
  let results :=
    store_if (selected "meteor_approx"%string && has_expected)
             "meteor_approx"
             (Q2R (_calculate_meteor_approx answer expected)) results in
  let results :=
    store_if (selected "coherence"%string) "coherence"
             (Q2R (_calculate_coherence answer)) results in
  let results :=
    store_if (selected "relevance"%string) "relevance"
             (Q2R (_calculate_relevance question answer context)) results in
  let results :=
    store_if (selected "fluency"%string) "fluency"
             (Q2R (_calculate_fluency answer)) results in
  let results :=
    store_if (selected "informativeness"%string) "informativeness"
             (Q2R (_calculate_informativeness answer)) results in
  let results :=
    store_if (selected "length_ratio"%string && has_expected)
             "length_ratio"
             (Q2R (_calculate_length_ratio answer expected)) results in
  let results :=
    store_if (selected "word_overlap"%string && has_expected)
             "word_overlap"
             (Q2R (_calculate_word_overlap answer expected)) results in
  let results :=
    store_if (selected "sentence_similarity"%string && has_expected)
             "sentence_similarity"
             (Q2R (_calculate_sentence_similarity answer expected))
             results in
  results.

End BasicEvaluator.

(* ================================================================== *)
(** ** [EvaluationService]: the orchestrator and the comparator *)

Module EvaluationService.
Import Num Py.
Local Open Scope Q_scope.

Definition EvalContext := BasicEvaluator.EvalContext.
Definition Selection := option (list string).

(** *** Fan-out over the registry *)

(** A framework object: the methods it has, each a function of the
    context and the selection that returns a dictionary or raises. *)
Record Evaluator := {
  class_name : string;
  evaluate_async : option (EvalContext -> Selection -> exc dict);
  evaluate : option (EvalContext -> Selection -> exc dict)
}.

(** [hasattr] picks [evaluate_async], else [evaluate] runs in the
    executor; an exception is logged and raised again. *)
Definition _run_framework_evaluation (framework_name : string)
           (evaluator : Evaluator) (eval_context : EvalContext)
           (selected_metrics : Selection) : exc dict :=
  match evaluate_async evaluator with
  | Some run => run eval_context selected_metrics
  | None =>
      match evaluate evaluator with
      | Some run => run eval_context selected_metrics
      | None => Raise ("'" ++ class_name evaluator
                       ++ "' object has no attribute 'evaluate'")%string
      end
  end.

(** [asyncio.gather] with [return_exceptions=True]: every task
    runs to its end, and its value or its exception is returned at the
    task's position. *)
Definition gather_return_exceptions (A : Type) (tasks : list (exc A))
  : exc (list (exc A)) :=
  Ok tasks.

Record RunResult := {
  automatic_metrics : dict;
  framework_scores : dict
}.

Definition error_entry (msg : string) : value :=
  PyDict [("error"%string, PyStr msg)].

(** What [framework_scores] holds for a framework, by the outcome of
    its run. *)
Definition framework_entry (outcome : exc dict) : value :=
  match outcome with
  | Ok result => PyDict result
  | Raise msg => error_entry msg
  end.

(** One turn of the loop [for i, (framework_name, evaluator) in
    enumerate(self.evaluators.items())], with [result =
    framework_results[i]]. *)
Definition process_result (acc : RunResult)
           (item : (string * Evaluator) * exc dict) : RunResult :=
  let framework_name := fst (fst item) in
  match snd item with
  | Raise msg =>
      {| automatic_metrics := automatic_metrics acc;
         framework_scores :=
           set (framework_scores acc) framework_name (error_entry msg) |}
  | Ok result =>
      {| automatic_metrics :=
           if String.eqb framework_name "basic"
           then update (automatic_metrics acc) result
           else automatic_metrics acc;
         framework_scores :=
           set (framework_scores acc) framework_name (PyDict result) |}
  end.

(** The task created for one item of [self.evaluators.items()]. *)
Definition framework_task (eval_context : EvalContext)
           (selected_metrics : Selection) (item : string * Evaluator)
  : exc dict :=
  _run_framework_evaluation (fst item) (snd item)
                            eval_context selected_metrics.

Definition _run_evaluations (evaluators : list (string * Evaluator))
           (eval_context : EvalContext) (selected_metrics : Selection)
  : exc RunResult :=
  let evaluation_tasks :=
    map (framework_task eval_context selected_metrics) evaluators in
  bind (gather_return_exceptions evaluation_tasks)
       (fun framework_results =>
          Ok (fold_left process_result
                        (combine evaluators framework_results)
                        {| automatic_metrics := [];
                           framework_scores := [] |})).

(** *** Bulk evaluation *)

(** [range(start, stop, step)] *)
Definition py_range (start stop step : Z) : exc (list Z) :=
  if (step =? 0)%Z then Raise "range() arg 3 must not be zero"%string
  else
    let n := if (0 <? step)%Z
             then ((stop - start + step - 1) / step)%Z
             else ((start - stop - step - 1) / (- step))%Z in
    Ok (map (fun k => (start + Z.of_nat k * step)%Z) (seq 0 (Z.to_nat n))).

(** [l[i:j]] for [0 <= i <= j], the only slices taken here. *)
Definition py_slice (A : Type) (l : list A) (i j : Z) : list A :=
  firstn (Z.to_nat (j - i)) (skipn (Z.to_nat i) l).

Section Bulk.
(** The request type, the result dictionary of a successful
    evaluation, and [evaluate_single] itself. *)
Variable EvaluationCreate : Type.
Variable EvalResult : Type.
Variable evaluate_single :
  EvaluationCreate -> Selection -> exc EvalResult.

(** The dictionary built for a failed item.  Its [id] is
    [f"{prefix}_{milliseconds}_{index}"]; the clock reading is left
    out. *)
Record ErrorResult := {
  id_prefix : string;
  id_index : Z;
  status : string;
  error : string;
  evaluation_data : EvaluationCreate
}.

Inductive BulkItem : Type :=
| Evaluated (result : EvalResult)
| Failed (error_result : ErrorResult).

(** The outcome of [await progress_callback(processed_items,
    total_items, progress)]: [Ok] when the awaited call completes,
    [Raise] when the call or the [await] raises.  A plain function
    that returns [None] is of the second kind: the [await] raises
    [TypeError]. *)
Definition ProgressCallback := Z -> Z -> Q -> exc unit.

(** [enumerate(l)] *)
Definition enumerate (A : Type) (l : list A) : list (Z * A) :=
  combine (map Z.of_nat (seq 0 (List.length l))) l.

(** The loop [for j, result in enumerate(batch_results)]. *)
Definition process_batch_results (i : Z) (batch : list EvaluationCreate)
           (batch_results : list (exc EvalResult)) : list BulkItem :=
  map (fun jr =>
         let j := fst jr in
         match snd (snd jr) with
         | Raise msg =>
             Failed {| id_prefix := "error";
                       id_index := (i + j)%Z;
                       status := "failed";
                       error := msg;
                       evaluation_data := fst (snd jr) |}
         | Ok result => Evaluated result
         end)
      (enumerate (combine batch batch_results)).

(** The handler [except Exception as e] of a batch. *)
Definition batch_errors (i : Z) (batch : list EvaluationCreate)
           (msg : string) : list BulkItem :=
  map (fun jd =>
         Failed {| id_prefix := "batch_error";
                   id_index := (i + fst jd)%Z;
                   status := "failed";
                   error := ("Batch processing failed: " ++ msg)%string;
                   evaluation_data := snd jd |})
      (enumerate batch).

(** One turn of [for i in range(0, total_items, batch_size)].
    [results] is a list mutated in place: what was appended before an
    exception stays. *)
Definition run_batch (evaluations : list EvaluationCreate)
           (selected_metrics : Selection) (batch_size : Z)
           (progress_callback : option ProgressCallback)
           (results : list BulkItem) (i : Z) : list BulkItem :=
  let total_items := Z.of_nat (List.length evaluations) in
  let batch := py_slice evaluations i (i + batch_size) in
  let tasks :=
    map (fun eval_data => evaluate_single eval_data selected_metrics)
        batch in
  match gather_return_exceptions tasks with
  | Raise msg => results ++ batch_errors i batch msg
  | Ok batch_results =>
      let results := results ++ process_batch_results i batch batch_results in
      let processed_items := Z.min (i + batch_size) total_items in
      let progress :=
        (inject_Z processed_items / inject_Z total_items) * 100 in
      match progress_callback with
      | None => results
      | Some callback =>
          match callback processed_items total_items progress with
          | Ok _ => results
          | Raise msg => results ++ batch_errors i batch msg
          end
      end
  end.

(** What item [j] yields on its own: the result of [evaluate_single], or
    the error record of its exception. *)
Definition item_in_isolation (selected_metrics : Selection) (j : Z)
           (eval_data : EvaluationCreate) : BulkItem :=
  match evaluate_single eval_data selected_metrics with
  | Ok result => Evaluated result
  | Raise msg =>
      Failed {| id_prefix := "error";
                id_index := j;
                status := "failed";
                error := msg;
                evaluation_data := eval_data |}
  end.

(** The items of [l] in isolation, the first one at position [i]. *)
Fixpoint items_from (selected_metrics : Selection) (i : Z)
         (l : list EvaluationCreate) : list BulkItem :=
  match l with
  | [] => []
  | eval_data :: l' =>
      item_in_isolation selected_metrics i eval_data
      :: items_from selected_metrics (i + 1) l'
  end.

(** A record appended by the handler of a batch. *)
Definition is_batch_error (item : BulkItem) : bool :=
  match item with
  | Evaluated _ => false
  | Failed error_result => String.eqb (id_prefix error_result) "batch_error"
  end.

(** A progress callback that returns normally whatever it is given. *)
Definition never_raises (progress_callback : option ProgressCallback) : Prop :=
  match progress_callback with
  | None => True
  | Some callback => forall processed total progress,
      raised (callback processed total progress) = false
  end.

Definition evaluate_bulk (evaluations : list EvaluationCreate)
           (selected_metrics : Selection) (batch_size : Z)
           (progress_callback : option ProgressCallback)
  : exc (list BulkItem) :=
  let total_items := Z.of_nat (List.length evaluations) in
  bind (py_range 0 total_items batch_size)
       (fun starts =>
          Ok (fold_left (run_batch evaluations selected_metrics
                                   batch_size progress_callback)
                        starts [])).
End Bulk.

(** *** The comparator *)

(** An entry of [comparisons] as [compare_models] builds it; a failed
    entry carries only its name and status, and its other fields are
    never read. *)
Record ComparisonEntry := {
  model_name : string;
  response : string;
  metrics : dict;
  entry_framework_scores : dict;
  response_time : Q;
  tokens_used : Z;
  cost : option Q;
  entry_status : string
}.

(** A completed entry with one metric, as in scenario D of the
    specification. *)
Definition scenario_model (name : string) (value seconds dollars : Q)
  : ComparisonEntry :=
  {| model_name := name;
     response := "";
     metrics := [("relevance"%string, PyFloat value)];
     entry_framework_scores := [];
     response_time := seconds;
     tokens_used := 0;
     cost := Some dollars;
     entry_status := "completed" |}.

(** [isinstance(score, (int, float))]: [bool] is a subclass of [int]. *)
Definition is_number (score : value) : bool :=
  match score with
  | PyBool _ | PyInt _ | PyFloat _ => true
  | _ => false
  end.

(** The numbers among the values of a dictionary, in its order. *)
Definition numeric_values (d : dict) : list value :=
  filter is_number (map snd d).

(** The list [all_scores] of one comparison. *)
Definition all_scores (comparison : ComparisonEntry) : list value :=
  numeric_values (metrics comparison)
  ++ flat_map (fun kv => match snd kv with
                         | PyDict scores => numeric_values scores
                         | _ => []
                         end)
              (entry_framework_scores comparison).

(** The arithmetic of the interpreter that the comparator relies on:
    [sum(all_scores)], the true division [total / len(all_scores)], and
    the difference of two scores.  Results are floats, rounded by the
    interpreter, and the summation algorithm differs between versions
    of CPython, so the three operations are parameters of the
    comparator. *)
Record Arithmetic := {
  py_sum : list value -> value;
  py_truediv : value -> nat -> Q;
  py_sub : Q -> Q -> Q
}.

Record ModelScore := {
  model : string;
  score : Q;
  ms_response_time : Q;
  ms_cost : Q
}.

(** The sort key [(-x["score"], x["response_time"], x["cost"])]. *)
Definition sort_key (x : ModelScore) : Q * Q * Q :=
  (- score x, ms_response_time x, ms_cost x).

(** Tuple comparison [a < b]. *)
Definition key_ltb (a b : Q * Q * Q) : bool :=
  let '(a1, a2, a3) := a in
  let '(b1, b2, b3) := b in
  Qltb a1 b1
  || (Qeq_bool a1 b1 && (Qltb a2 b2 || (Qeq_bool a2 b2 && Qltb a3 b3))).

(** The lexicographic order on keys that [sort] follows: [a] does not
    come after [b]. *)
Definition lex_le (a b : Q * Q * Q) : Prop :=
  let '(a1, a2, a3) := a in
  let '(b1, b2, b3) := b in
  a1 < b1 \/ (a1 == b1 /\ (a2 < b2 \/ (a2 == b2 /\ a3 <= b3))).

(** [list.sort(key=...)] is stable: an element goes before the first
    element that is not smaller than it. *)
Fixpoint insert_by_key (x : ModelScore) (l : list ModelScore)
  : list ModelScore :=
  match l with
  | [] => [x]
  | y :: l' =>
      if key_ltb (sort_key y) (sort_key x) then y :: insert_by_key x l'
      else x :: y :: l'
  end.

Definition sort_by_key (l : list ModelScore) : list ModelScore :=
  fold_right insert_by_key [] l.

(** The winner and the data of its [reason]: the winning score and,
    with two or more completed models, the gap to the runner-up and
    its name (the source prints both with three decimals). *)
Record Winner := {
  winner_model : string;
  reason_score : Q;
  reason_gap : option (Q * string)
}.

Definition is_completed (c : ComparisonEntry) : bool :=
  String.eqb (entry_status c) "completed".

(** [x] is ranked no lower than [y] by the sort key. *)
Definition ranks_before (x y : ModelScore) : Prop :=
  lex_le (sort_key x) (sort_key y).

Section Comparator.
Variable arithmetic : Arithmetic.

Definition model_score (comparison : ComparisonEntry) : ModelScore :=
  let scores := all_scores comparison in
  let overall_score :=
    match scores with
    | [] => 0
    | _ => py_truediv arithmetic (py_sum arithmetic scores)
                      (List.length scores)
    end in
  {| model := model_name comparison;
     score := overall_score;
     ms_response_time := response_time comparison;
     ms_cost := match cost comparison with
                | Some c => c
                | None => 0
                end |}.

Definition ranking (comparisons : list ComparisonEntry) : list ModelScore :=
  sort_by_key (map model_score (filter is_completed comparisons)).

Definition _determine_winner (comparisons : list ComparisonEntry)
  : option Winner :=
  match ranking comparisons with
  | [] => None
  | winner :: rest =>
      Some {| winner_model := model winner;
              reason_score := score winner;
              reason_gap :=
                match rest with
                | [] => None
                | second_best :: _ =>
                    Some (py_sub arithmetic (score winner)
                                 (score second_best),
                          model second_best)
                end |}
  end.
End Comparator.

End EvaluationService.

(* ================================================================== *)
(** ** Two arithmetics for the comparator *)

Module Arithmetics.
Import Num Py EvaluationService.
Local Open Scope Q_scope.

(** The rational a number stands for. *)
Definition number_value (v : value) : Q :=
  match v with
  | PyBool b => if b then 1 else 0
  | PyInt z => inject_Z z
  | PyFloat q => q
  | _ => 0
  end.

(** Arithmetic without rounding: what the float operations
    approximate. *)
Definition exact_arithmetic : Arithmetic :=
  {| py_sum := fun numbers => PyFloat (sum_Q (map number_value numbers));
     py_truediv := fun total n => number_value total / Qnat n;
     py_sub := Qminus |}.

(** The integer nearest to [n / d], ties to the even one
    ([0 <= n], [0 < d]). *)
Definition round_half_even (n d : Z) : Z :=
  let q := (n / d)%Z in
  match (2 * (n mod d) ?= d)%Z with
  | Lt => q
  | Gt => (q + 1)%Z
  | Eq => if Z.even q then q else (q + 1)%Z
  end.

(** Rounding to the nearest binary64 number, ties to even: 53
    significant bits, exponents down to the subnormal range; overflow
    to infinity is not represented. *)
Definition binary64 (x : Q) : Q :=
  let n := Qnum x in
  let d := Zpos (Qden x) in
  if (n =? 0)%Z then 0
  else
    let a := Z.abs n in
    let e0 := (Z.log2 a - Z.log2 d)%Z in
    let e := if (d * 2 ^ Z.max 0 e0 <=? a * 2 ^ Z.max 0 (- e0))%Z
             then e0 else (e0 - 1)%Z in
    let s := Z.max (e - 52) (-1074) in
    let m := round_half_even (a * 2 ^ Z.max 0 (- s)) (d * 2 ^ Z.max 0 s) in
    Qmake (Z.sgn n * m * 2 ^ Z.max 0 s) (Z.to_pos (2 ^ Z.max 0 (- s))).

(** An [int] operand ([bool] included). *)
Definition as_int (v : value) : option Z :=
  match v with
  | PyBool b => Some (if b then 1 else 0)%Z
  | PyInt z => Some z
  | _ => None
  end.

(** [a + b]: two ints add exactly; otherwise an int operand is
    converted to a float and the sum is rounded. *)
Definition py_add (a b : value) : value :=
  match as_int a, as_int b with
  | Some x, Some y => PyInt (x + y)
  | _, _ => PyFloat (binary64 (binary64 (number_value a)
                               + binary64 (number_value b)))
  end.

(** binary64 arithmetic with [sum] adding from left to right, starting
    from the int 0 (CPython before 3.12). *)
Definition binary64_arithmetic : Arithmetic :=
  {| py_sum := fun numbers => fold_left py_add numbers (PyInt 0);
     py_truediv := fun total n =>
                     match as_int total with
                     | Some z => binary64 (inject_Z z / Qnat n)
                     | None => binary64 (number_value total / Qnat n)
                     end;
     py_sub := fun a b => binary64 (a - b) |}.

End Arithmetics.

(* ================================================================== *)
(** ** The comparator, as the specification words it *)

Module ComparatorReference.
Import Py EvaluationService.
Local Open Scope Q_scope.

(** A numeric value: an int (a bool is one) or a float. *)
Inductive numeric : value -> Prop :=
| numeric_bool b : numeric (PyBool b)
| numeric_int z : numeric (PyInt z)
| numeric_float q : numeric (PyFloat q).

(** [numbers] lists the numeric values of the map [d], in its order;
    strings, nulls and nested maps are left out. *)
Inductive numeric_of : dict -> list value -> Prop :=
| numeric_of_nil : numeric_of [] []
| numeric_of_keep k v d numbers :
    numeric v -> numeric_of d numbers ->
    numeric_of ((k, v) :: d) (v :: numbers)
| numeric_of_skip k v d numbers :
    ~ numeric v -> numeric_of d numbers ->
    numeric_of ((k, v) :: d) numbers.

(** [numbers] lists the numeric values of the score maps of the
    frameworks, framework by framework; an entry that is not a map is
    left out. *)
Inductive framework_numeric_of : dict -> list value -> Prop :=
| framework_numeric_nil : framework_numeric_of [] []
| framework_numeric_map k scores d numbers rest :
    numeric_of scores numbers -> framework_numeric_of d rest ->
    framework_numeric_of ((k, PyDict scores) :: d) (numbers ++ rest)
| framework_numeric_skip k v d rest :
    (forall scores, v <> PyDict scores) -> framework_numeric_of d rest ->
    framework_numeric_of ((k, v) :: d) rest.

(** [x] is ranked no lower than [y]: a higher composite score, then a
    shorter response time, then a lower cost. *)
Definition outranks (x y : ModelScore) : Prop :=
  score y < score x
  \/ (score x == score y
      /\ (ms_response_time x < ms_response_time y
          \/ (ms_response_time x == ms_response_time y
              /\ ms_cost x <= ms_cost y))).

End ComparatorReference.

(* ================================================================== *)
(** ** Sample data *)

Module Examples.
Import Py EvaluationService.
Local Open Scope string_scope.

Definition sample_context : EvalContext :=
  {| BasicEvaluator.question := "What is a cat?";
     BasicEvaluator.answer := "A cat is a small animal.";
     BasicEvaluator.context := None;
     BasicEvaluator.expected_answer := Some "A cat is an animal.";
     BasicEvaluator.category := None |}.

(** Three frameworks: the first raises, the other two return. *)
Definition sample_registry : list (string * Evaluator) :=
  [("ragas",
    {| class_name := "RAGASEvaluator";
       evaluate_async := Some (fun _ _ => Raise "connection refused");
       evaluate := None |});
   ("deepeval",
    {| class_name := "DeepEvalEvaluator";
       evaluate_async := None;
       evaluate := Some (fun _ _ => Ok [("g_eval", PyFloat (3 # 4))]) |});
   ("basic",
    {| class_name := "BasicEvaluator";
       evaluate_async :=
         Some (fun _ _ => Ok [("coherence", PyFloat (4 # 5))]);
       evaluate := None |})].

End Examples.

(* ================================================================== *)
(** ** Subsequences, for the statement of what [lcs_length] computes *)

Module Sequences.

(** [subsequence s l]: [s] is [l] with some elements left out. *)
Inductive subsequence (A : Type) : list A -> list A -> Prop :=
| subsequence_nil l : subsequence [] l
| subsequence_skip s a l : subsequence s l -> subsequence s (a :: l)
| subsequence_take s a l : subsequence s l -> subsequence (a :: s) (a :: l).

(** The textbook recurrence for the length of a longest common
    subsequence, on the first elements of the two lists. *)
Fixpoint lcs_ref (a b : list string) : nat :=
  match a with
  | [] => O
  | x :: a' =>
      (fix inner (b : list string) : nat :=
         match b with
         | [] => O
         | y :: b' =>
             if String.eqb x y then S (lcs_ref a' b')
             else Nat.max (lcs_ref a' b) (inner b')
         end) b
  end.

End Sequences.

(* ================================================================== *)
(** ** Clipped n-gram precision, as the specification words it *)

Module BleuReference.
Import Num BasicEvaluator.
Local Open Scope Q_scope.

(** The n-grams of a token sequence: its windows of [n] consecutive
    tokens, from left to right ([n >= 1]). *)
Fixpoint windows (n : nat) (tokens : list string) : list ngram :=
  match tokens with
  | [] => []
  | _ :: rest =>
      if (n <=? List.length tokens)%nat
      then firstn n tokens :: windows n rest
      else []
  end.

(** [b] without the first occurrence of [g]. *)
Fixpoint remove_first (g : ngram) (b : list ngram) : list ngram :=
  match b with
  | [] => []
  | h :: b' => if ngram_dec g h then b' else h :: remove_first g b'
  end.

(** The number of n-grams of [a] that find a partner in [b], when each
    n-gram of [b] serves at most once: the matches clipped by the
    reference counts. *)
Fixpoint clipped_matches (a b : list ngram) : nat :=
  match a with
  | [] => O
  | g :: a' =>
      if in_dec ngram_dec g b
      then S (clipped_matches a' (remove_first g b))
      else clipped_matches a' b
  end.

(** Clipped matches over the number of candidate n-grams; 0 when the
    candidate has no n-gram. *)
Definition clipped_precision (n : nat) (candidate_tokens
                                          reference_tokens : list string)
  : Q :=
  match windows n candidate_tokens with
  | [] => 0
  | candidate_ngrams =>
      Qnat (clipped_matches candidate_ngrams (windows n reference_tokens))
      / Qnat (List.length candidate_ngrams)
  end.

End BleuReference.

(* ================================================================== *)
(** ** [evaluate_single]: one request, from generation to the result *)

Module SingleEvaluation.
Import Py Text EvaluationService.
Local Open Scope string_scope.

(** [EvaluationCreate] of [app.models.schemas]. *)
Record EvaluationCreate := {
  session_id : string;
  prompt : string;
  context : option string;
  expected_answer : option string;
  model_name : string;
  category : option string;
  temperature : option Q;
  max_tokens : option Z;
  top_p : option Q
}.

(** The dictionary returned by [evaluate_single].  The entries read
    from the clock ([id], [processing_time], the timestamps) are left
    out. *)
Record EvaluationResult := {
  result_session_id : string;
  result_prompt : string;
  result_context : option string;
  result_expected_answer : option string;
  result_model_name : string;
  model_response : option string;
  result_category : option string;
  result_status : string;
  evaluation_type : string;
  result_automatic_metrics : dict;
  result_framework_scores : dict;
  result_response_time : value;
  result_tokens_used : value;
  result_cost : value;
  model_metadata : dict;
  evaluation_frameworks : list string;
  result_selected_metrics : Selection
}.

(** [d.get(k, default)] *)
Definition get_or (d : dict) (k : string) (default : value) : value :=
  match get d k with
  | Some v => v
  | None => default
  end.

Section Service.
(** [generate_llm_response(model, prompt, context, temperature,
    max_tokens, top_p)]: the text and its metadata, or an exception. *)
Variable generate_llm_response :
  string -> string -> option string -> option Q -> option Z -> option Q
  -> exc (string * dict).
(** [self.evaluators.items()] *)
Variable evaluators : list (string * Evaluator).

(** The pair [(model_response, response_metadata)] after the inner
    [try]: nothing is generated when the model name or the prompt is
    empty, and a failure of the generator is replaced by a fixed text
    and its message. *)
Definition generate (evaluation_data : EvaluationCreate)
  : option string * dict :=
  if negb (is_empty (model_name evaluation_data))
     && negb (is_empty (prompt evaluation_data))
  then
    match generate_llm_response (model_name evaluation_data)
                                (prompt evaluation_data)
                                (context evaluation_data)
                                (temperature evaluation_data)
                                (max_tokens evaluation_data)
                                (top_p evaluation_data) with
    | Ok (text, response_metadata) => (Some text, response_metadata)
    | Raise msg =>
        (Some "Error generating response", [("error", PyStr msg)])
    end
  else (None, []).

(** [eval_context], with [model_response or ""] as the answer. *)
Definition eval_context_of (evaluation_data : EvaluationCreate)
           (response : option string) : EvalContext :=
  {| BasicEvaluator.question := prompt evaluation_data;
     BasicEvaluator.answer := match response with
                              | Some text => text
                              | None => ""
                              end;
     BasicEvaluator.context := context evaluation_data;
     BasicEvaluator.expected_answer := expected_answer evaluation_data;
     BasicEvaluator.category := category evaluation_data |}.

Definition evaluate_single (evaluation_data : EvaluationCreate)
           (selected_metrics : Selection) : exc EvaluationResult :=
  let generated := generate evaluation_data in
  let response := fst generated in
  let response_metadata := snd generated in
  let eval_context := eval_context_of evaluation_data response in
  match _run_evaluations evaluators eval_context selected_metrics with
  | Raise msg => Raise ("Evaluation failed: " ++ msg)
  | Ok evaluation_results =>
      Ok {| result_session_id := session_id evaluation_data;
            result_prompt := prompt evaluation_data;
            result_context := context evaluation_data;
            result_expected_answer := expected_answer evaluation_data;
            result_model_name := model_name evaluation_data;
            model_response := response;
            result_category := category evaluation_data;
            result_status := "completed";
            evaluation_type := "automated";
            result_automatic_metrics := automatic_metrics evaluation_results;
            result_framework_scores := framework_scores evaluation_results;
            result_response_time :=
              get_or response_metadata "response_time" (PyInt 0);
            result_tokens_used :=
              get_or response_metadata "tokens_used" (PyInt 0);
            result_cost := get_or response_metadata "cost" PyNone;
            model_metadata := response_metadata;
            evaluation_frameworks := map fst evaluators;
            result_selected_metrics := selected_metrics |}
  end.
End Service.

(** A request for the model ["openai/gpt-4"]. *)
Definition sample_request : EvaluationCreate :=
  {| session_id := "s1";
     prompt := "What is a cat?";
     context := None;
     expected_answer := Some "A cat is an animal.";
     model_name := "openai/gpt-4";
     category := None;
     temperature := Some (7 # 10);
     max_tokens := Some 2048%Z;
     top_p := Some 1%Q |}.

End SingleEvaluation.

(* ================================================================== *)
(** ** Properties of the tokenizer *)

Section TokenizerProperties.
Import Text BasicEvaluator.
Local Open Scope string_scope.

Lemma append_empty_r (s : string) : s ++ "" = s.
Proof. induction s as [|c s IH]; simpl; [reflexivity | now rewrite IH]. Qed.

Lemma snoc_append (cur : string) (c : ascii) (s : string) :
  snoc cur c ++ s = cur ++ String c s.
Proof.
  unfold snoc. induction cur as [|d cur IH]; simpl; [reflexivity|].
  now rewrite IH.
Qed.

Lemma all_chars_snoc (p : ascii -> bool) (cur : string) (c : ascii) :
  all_chars p cur = true -> p c = true -> all_chars p (snoc cur c) = true.
Proof.
  unfold snoc. induction cur as [|d cur IH]; simpl; intros Hcur Hc.
  - now rewrite Hc.
  - apply andb_true_iff in Hcur as [Hd Hcur]. rewrite Hd. simpl. auto.
Qed.

Lemma snoc_not_empty (cur : string) (c : ascii) : snoc cur c <> "".
Proof. unfold snoc. destruct cur; simpl; discriminate. Qed.

Lemma is_empty_true (s : string) : is_empty s = true <-> s = "".
Proof. destruct s; simpl; split; intros H; congruence. Qed.

Lemma is_empty_false (s : string) : is_empty s = false <-> s <> "".
Proof. destruct s; simpl; split; intros H; congruence. Qed.

(** A separator character in front changes no run. *)
Lemma runs_skip (p : ascii -> bool) (c : ascii) (s : string) (ws : list string) :
  p c = false -> runs p s ws -> runs p (String c s) ws.
Proof.
  intros Hc H. destruct H as [sep Hsep | sep w rest ws Hsep Hw Hall Hrest H].
  - apply runs_done. simpl. now rewrite Hc.
  - change (String c (sep ++ w ++ rest)) with (String c sep ++ w ++ rest).
    apply runs_word; auto. simpl. now rewrite Hc.
Qed.

Lemma word_runs_spec (p := is_word) (s : string) :
  forall cur, all_chars p cur = true -> runs p (cur ++ s) (word_runs s cur).
Proof.
  induction s as [|c s IH]; intros cur Hcur; simpl.
  - rewrite append_empty_r. destruct (is_empty cur) eqn:E.
    + apply is_empty_true in E. subst cur. now apply runs_done.
    + apply is_empty_false in E.
      assert (H : runs p ("" ++ cur ++ "") [cur]).
      { apply runs_word; simpl; auto. now apply runs_done. }
      simpl in H. now rewrite append_empty_r in H.
  - destruct (is_word c) eqn:Hc.
    + rewrite <- snoc_append. apply IH. now apply all_chars_snoc.
    + destruct (is_empty cur) eqn:E.
      * apply is_empty_true in E. subst cur. simpl.
        apply runs_skip; auto. apply (IH ""). reflexivity.
      * apply is_empty_false in E.
        change (cur ++ String c s) with ("" ++ cur ++ String c s).
        apply runs_word; simpl; auto.
        apply runs_skip; auto. apply (IH ""). reflexivity.
Qed.

Lemma findall_words_runs (s : string) : runs is_word s (findall_words s).
Proof. apply (word_runs_spec s ""). reflexivity. Qed.

Lemma all_chars_app (p : ascii -> bool) (a b : string) :
  all_chars p (a ++ b) = all_chars p a && all_chars p b.
Proof.
  induction a as [|c a IH]; simpl; [reflexivity|].
  now rewrite IH, andb_assoc.
Qed.

(** A text that starts with a separator-free word after separators
    splits in one way only. *)
Lemma sep_word_split (p : ascii -> bool) (sep sep' w w' rest rest' : string) :
  all_chars (fun c => negb (p c)) sep = true ->
  all_chars (fun c => negb (p c)) sep' = true ->
  w <> "" -> w' <> "" ->
  all_chars p w = true -> all_chars p w' = true ->
  sep ++ w ++ rest = sep' ++ w' ++ rest' ->
  sep = sep' /\ w ++ rest = w' ++ rest'.
Proof.
  revert sep'. induction sep as [|c sep IH]; intros [|c' sep'];
    simpl; intros Hs Hs' Hw Hw' Ha Ha' E.
  - auto.
  - destruct w as [|d w]; [congruence|]. simpl in *. injection E as -> E.
    apply andb_true_iff in Ha as [Ha _]. apply andb_true_iff in Hs' as [Hs' _].
    rewrite Ha in Hs'. discriminate.
  - destruct w' as [|d w']; [congruence|]. simpl in *. injection E as -> E.
    apply andb_true_iff in Ha' as [Ha' _]. apply andb_true_iff in Hs as [Hs _].
    rewrite Ha' in Hs. discriminate.
  - injection E as -> E.
    apply andb_true_iff in Hs as [_ Hs]. apply andb_true_iff in Hs' as [_ Hs'].
    destruct (IH sep' Hs Hs' Hw Hw' Ha Ha' E) as [-> E']. auto.
Qed.

Lemma word_rest_split (p : ascii -> bool) (w w' rest rest' : string) :
  all_chars p w = true -> all_chars p w' = true ->
  starts_outside p rest -> starts_outside p rest' ->
  w ++ rest = w' ++ rest' ->
  w = w' /\ rest = rest'.
Proof.
  revert w'. induction w as [|c w IH]; intros [|c' w'];
    simpl; intros Ha Ha' Hr Hr' E.
  - auto.
  - subst rest. simpl in Hr. apply andb_true_iff in Ha' as [Ha' _]. congruence.
  - subst rest'. simpl in Hr'. apply andb_true_iff in Ha as [Ha _]. congruence.
  - injection E as -> E.
    apply andb_true_iff in Ha as [_ Ha]. apply andb_true_iff in Ha' as [_ Ha'].
    destruct (IH w' Ha Ha' Hr Hr' E) as [-> ->]. auto.
Qed.

(** The runs of a text are determined by the text. *)
Lemma runs_unique (p : ascii -> bool) (s : string) (ws ws' : list string) :
  runs p s ws -> runs p s ws' -> ws = ws'.
Proof.
  intros H. revert ws'.
  induction H as [sep Hsep | sep w rest ws Hsep Hw Hall Hrest H IH];
    intros ws' H'.
  - inversion H' as [sep' Hsep' | sep' w' rest' ws1 Hsep' Hw' Hall' Hrest' H1];
      subst; [reflexivity|].
    rewrite !all_chars_app in Hsep.
    apply andb_true_iff in Hsep as [_ Hsep].
    apply andb_true_iff in Hsep as [Hsep _].
    destruct w' as [|c w']; [congruence|]. simpl in *.
    apply andb_true_iff in Hsep as [Hsep _].
    apply andb_true_iff in Hall' as [Hall' _].
    rewrite Hall' in Hsep. discriminate.
  - remember (sep ++ w ++ rest) as s eqn:Es.
    destruct H' as [sep' Hsep' | sep' w' rest' ws1 Hsep' Hw' Hall' Hrest' H1].
    + subst sep'. rewrite !all_chars_app in Hsep'.
      apply andb_true_iff in Hsep' as [_ Hsep'].
      apply andb_true_iff in Hsep' as [Hsep' _].
      destruct w as [|c w]; [congruence|]. simpl in *.
      apply andb_true_iff in Hsep' as [Hsep' _].
      apply andb_true_iff in Hall as [Hall _].
      rewrite Hall in Hsep'. discriminate.
    + symmetry in Es.
      apply (@sep_word_split p) in Es as [_ E]; auto.
      apply (@word_rest_split p) in E as [-> ->]; auto.
      f_equal. now apply IH.
Qed.

Lemma runs_tokens_shape (p : ascii -> bool) (s : string) (ws : list string) :
  runs p s ws -> Forall (fun w => w <> "" /\ all_chars p w = true) ws.
Proof. induction 1; constructor; auto. Qed.

End TokenizerProperties.

(* ------------------------------------------------------------------ *)
(** *** C9: what the tokenizer returns *)

Section TokenizerClaim.
Import Text BasicEvaluator.
Local Open Scope string_scope.

(** C9, as amended.  [_tokenize] returns the empty sequence for [None]
    and for the empty string; for every text it returns exactly the
    ordered sequence of the maximal runs of word characters of the
    lower-cased text, a word character being an alphanumeric character
    or the underscore.  Every token is non-empty and holds word
    characters only, and the result is a function of the argument. *)
Theorem tokenize_word_runs :
  _tokenize None = []
  /\ _tokenize (Some "") = []
  /\ (forall c, is_word c = is_alnum c || Ascii.eqb c "_")
  /\ forall text,
       runs is_word (lower text) (_tokenize (Some text))
       /\ (forall ws, runs is_word (lower text) ws ->
                      ws = _tokenize (Some text))
       /\ Forall (fun t => t <> "" /\ all_chars is_word t = true)
                 (_tokenize (Some text)).
Proof.
  split; [reflexivity|]. split; [reflexivity|]. split.
  - intros c. unfold is_word. f_equal.
    unfold code. destruct (Ascii.eqb_spec c "_") as [->|Hc]; [reflexivity|].
    apply N.eqb_neq. intros E. apply Hc.
    rewrite <- (ascii_N_embedding c), E. reflexivity.
  - intros text.
    assert (H : runs is_word (lower text) (_tokenize (Some text))).
    { destruct text as [|c text]; [now apply runs_done|].
      apply findall_words_runs. }
    split; [exact H|]. split.
    + intros ws Hws. exact (runs_unique Hws H).
    + exact (runs_tokens_shape H).
Qed.

(** C9, the claim as written fails: the underscore is a word character,
    so a token can hold a character that is not alphanumeric. *)
Lemma tokenize_underscore_token :
  _tokenize (Some "a_b") = ["a_b"]
  /\ ~ Forall (fun t => all_chars is_alnum t = true) (_tokenize (Some "a_b")).
Proof.
  split; [reflexivity|].
  intros H. inversion H as [|t l Ht Hl]; subst. vm_compute in Ht. discriminate.
Qed.

End TokenizerClaim.

(* ================================================================== *)
(** ** ROUGE of a text against itself *)

Section RougeProperties.
Import Num Text BasicEvaluator.
Local Open Scope Q_scope.

Lemma Qnat_pos (n : nat) : (0 < n)%nat -> 0 < Qnat n.
Proof.
  intros H. unfold Qnat, Qlt. simpl. lia.
Qed.

Lemma Qnat_nonneg (n : nat) : 0 <= Qnat n.
Proof. unfold Qnat, Qle. simpl. lia. Qed.

Lemma Qnat_le (a b : nat) : (a <= b)%nat -> Qnat a <= Qnat b.
Proof. intros H. unfold Qnat, Qle. simpl. lia. Qed.

Lemma Qnat_self_ratio (n : nat) : (0 < n)%nat -> Qnat n / Qnat n == 1.
Proof.
  intros H. apply Qmult_inv_r. intros E.
  pose proof (Qnat_pos H) as Hp. lra.
Qed.

Lemma ratio_or_zero_self (n : nat) : (0 < n)%nat -> ratio_or_zero n n == 1.
Proof.
  intros H. destruct n as [|n]; [lia|]. now apply Qnat_self_ratio.
Qed.

Lemma f1_one (p r : Q) : p == 1 -> r == 1 -> f1 p r == 1.
Proof.
  intros Hp Hr. unfold f1, Qltb.
  destruct (Qle_bool (p + r) 0) eqn:E.
  - apply Qle_bool_iff in E. lra.
  - simpl. rewrite Hp, Hr. reflexivity.
Qed.

(** A set meets itself in itself. *)
Lemma intersection_self (A : Type) (A_dec : forall x y : A, {x = y} + {x <> y})
      (l : list A) : intersection A_dec l l = l.
Proof.
  unfold intersection.
  assert (H : forall l', (forall x, In x l' -> In x l) ->
                         filter (fun x => mem A_dec x l) l' = l').
  { induction l' as [|a l' IH]; intros Hin; simpl; [reflexivity|].
    unfold mem at 1. destruct (in_dec A_dec a l) as [_|Hn].
    - f_equal. apply IH. intros x Hx. apply Hin. now right.
    - exfalso. apply Hn, Hin. now left. }
  apply H. auto.
Qed.

Lemma to_set_nonempty (A : Type) (A_dec : forall x y : A, {x = y} + {x <> y})
      (l : list A) : l <> [] -> (0 < List.length (to_set A_dec l))%nat.
Proof.
  intros Hl. destruct l as [|a l]; [congruence|].
  destruct (to_set A_dec (a :: l)) as [|b s] eqn:E; [|simpl; lia].
  exfalso. assert (Hin : In a (to_set A_dec (a :: l))).
  { apply nodup_In. now left. }
  rewrite E in Hin. destruct Hin.
Qed.

(** *** The table of [lcs_length] *)

Lemma lcs_row_length (xi : string) (y : list string) :
  forall prev left,
    List.length prev = (List.length y + 1)%nat ->
    List.length (lcs_row xi y prev left) = List.length y.
Proof.
  induction y as [|yj y IH]; intros prev left Hp; simpl; [reflexivity|].
  destruct prev as [|diag [|up prev]]; simpl in Hp; try lia.
  simpl. f_equal. apply IH. simpl. lia.
Qed.

(** Where the row's token equals the column's, the cell is the
    diagonal neighbour plus one. *)
Lemma lcs_row_match (xi : string) (y : list string) :
  forall prev left j,
    List.length prev = (List.length y + 1)%nat ->
    (j < List.length y)%nat ->
    nth j y EmptyString = xi ->
    nth j (lcs_row xi y prev left) O = (nth j prev O + 1)%nat.
Proof.
  induction y as [|yj y IH]; intros prev left j Hp Hj Hxi; simpl in Hj; [lia|].
  destruct prev as [|diag [|up prev]]; simpl in Hp; try lia.
  destruct j as [|j]; simpl in *.
  - subst yj. now rewrite String.eqb_refl.
  - apply IH; auto; simpl; lia.
Qed.

Lemma lcs_diagonal (suf : list string) :
  forall pre row,
    List.length row = (List.length (pre ++ suf) + 1)%nat ->
    nth (List.length pre) row O = List.length pre ->
    let final := fold_left (lcs_step (pre ++ suf)) suf row in
    List.length final = (List.length (pre ++ suf) + 1)%nat
    /\ nth (List.length (pre ++ suf)) final O = List.length (pre ++ suf).
Proof.
  induction suf as [|a suf IH]; intros pre row Hlen Hdiag; simpl.
  - rewrite app_nil_r in *. auto.
  - assert (E : pre ++ a :: suf = (pre ++ [a]) ++ suf)
      by now rewrite <- app_assoc.
    rewrite E. apply IH.
    + unfold lcs_step. simpl. rewrite lcs_row_length; rewrite <- E; auto. lia.
    + rewrite <- E. rewrite length_app. simpl.
      replace (List.length pre + 1)%nat with (S (List.length pre)) by lia.
      unfold lcs_step. simpl.
      rewrite lcs_row_match; auto.
      * rewrite Hdiag. lia.
      * rewrite length_app. simpl. lia.
      * now rewrite nth_middle.
Qed.

Lemma last_nth (l : list nat) (n : nat) :
  List.length l = (n + 1)%nat -> last l O = nth n l O.
Proof.
  revert n. induction l as [|a l IH]; intros n H; simpl in H; [lia|].
  destruct l as [|b l].
  - simpl in *. assert (n = O) by lia. now subst.
  - destruct n as [|n]; [simpl in H; lia|].
    change (last (a :: b :: l) O) with (last (b :: l) O).
    rewrite (IH n); [reflexivity | simpl in *; lia].
Qed.

(** The longest common subsequence of a sequence with itself is the
    whole sequence. *)
Lemma lcs_length_self (x : list string) : lcs_length x x = List.length x.
Proof.
  unfold lcs_length, lcs_table.
  destruct (@lcs_diagonal x [] (repeat O (List.length x + 1))) as [Hlen Hnth].
  - simpl. now rewrite repeat_length.
  - simpl. destruct (List.length x + 1)%nat; reflexivity.
  - simpl in Hlen, Hnth. rewrite last_nth with (n := List.length x) by exact Hlen.
    exact Hnth.
Qed.

Lemma lcs_f1_self (x : list string) :
  x <> [] -> _calculate_lcs_f1 x x == 1.
Proof.
  intros Hx. unfold _calculate_lcs_f1. rewrite lcs_length_self.
  destruct x as [|a x]; [congruence|].
  set (n := List.length (a :: x)).
  assert (Hn : Qnat n / Qnat n == 1) by (apply Qnat_self_ratio; subst n; simpl; lia).
  destruct (Qeq_bool (Qnat n / Qnat n + Qnat n / Qnat n) 0) eqn:E.
  - apply Qeq_bool_iff in E. rewrite Hn in E. discriminate.
  - rewrite Hn. reflexivity.
Qed.

Lemma get_ngrams_nonempty (tokens : list string) (n : nat) :
  (n <= List.length tokens)%nat -> _get_ngrams tokens n <> [].
Proof.
  intros H. unfold _get_ngrams.
  destruct (Nat.ltb_spec (List.length tokens) n) as [Hlt|_]; [lia|].
  replace (List.length tokens - n + 1)%nat
    with (S (List.length tokens - n)) by lia.
  simpl. discriminate.
Qed.

(** Precision, recall and F1 of a non-empty set against itself. *)
Lemma set_f1_self (A : Type) (A_dec : forall x y : A, {x = y} + {x <> y})
      (l : list A) :
  l <> [] ->
  let s := to_set A_dec l in
  let overlap := intersection A_dec s s in
  f1 (ratio_or_zero (List.length overlap) (List.length s))
     (ratio_or_zero (List.length overlap) (List.length s)) == 1.
Proof.
  intros Hl s overlap. unfold overlap. rewrite intersection_self.
  apply f1_one; apply ratio_or_zero_self; now apply to_set_nonempty.
Qed.

End RougeProperties.

(* ------------------------------------------------------------------ *)
(** *** C5: ROUGE-1, ROUGE-2 and ROUGE-L of a text against itself *)

Section RougeClaim.
Import Num Text BasicEvaluator.
Local Open Scope Q_scope.

(** C5, as amended.  For every text with at least one token, ROUGE-1
    and ROUGE-L of the text against itself are 1.0; ROUGE-2 is 1.0 when
    the text has at least two tokens and 0.0 when it has fewer, since a
    single token forms no bigram; a text without any token, empty or
    not, scores 0.0 three times. *)
Theorem rouge_self_is_one (text : string) :
  (tokens_of text <> [] ->
   rouge1 (_calculate_rouge text text) == 1
   /\ rougeL (_calculate_rouge text text) == 1)
  /\ ((2 <= List.length (tokens_of text))%nat ->
      rouge2 (_calculate_rouge text text) == 1)
  /\ ((List.length (tokens_of text) < 2)%nat ->
      rouge2 (_calculate_rouge text text) == 0)
  /\ (tokens_of text = [] ->
      rouge1 (_calculate_rouge text text) == 0
      /\ rougeL (_calculate_rouge text text) == 0).
Proof.
  cbv beta zeta delta [_calculate_rouge].
  destruct (tokens_of text) as [|t0 l] eqn:E.
  - cbn [rouge1 rouge2 rougeL]. split; [intros H; now elim H|].
    split; [simpl; lia|]. split; [reflexivity|]. now split.
  - cbn [rouge1 rouge2 rougeL].
    assert (Hne : t0 :: l <> []) by discriminate.
    split; [|split; [|split]].
    + intros _. split.
      * exact (set_f1_self string_dec Hne).
      * now apply lcs_f1_self.
    + intros H. apply (set_f1_self ngram_dec).
      now apply get_ngrams_nonempty.
    + intros H. destruct l as [|t1 l]; [reflexivity | simpl in H; lia].
    + discriminate.
Qed.

Lemma rouge_self_is_one_witness :
  rouge1 (_calculate_rouge "the cat sat" "the cat sat") == 1
  /\ rouge2 (_calculate_rouge "the cat sat" "the cat sat") == 1
  /\ rougeL (_calculate_rouge "the cat sat" "the cat sat") == 1
  /\ rouge1 (_calculate_rouge "hello" "hello") == 1
  /\ rougeL (_calculate_rouge "hello" "hello") == 1.
Proof.
  destruct (rouge_self_is_one "the cat sat") as (H1 & H2 & _).
  destruct (rouge_self_is_one "hello") as (H3 & _).
  destruct H1 as [Ha Hb]; [discriminate|].
  destruct H3 as [Hc Hd]; [discriminate|].
  split; [exact Ha|]. split; [apply H2; vm_compute; lia|].
  split; [exact Hb|]. split; [exact Hc | exact Hd].
Defined.

(** C5, the claim as written fails: a non-empty text with a single
    token has no bigram, so its ROUGE-2 against itself is 0.0; a
    non-empty text without any token scores 0.0 three times. *)
Lemma rouge_self_single_token :
  "hello"%string <> ""%string
  /\ rouge2 (_calculate_rouge "hello" "hello") == 0
  /\ ~ rouge2 (_calculate_rouge "hello" "hello") == 1
  /\ ~ rouge1 (_calculate_rouge "..." "...") == 1.
Proof.
  split; [discriminate|]. split; [reflexivity|].
  split; vm_compute; discriminate.
Qed.

End RougeClaim.

(* ------------------------------------------------------------------ *)
(** *** C7: the length ratio *)

Section LengthRatioClaim.
Import Num Text BasicEvaluator.
Local Open Scope Q_scope.

(** The penalty formula at ratio 1. *)
Lemma length_penalty_at_one (ratio : Q) :
  ratio == 1 -> 1 - Qabs (1 - ratio) / Qmax 1 ratio == 1.
Proof.
  intros E. rewrite E. reflexivity.
Qed.




End LengthRatioClaim.

(* ================================================================== *)
(** ** Scores in the unit interval *)

Section UnitInterval.
Import Num Text BasicEvaluator.
Local Open Scope Q_scope.

Lemma ratio_in_unit (a b : nat) :
  (a <= b)%nat -> (0 < b)%nat -> 0 <= Qnat a / Qnat b <= 1.
Proof.
  intros Hab Hb. pose proof (Qnat_pos Hb) as Hpos.
  pose proof (Qnat_nonneg a) as Ha. pose proof (Qnat_le Hab) as Hle.
  split.
  - apply Qle_shift_div_l; lra.
  - apply Qle_shift_div_r; lra.
Qed.

Lemma ratio_below_one (a b : nat) :
  (a < b)%nat -> Qnat a / Qnat b < 1.
Proof.
  intros Hab. assert (Hb : (0 < b)%nat) by lia.
  pose proof (Qnat_pos Hb) as Hpos.
  apply Qlt_shift_div_r; [exact Hpos|].
  rewrite Qmult_1_l. unfold Qnat. rewrite <- Zlt_Qlt. lia.
Qed.

Lemma ratio_or_zero_in_unit (a b : nat) :
  (a <= b)%nat -> 0 <= ratio_or_zero a b <= 1.
Proof.
  intros Hab. destruct b as [|b]; simpl; [lra|].
  apply ratio_in_unit; lia.
Qed.

Lemma Qmin_one_in_unit (x : Q) : 0 <= x -> 0 <= Qmin 1 x <= 1.
Proof.
  intros Hx. split.
  - apply Q.min_glb; lra.
  - apply Q.le_min_l.
Qed.

Lemma Qmax_zero_in_unit (x : Q) : x <= 1 -> 0 <= Qmax 0 x <= 1.
Proof.
  intros Hx. split.
  - apply Q.le_max_l.
  - apply Q.max_lub; lra.
Qed.

Lemma bounded_start : bounded (0, O).
Proof. unfold bounded. simpl. split; [apply Qle_refl | apply Qnat_nonneg]. Qed.

Lemma Qnat_succ (n : nat) : Qnat (S n) == Qnat n + 1.
Proof.
  unfold Qnat. rewrite Nat2Z.inj_succ, <- Z.add_1_r, inject_Z_plus.
  reflexivity.
Qed.

Lemma bounded_add (acc : Q * nat) (x : Q) :
  bounded acc -> 0 <= x <= 1 -> bounded (add_factor acc x).
Proof.
  unfold bounded, add_factor. simpl. intros [H0 H1] [Hx0 Hx1].
  rewrite Qnat_succ. lra.
Qed.

Lemma average_in_unit (acc : Q * nat) :
  bounded acc -> 0 <= average_or_half acc <= 1.
Proof.
  unfold bounded, average_or_half. intros [H0 H1].
  destruct (snd acc) as [|n] eqn:E; [lra|].
  assert (Hpos : 0 < Qnat (S n)) by (apply Qnat_pos; lia).
  split.
  - apply Qle_shift_div_l; lra.
  - apply Qle_shift_div_r; lra.
Qed.

Lemma average_positive (acc : Q * nat) (x : Q) :
  bounded acc -> 0 < x -> 0 < average_or_half (add_factor acc x).
Proof.
  unfold bounded, average_or_half, add_factor. simpl. intros [H0 H1] Hx.
  assert (Hpos : 0 < Qnat (S (snd acc))) by (apply Qnat_pos; lia).
  apply Qlt_shift_div_l; lra.
Qed.

Lemma to_set_length_le (A : Type) (A_dec : forall x y : A, {x = y} + {x <> y})
      (l : list A) : (List.length (to_set A_dec l) <= List.length l)%nat.
Proof.
  unfold to_set. induction l as [|a l IH]; simpl; [lia|].
  destruct (in_dec A_dec a l); simpl; lia.
Qed.

Lemma intersection_length_le (A : Type)
      (A_dec : forall x y : A, {x = y} + {x <> y}) (a b : list A) :
  (List.length (intersection A_dec a b) <= List.length a)%nat.
Proof. unfold intersection. apply filter_length_le. Qed.

Lemma intersection_incl_r (A : Type)
      (A_dec : forall x y : A, {x = y} + {x <> y}) (a b : list A) :
  incl (intersection A_dec a b) b.
Proof.
  intros x Hx. unfold intersection in Hx. apply filter_In in Hx as [_ Hx].
  unfold mem in Hx. destruct (in_dec A_dec x b); [assumption|discriminate].
Qed.

Lemma intersection_NoDup (A : Type)
      (A_dec : forall x y : A, {x = y} + {x <> y}) (a b : list A) :
  NoDup a -> NoDup (intersection A_dec a b).
Proof. intros H. unfold intersection. now apply NoDup_filter. Qed.

Lemma to_set_NoDup (A : Type) (A_dec : forall x y : A, {x = y} + {x <> y})
      (l : list A) : NoDup (to_set A_dec l).
Proof. apply NoDup_nodup. Qed.

(** The overlap of two sets is no larger than the second one. *)
Lemma intersection_length_le_r (A : Type)
      (A_dec : forall x y : A, {x = y} + {x <> y}) (a b : list A) :
  NoDup a ->
  (List.length (intersection A_dec a b) <= List.length b)%nat.
Proof.
  intros Ha. apply NoDup_incl_length.
  - now apply intersection_NoDup.
  - apply intersection_incl_r.
Qed.

(** The overlap of two sets is no larger than their union. *)
Lemma intersection_length_le_union (A : Type)
      (A_dec : forall x y : A, {x = y} + {x <> y}) (a b : list A) :
  NoDup a ->
  (List.length (intersection A_dec a b)
   <= List.length (union A_dec a b))%nat.
Proof.
  intros Ha. apply NoDup_incl_length.
  - now apply intersection_NoDup.
  - intros x Hx. unfold union. apply nodup_In, in_or_app. left.
    unfold intersection in Hx. now apply filter_In in Hx as [Hx _].
Qed.

End UnitInterval.

(* ================================================================== *)
(** ** The coherence scorer *)

Section CoherenceProperties.
Import Num Text BasicEvaluator.
Local Open Scope Q_scope.

Lemma length_variation_bounds (mx mn : nat) :
  0 < 1 - Qnat (mx - mn) / Qnat (mx + 1)
  /\ 1 - Qnat (mx - mn) / Qnat (mx + 1) <= 1.
Proof.
  assert (H1 : Qnat (mx - mn) / Qnat (mx + 1) < 1)
    by (apply ratio_below_one; lia).
  assert (H2 : 0 <= Qnat (mx - mn) / Qnat (mx + 1) <= 1)
    by (apply ratio_in_unit; lia).
  lra.
Qed.

Lemma connector_score_in_unit (count sentences : nat) :
  (0 < sentences)%nat ->
  0 <= Qmin 1 (Qnat count / Qnat sentences) <= 1.
Proof.
  intros H. apply Qmin_one_in_unit.
  apply Qle_shift_div_l; [now apply Qnat_pos|].
  pose proof (Qnat_nonneg count). lra.
Qed.

Lemma entity_factor_bounded (entities : list string) :
  bounded match entities with
          | [] => (0, O)
          | _ => add_factor (0, O)
                   (Qnat (List.length (str_set entities))
                    / Qnat (List.length entities))
          end.
Proof.
  destruct entities as [|e entities]; [apply bounded_start|].
  apply bounded_add; [apply bounded_start|].
  apply ratio_in_unit; [apply to_set_length_le | simpl; lia].
Qed.

(** With two sentences or more the score is an average of factors of
    the unit interval, the last of which is positive. *)
Lemma coherence_multi_sentence (text : string) :
  (2 <= List.length (sentences_of text))%nat ->
  0 < _calculate_coherence text /\ _calculate_coherence text <= 1.
Proof.
  intros H. unfold _calculate_coherence.
  destruct (is_empty text) eqn:E.
  { apply is_empty_true in E. subst text. simpl in H. lia. }
  destruct (Nat.ltb_spec (List.length (sentences_of text)) 2) as [Hlt|_];
    [lia|].
  cbv zeta.
  pose proof (entity_factor_bounded (findall_capitalized text)) as Hent.
  set (acc1 := match findall_capitalized text with
               | [] => (0, O)
               | _ => _
               end) in *.
  set (conn := Qmin 1 _).
  assert (Hconn : 0 <= conn <= 1)
    by (apply connector_score_in_unit; lia).
  pose proof (bounded_add Hent Hconn) as Hacc2.
  destruct (sentences_of text) as [|s1 sentences]; [simpl in H; lia|].
  cbn [map].
  set (lengths := List.length (tokens_of s1) :: _).
  destruct (length_variation_bounds (max_of lengths) (min_of lengths))
    as [Hpos Hle].
  split.
  - now apply average_positive.
  - apply average_in_unit. apply bounded_add; [assumption | lra].
Qed.

Lemma coherence_in_unit (text : string) :
  0 <= _calculate_coherence text <= 1.
Proof.
  destruct (Nat.lt_ge_cases (List.length (sentences_of text)) 2) as [Hlt|Hge].
  - unfold _calculate_coherence. destruct (is_empty text); [lra|].
    apply Nat.ltb_lt in Hlt. rewrite Hlt. lra.
  - destruct (coherence_multi_sentence text Hge). lra.
Qed.

Lemma coherence_zero_iff_empty (text : string) :
  _calculate_coherence text == 0 <-> text = ""%string.
Proof.
  split.
  - intros Hz. destruct text as [|c text]; [reflexivity|]. exfalso.
    destruct (Nat.lt_ge_cases
                (List.length (sentences_of (String c text))) 2) as [Hlt|Hge].
    + unfold _calculate_coherence in Hz. simpl is_empty in Hz.
      apply Nat.ltb_lt in Hlt. rewrite Hlt in Hz. discriminate.
    + destruct (coherence_multi_sentence _ Hge). lra.
  - intros ->. reflexivity.
Qed.

End CoherenceProperties.

(* ------------------------------------------------------------------ *)
(** *** C10: the fixed score of a text with fewer than two sentences *)

Section CoherenceClaim.
Import Num Text BasicEvaluator.
Local Open Scope Q_scope.

(** C10, as amended.  For every non-empty string whose split on
    sentence terminators leaves fewer than two non-blank sentences,
    whether it has word tokens or not, the coherence scorer returns
    exactly 0.8; and the scorer returns 0.0 for the empty string
    only. *)
Theorem coherence_few_sentences (text : string) :
  text <> ""%string ->
  (List.length (sentences_of text) < 2)%nat ->
  _calculate_coherence text == 8 # 10
  /\ forall other, _calculate_coherence other == 0 <-> other = ""%string.
Proof.
  intros Hne Hlt. split; [|exact coherence_zero_iff_empty].
  unfold _calculate_coherence. apply is_empty_false in Hne. rewrite Hne.
  apply Nat.ltb_lt in Hlt. rewrite Hlt. reflexivity.
Qed.

(** A text of punctuation and blanks only, without any word token. *)
Lemma coherence_few_sentences_witness :
  tokens_of "... !  ?" = []
  /\ _calculate_coherence "... !  ?" == 8 # 10.
Proof.
  split; [reflexivity|].
  apply (@coherence_few_sentences "... !  ?"); [discriminate | vm_compute; lia].
Defined.

(** C10, the claim as written fails: a non-empty text without any
    token does not always score 0.8.  One that splits into two
    non-blank pieces is scored by the factors, here 0.5. *)
Remark coherence_two_blank_free_pieces :
  "-.-"%string <> ""%string
  /\ tokens_of "-.-" = []
  /\ _calculate_coherence "-.-" == 1 # 2
  /\ ~ _calculate_coherence "-.-" == 8 # 10.
Proof.
  split; [discriminate|]. split; [reflexivity|]. split; [reflexivity|].
  vm_compute. discriminate.
Qed.

End CoherenceClaim.

(* ================================================================== *)
(** ** The other heuristic scorers stay in the unit interval *)

Section ScorerBounds.
Import Num Text BasicEvaluator.
Local Open Scope Q_scope.

Lemma mult_in_unit (x y : Q) :
  0 <= x <= 1 -> 0 <= y <= 1 -> 0 <= x * y <= 1.
Proof. intros [Hx0 Hx1] [Hy0 Hy1]. split; nra. Qed.

(** The weighted F-mean [10PR / (9P + R)]. *)
Lemma f_mean_in_unit (p r : Q) :
  0 <= p <= 1 -> 0 <= r <= 1 -> ~ p + r == 0 ->
  0 <= (10 * p * r) / (9 * p + r) <= 1.
Proof.
  intros [Hp0 Hp1] [Hr0 Hr1] Hsum.
  assert (Hden : 0 < 9 * p + r).
  { destruct (Qlt_le_dec 0 (p + r)) as [H|H]; [lra|].
    exfalso. apply Hsum. lra. }
  split.
  - apply Qle_shift_div_l; [assumption|]. nra.
  - apply Qle_shift_div_r; [assumption|]. nra.
Qed.

Lemma str_set_NoDup (l : list string) : NoDup (str_set l).
Proof. apply to_set_NoDup. Qed.

Lemma meteor_in_unit (candidate reference : string) :
  0 <= _calculate_meteor_approx candidate reference <= 1.
Proof.
  unfold _calculate_meteor_approx.
  destruct (tokens_of candidate) as [|c0 ct] eqn:Ec; [lra|].
  destruct (tokens_of reference) as [|r0 rt] eqn:Er; [lra|].
  cbv zeta.
  set (cs := str_set (c0 :: ct)). set (rs := str_set (r0 :: rt)).
  set (m := List.length (str_inter cs rs)).
  assert (Hmc : (m <= List.length cs)%nat)
    by apply intersection_length_le.
  assert (Hmr : (m <= List.length rs)%nat)
    by (apply intersection_length_le_r, str_set_NoDup).
  assert (Hct : (List.length cs <= List.length (c0 :: ct))%nat)
    by apply to_set_length_le.
  pose proof (ratio_or_zero_in_unit Hmc) as Hp.
  pose proof (ratio_or_zero_in_unit Hmr) as Hr.
  destruct (Qeq_bool (ratio_or_zero m (List.length cs)
                      + ratio_or_zero m (List.length rs)) 0) eqn:E; [lra|].
  apply Qeq_bool_neq in E.
  apply mult_in_unit.
  - now apply f_mean_in_unit.
  - assert (H : 0 <= Qnat m / Qnat (List.length (c0 :: ct)) <= 1)
      by (apply ratio_in_unit; [lia | simpl; lia]).
    lra.
Qed.

Lemma relevance_in_unit (question answer : string) (context : option string) :
  0 <= _calculate_relevance question answer context <= 1.
Proof.
  unfold _calculate_relevance.
  destruct (is_empty question || is_empty answer); [lra|].
  cbv zeta.
  set (qt := str_set (tokens_of question)).
  set (at_ := str_set (tokens_of answer)).
  set (ctx := if truthy context then str_set (_tokenize context) else []).
  assert (Hq : 0 <= ratio_or_zero (List.length (str_inter qt at_))
                                  (List.length qt) <= 1)
    by apply ratio_or_zero_in_unit, intersection_length_le.
  assert (Hc : 0 <= match ctx with
                    | [] => 0
                    | _ => Qnat (List.length (str_inter ctx at_))
                           / Qnat (List.length ctx)
                    end <= 1).
  { destruct ctx as [|c0 ctx'] eqn:E; [lra|]. rewrite <- E.
    apply ratio_in_unit; [apply intersection_length_le|].
    rewrite E. simpl. lia. }
  destruct (truthy context); lra.
Qed.

Lemma closeness_le_one (x ideal span : Q) :
  0 < span -> 1 - Qabs (x - ideal) / span <= 1.
Proof.
  intros Hspan.
  assert (H : 0 <= Qabs (x - ideal) / span).
  { apply Qle_shift_div_l; [assumption|].
    pose proof (Qabs_nonneg (x - ideal)). lra. }
  lra.
Qed.

Lemma fluency_in_unit (text : string) :
  0 <= _calculate_fluency text <= 1.
Proof.
  unfold _calculate_fluency. destruct (is_empty text); [lra|].
  cbv zeta. apply average_in_unit.
  set (acc1 := match sentences_of text with [] => (0, O) | _ => _ end).
  assert (H1 : bounded acc1).
  { unfold acc1. destruct (sentences_of text); [apply bounded_start|].
    apply bounded_add; [apply bounded_start|].
    apply Qmax_zero_in_unit, closeness_le_one. reflexivity. }
  set (acc2 := match tokens_of text with [] => acc1 | _ => _ end).
  assert (H2 : bounded acc2).
  { unfold acc2. destruct (tokens_of text); [assumption|].
    apply bounded_add; [assumption|].
    apply Qmax_zero_in_unit, closeness_le_one. reflexivity. }
  destruct (List.length (sentences_of text)) as [|n] eqn:E; [assumption|].
  apply bounded_add; [assumption|].
  apply Qmin_one_in_unit.
  apply Qle_shift_div_l; [apply Qnat_pos; lia|].
  pose proof (Qnat_nonneg (count_terminators text)). lra.
Qed.

Lemma informativeness_in_unit (text : string) :
  0 <= _calculate_informativeness text <= 1.
Proof.
  unfold _calculate_informativeness. destruct (is_empty text); [lra|].
  destruct (tokens_of text) as [|t0 tokens] eqn:E; [lra|].
  cbv zeta. apply Qmin_one_in_unit.
  set (n := List.length (t0 :: tokens)).
  assert (Hn : (0 < n)%nat) by (unfold n; simpl; lia).
  assert (H1 : 0 <= Qnat (List.length (str_set (t0 :: tokens))) / Qnat n <= 1)
    by (apply ratio_in_unit; [apply to_set_length_le | assumption]).
  assert (H2 : 0 <= Qnat (List.length
                            (filter (fun token =>
                                       negb (mem string_dec token stop_words))
                                    (t0 :: tokens))) / Qnat n <= 1)
    by (apply ratio_in_unit; [apply filter_length_le | assumption]).
  lra.
Qed.

(** The penalty formula on a non-negative ratio. *)
Lemma length_penalty_in_unit (ratio : Q) :
  0 <= ratio -> 0 <= 1 - Qabs (1 - ratio) / Qmax 1 ratio <= 1.
Proof.
  intros H0. destruct (Qlt_le_dec 1 ratio) as [Hgt|Hle].
  - rewrite Q.max_r by lra. rewrite Qabs_neg by lra.
    assert (Hq : 0 <= - (1 - ratio) / ratio <= 1).
    { split.
      - apply Qle_shift_div_l; lra.
      - apply Qle_shift_div_r; lra. }
    lra.
  - rewrite Q.max_l by lra. rewrite Qabs_pos by lra.
    assert (Hq : (1 - ratio) / 1 == 1 - ratio) by (field).
    rewrite Hq. lra.
Qed.

Lemma length_ratio_in_unit (candidate reference : string) :
  0 <= _calculate_length_ratio candidate reference <= 1.
Proof.
  unfold _calculate_length_ratio. destruct (is_empty reference); [lra|].
  cbv zeta.
  destruct (List.length (tokens_of reference) =? 0)%nat eqn:Er.
  - destruct (List.length (tokens_of candidate) =? 0)%nat; lra.
  - apply Nat.eqb_neq in Er. apply length_penalty_in_unit.
    apply Qle_shift_div_l; [apply Qnat_pos; lia|].
    pose proof (Qnat_nonneg (List.length (tokens_of candidate))). lra.
Qed.

Lemma jaccard_in_unit (a b : list string) :
  NoDup a -> 0 <= jaccard a b <= 1.
Proof.
  intros Ha. unfold jaccard.
  apply ratio_or_zero_in_unit, intersection_length_le_union, Ha.
Qed.

Lemma word_overlap_in_unit (candidate reference : string) :
  0 <= _calculate_word_overlap candidate reference <= 1.
Proof.
  unfold _calculate_word_overlap.
  pose proof (str_set_NoDup (tokens_of candidate)) as Hc.
  destruct (str_set (tokens_of candidate)) as [|c0 cs];
    destruct (str_set (tokens_of reference)) as [|r0 rs]; try lra.
  now apply jaccard_in_unit.
Qed.

Lemma best_similarity_in_unit (cand_tokens : list string)
      (reference_sentences : list string) :
  NoDup cand_tokens ->
  0 <= best_similarity cand_tokens reference_sentences <= 1.
Proof.
  intros Hc. unfold best_similarity.
  assert (H : forall l best, 0 <= best <= 1 ->
              0 <= fold_left
                     (fun best_sim ref_sent =>
                        let ref_tokens := str_set (tokens_of ref_sent) in
                        match cand_tokens, ref_tokens with
                        | [], _ | _, [] => best_sim
                        | _, _ => Qmax best_sim (jaccard cand_tokens ref_tokens)
                        end) l best <= 1).
  { induction l as [|s l IH]; intros best Hb; simpl; [assumption|].
    apply IH.
    destruct cand_tokens as [|c0 cs]; [assumption|].
    destruct (str_set (tokens_of s)) as [|r0 rs]; [assumption|].
    pose proof (jaccard_in_unit (r0 :: rs) Hc) as Hj.
    split.
    - apply Qle_trans with best; [lra | apply Q.le_max_l].
    - apply Q.max_lub; lra. }
  apply H. lra.
Qed.

Lemma sum_Q_bounds (l : list Q) :
  Forall (fun x => 0 <= x <= 1) l ->
  0 <= sum_Q l <= Qnat (List.length l).
Proof.
  induction 1 as [|x l Hx Hl IH]; simpl.
  - split; [apply Qle_refl | apply Qnat_nonneg].
  - change (Qnat (S (List.length l))) with (Qnat (S (List.length l))).
    rewrite Qnat_succ. lra.
Qed.

Lemma sentence_similarity_in_unit (candidate reference : string) :
  0 <= _calculate_sentence_similarity candidate reference <= 1.
Proof.
  unfold _calculate_sentence_similarity.
  destruct (sentences_of candidate) as [|c0 cs]; [lra|].
  destruct (sentences_of reference) as [|r0 rs]; [lra|].
  cbv zeta.
  set (similarities := map _ (c0 :: cs)).
  assert (Hall : Forall (fun x => 0 <= x <= 1) similarities).
  { unfold similarities. apply Forall_map, Forall_forall. intros s _.
    apply best_similarity_in_unit, str_set_NoDup. }
  pose proof (sum_Q_bounds Hall) as [H0 H1].
  assert (Hpos : 0 < Qnat (List.length similarities)).
  { apply Qnat_pos. unfold similarities. rewrite length_map. simpl. lia. }
  split.
  - apply Qle_shift_div_l; lra.
  - apply Qle_shift_div_r; lra.
Qed.

End ScorerBounds.

(* ------------------------------------------------------------------ *)
(** *** C4: every heuristic scorer returns a score of [[0, 1]] *)

Section ScorerClaim.
Import Num Text BasicEvaluator.
Local Open Scope Q_scope.

(** C4.  For all texts (candidate, reference, question, answer and an
    optional context), each of the eight heuristic scorers, namely the
    approximate alignment score, coherence, relevance, fluency,
    informativeness, length ratio, word overlap and sentence
    similarity, returns a score between 0 and 1, bounds included. *)
Theorem heuristic_scores_in_unit
        (candidate reference question answer : string)
        (context : option string) :
  0 <= _calculate_meteor_approx candidate reference <= 1
  /\ 0 <= _calculate_coherence answer <= 1
  /\ 0 <= _calculate_relevance question answer context <= 1
  /\ 0 <= _calculate_fluency answer <= 1
  /\ 0 <= _calculate_informativeness answer <= 1
  /\ 0 <= _calculate_length_ratio candidate reference <= 1
  /\ 0 <= _calculate_word_overlap candidate reference <= 1
  /\ 0 <= _calculate_sentence_similarity candidate reference <= 1.
Proof.
  repeat split;
    first [ apply meteor_in_unit | apply coherence_in_unit
          | apply relevance_in_unit | apply fluency_in_unit
          | apply informativeness_in_unit | apply length_ratio_in_unit
          | apply word_overlap_in_unit | apply sentence_similarity_in_unit ].
Qed.

End ScorerClaim.

(* ================================================================== *)
(** ** The facade [evaluate]: which metrics are computed *)

Section EvaluateProperties.
Import Num Text BasicEvaluator.
Local Open Scope string_scope.

Lemma keys_set (V : Type) (d : list (string * V)) (k : string) (v : V)
      (m : string) :
  In m (Py.keys (Py.set d k v)) <-> m = k \/ In m (Py.keys d).
Proof.
  unfold Py.keys. induction d as [|[k' v'] d IH]; simpl.
  - intuition.
  - destruct (String.eqb_spec k' k) as [->|Hk]; simpl.
    + intuition.
    + rewrite IH. intuition.
Qed.

Lemma keys_store_if (cond : bool) (k : string) (v : R)
      (d : list (string * R)) (m : string) :
  In m (Py.keys (store_if cond k v d))
  <-> (m = k /\ cond = true) \/ In m (Py.keys d).
Proof.
  unfold store_if. destruct cond.
  - rewrite keys_set. intuition.
  - intuition. discriminate.
Qed.

Lemma mem_true (m : string) (l : list string) :
  mem string_dec m l = true <-> In m l.
Proof.
  unfold mem. destruct (in_dec string_dec m l); intuition. discriminate.
Qed.

(** A selected ROUGE metric makes the test [any(m.startswith("rouge"))]
    succeed. *)
Lemma rouge_selected (m : string) (l : list string) :
  In m ["rouge1"; "rouge2"; "rougeL"] -> In m l ->
  existsb (String.prefix "rouge") l = true.
Proof.
  intros Hm Hl. apply existsb_exists. exists m. split; [assumption|].
  simpl in Hm. destruct Hm as [<-|[<-|[<-|[]]]]; reflexivity.
Qed.

(** The keys of the result, one disjunct per branch of [evaluate]. *)
Lemma evaluate_keys (eval_context : EvalContext)
      (selected_metrics : option (list string)) (m : string) :
  let sel := effective_selection selected_metrics in
  let has_expected := truthy (expected_answer eval_context) in
  In m (Py.keys (evaluate eval_context selected_metrics))
  <-> In m sel
      /\ ((In m reference_metrics /\ has_expected = true)
          \/ In m reference_free_metrics).
Proof.
  intros sel has_expected. unfold evaluate. cbv zeta.
  fold sel. fold has_expected.
  rewrite !keys_store_if.
  assert (Hrouge :
    forall d,
      In m (Py.keys
              (if has_expected && existsb (String.prefix "rouge") sel
               then
                 fold_left
                   (fun results metric =>
                      store_if (mem string_dec metric sel) metric
                               (Q2R (rouge_get
                                       (_calculate_rouge
                                          (answer eval_context)
                                          match expected_answer eval_context with
                                          | Some s => s
                                          | None => ""
                                          end) metric)) results)
                   ["rouge1"; "rouge2"; "rougeL"] d
               else d))
      <-> (In m ["rouge1"; "rouge2"; "rougeL"] /\ In m sel
           /\ has_expected = true) \/ In m (Py.keys d)).
  { intros d. destruct has_expected; simpl andb.
    - destruct (existsb (String.prefix "rouge") sel) eqn:E.
      + cbn [fold_left]. rewrite !keys_store_if, !mem_true. simpl.
        intuition (subst; auto).
      + split; [auto|]. intros [[Hm [Hs _]]|H]; [|assumption].
        rewrite (@rouge_selected m sel Hm Hs) in E. discriminate.
    - intuition. discriminate. }
  rewrite Hrouge. rewrite !andb_true_iff, !mem_true.
  unfold reference_metrics, reference_free_metrics. simpl.
  intuition (subst; auto).
Qed.

End EvaluateProperties.

(* ------------------------------------------------------------------ *)
(** *** C6: the metrics gated on the expected answer *)

Section EvaluateClaim.
Import Num Text BasicEvaluator.
Local Open Scope string_scope.

Lemma reference_metrics_not_free (m : string) :
  In m reference_metrics -> ~ In m reference_free_metrics.
Proof.
  unfold reference_metrics, reference_free_metrics. simpl.
  intros H. repeat (destruct H as [<-|H]; [intuition discriminate|]).
  destruct H.
Qed.

(** C6, as amended.  For every evaluation context and every metric
    selection, [evaluate] gates exactly ROUGE-1/2/L, BLEU, the
    approximate alignment score [meteor_approx], length ratio, word
    overlap and sentence similarity on the presence of a non-empty
    expected answer: such a metric is in the returned mapping exactly
    when it is selected and the expected answer is present.
    Coherence, relevance, fluency and informativeness are in the
    returned mapping exactly when they are selected, whether the
    expected answer is present or not.  The mapping has no other key,
    so a selected name outside the catalog is not computed. *)
Theorem evaluate_gating (eval_context : EvalContext)
        (selected_metrics : option (list string)) (m : string) :
  let result := evaluate eval_context selected_metrics in
  let sel := effective_selection selected_metrics in
  (In m reference_metrics ->
   (In m (Py.keys result)
    <-> In m sel /\ truthy (expected_answer eval_context) = true))
  /\ (In m reference_free_metrics -> (In m (Py.keys result) <-> In m sel))
  /\ (In m (Py.keys result) -> In m sel /\ In m available_metrics).
Proof.
  intros result sel. unfold result.
  pose proof (evaluate_keys eval_context selected_metrics m) as K.
  cbv zeta in K. fold sel in K.
  split; [|split].
  - intros Hm. pose proof (reference_metrics_not_free Hm). tauto.
  - intros Hm. tauto.
  - intros Hk. apply K in Hk as [Hs Hk]. split; [assumption|].
    unfold reference_metrics, reference_free_metrics, available_metrics in *.
    simpl in *. intuition.
Qed.

(** C6, the claim as written fails: [meteor_approx] is outside the
    metrics the claim lists as gated, yet when it is selected and the
    expected answer is absent it is not in the returned mapping. *)
Lemma meteor_approx_needs_reference :
  let eval_context :=
    {| question := "What is a cat?";
       answer := "A cat is a small animal.";
       context := None;
       expected_answer := None;
       category := None |} in
  In "meteor_approx" (effective_selection (Some ["meteor_approx"]))
  /\ ~ In "meteor_approx"
        (Py.keys (evaluate eval_context (Some ["meteor_approx"]))).
Proof.
  cbv zeta. split; [now left|].
  rewrite evaluate_keys. cbv zeta. simpl.
  intuition discriminate.
Qed.

End EvaluateClaim.

(* ================================================================== *)
(** ** BLEU *)

Section BleuProperties.
Import Num Text BasicEvaluator.

Lemma Qltb_spec (x y : Q) : Qltb x y = true <-> (x < y)%Q.
Proof.
  unfold Qltb. rewrite negb_true_iff. split.
  - intros H. apply Qnot_le_lt. intros Hle.
    apply Qle_bool_iff in Hle. congruence.
  - intros H. destruct (Qle_bool y x) eqn:E; [|reflexivity].
    apply Qle_bool_iff in E. exfalso. apply (Qlt_not_le _ _ H E).
Qed.

Lemma all_positive_spec (ps : list Q) :
  forallb (fun p => Qltb 0 p) ps = true <-> Forall (fun p => (0 < p)%Q) ps.
Proof.
  rewrite forallb_forall, Forall_forall.
  split; intros H p Hp; apply Qltb_spec; auto.
Qed.

Lemma zero_not_all_positive (ps : list Q) :
  Exists (fun p => (p == 0)%Q) ps -> forallb (fun p => Qltb 0 p) ps = false.
Proof.
  intros H. destruct (forallb (fun p => Qltb 0 p) ps) eqn:E; [|reflexivity].
  apply all_positive_spec in E. rewrite Forall_forall in E.
  apply Exists_exists in H as [p [Hp Hz]]. specialize (E p Hp).
  rewrite Hz in E. discriminate.
Qed.

Lemma bleu_precision_nonneg (ct rt : list string) (n : nat) :
  (0 <= bleu_precision ct rt n)%Q.
Proof.
  unfold bleu_precision. destruct (_get_ngrams ct n) as [|g gs] eqn:E.
  - apply Qle_refl.
  - apply Qle_shift_div_l.
    + apply Qnat_pos. simpl. lia.
    + rewrite Qmult_0_l. apply Qnat_nonneg.
Qed.

Lemma bleu_unfold (candidate reference : string) :
  tokens_of candidate <> [] -> tokens_of reference <> [] ->
  let ct := tokens_of candidate in
  let rt := tokens_of reference in
  let ps := bleu_precisions ct rt in
  _calculate_bleu candidate reference
  = (brevity_penalty ct rt
     * (if forallb (fun p => Qltb 0 p) ps
        then exp (sum_R (map (fun wp => fst wp * ln (Q2R (snd wp)))
                             (combine bleu_weights ps)))
        else 0))%R.
Proof.
  intros Hc Hr. cbv zeta. unfold _calculate_bleu.
  destruct (tokens_of candidate) as [|c0 ct]; [congruence|].
  destruct (tokens_of reference) as [|r0 rt]; [congruence|].
  reflexivity.
Qed.

(** [exp] of the weighted sum of logarithms is the fourth root of the
    product. *)
Lemma weighted_log_mean (p1 p2 p3 p4 : Q) :
  (0 < p1)%Q -> (0 < p2)%Q -> (0 < p3)%Q -> (0 < p4)%Q ->
  exp (sum_R (map (fun wp => fst wp * ln (Q2R (snd wp)))%R
                  (combine bleu_weights [p1; p2; p3; p4])))
  = geometric_mean [p1; p2; p3; p4].
Proof.
  intros H1 H2 H3 H4.
  apply Qlt_Rlt in H1, H2, H3, H4.
  replace (Q2R 0) with 0%R in * by (unfold Q2R; simpl; lra).
  unfold geometric_mean, Rpower, bleu_weights, sum_R. simpl.
  f_equal.
  rewrite Rmult_1_r.
  assert (H34 : (0 < Q2R p3 * Q2R p4)%R) by (apply Rmult_lt_0_compat; lra).
  assert (H234 : (0 < Q2R p2 * (Q2R p3 * Q2R p4))%R)
    by (apply Rmult_lt_0_compat; lra).
  rewrite (ln_mult (Q2R p1)), (ln_mult (Q2R p2)), (ln_mult (Q2R p3)); try lra.
Qed.

End BleuProperties.

(* ------------------------------------------------------------------ *)
(** *** C8: BLEU without smoothing *)

Section BleuClaim.
Import Num Text BasicEvaluator.

Lemma bleu_precisions_four (ct rt : list string) :
  exists p1 p2 p3 p4, bleu_precisions ct rt = [p1; p2; p3; p4].
Proof. unfold bleu_precisions. simpl. eauto. Qed.

(** BLEU by cases on the list of precisions. *)
Lemma bleu_cases (candidate reference : string) :
  let ct := tokens_of candidate in
  let rt := tokens_of reference in
  let ps := bleu_precisions ct rt in
  (ct = [] \/ rt = [] -> _calculate_bleu candidate reference = 0%R)
  /\ (ct <> [] -> rt <> [] ->
      Exists (fun p => (p == 0)%Q) ps ->
      _calculate_bleu candidate reference = (brevity_penalty ct rt * 0)%R)
  /\ (ct <> [] -> rt <> [] ->
      Forall (fun p => (0 < p)%Q) ps ->
      _calculate_bleu candidate reference
      = (brevity_penalty ct rt * geometric_mean ps)%R)
  /\ (Exists (fun p => (p == 0)%Q) ps ->
      _calculate_bleu candidate reference = 0%R)
  /\ Forall (fun p => (0 <= p)%Q) ps
  /\ _calculate_bleu "a" "a b c d e" = 0%R.
Proof.
  intros ct rt ps.
  assert (Hzero : forall c r,
             Exists (fun p => (p == 0)%Q)
                    (bleu_precisions (tokens_of c) (tokens_of r)) ->
             _calculate_bleu c r = 0%R).
  { intros c r Hex. unfold _calculate_bleu.
    destruct (tokens_of c) as [|c0 ct']; [reflexivity|].
    destruct (tokens_of r) as [|r0 rt']; [reflexivity|].
    cbv zeta. rewrite (zero_not_all_positive Hex). apply Rmult_0_r. }
  split; [|split; [|split; [|split; [|split]]]].
  - unfold _calculate_bleu. fold ct rt. intros [->| ->].
    + reflexivity.
    + destruct ct; reflexivity.
  - intros Hc Hr Hex. rewrite (bleu_unfold _ _ Hc Hr). cbv zeta.
    fold ct rt ps. now rewrite (zero_not_all_positive Hex).
  - intros Hc Hr Hall. rewrite (bleu_unfold _ _ Hc Hr). cbv zeta.
    fold ct rt ps. pose proof Hall as Hb. apply all_positive_spec in Hb.
    rewrite Hb. f_equal.
    destruct (bleu_precisions_four ct rt) as (p1 & p2 & p3 & p4 & E).
    fold ps in E. rewrite E in *.
    inversion Hall as [|? ? H1 Hall1]; subst.
    inversion Hall1 as [|? ? H2 Hall2]; subst.
    inversion Hall2 as [|? ? H3 Hall3]; subst.
    inversion Hall3 as [|? ? H4 _]; subst.
    now apply weighted_log_mean.
  - apply Hzero.
  - unfold ps, bleu_precisions. rewrite Forall_map, Forall_forall.
    intros n _. apply bleu_precision_nonneg.
  - apply Hzero. vm_compute. right. left. reflexivity.
Qed.

(** The n-grams of [_get_ngrams] are the windows, for [n >= 1]. *)
Lemma get_ngrams_windows_eq (n : nat) (tokens : list string) :
  (1 <= n)%nat -> _get_ngrams tokens n = BleuReference.windows n tokens.
Proof.
  intros Hn. induction tokens as [|t rest IH].
  - unfold _get_ngrams. simpl.
    destruct (Nat.ltb_spec 0 n); [reflexivity | lia].
  - cbn [BleuReference.windows]. unfold _get_ngrams in *.
    destruct (Nat.leb_spec n (List.length (t :: rest))) as [Hle|Hgt].
    + destruct (Nat.ltb_spec (List.length (t :: rest)) n) as [H|_]; [lia|].
      cbn [List.length] in *.
      replace (S (List.length rest) - n + 1)%nat
        with (S (List.length rest - n + 1 - (if (List.length rest <? n)%nat
                                              then 1 else 0)))%nat
        by (destruct (Nat.ltb_spec (List.length rest) n); lia).
      cbn [seq map skipn]. f_equal.
      rewrite <- seq_shift, map_map. cbn [skipn].
      rewrite <- IH.
      destruct (Nat.ltb_spec (List.length rest) n) as [Hlt|Hge].
      * replace (List.length rest - n + 1 - 1)%nat with O by lia.
        reflexivity.
      * now rewrite Nat.sub_0_r.
    + destruct (Nat.ltb_spec (List.length (t :: rest)) n); [reflexivity|lia].
Qed.

(** The sum [sum(min(candidate_counts[g], reference_counts[g]) for g in
    dom)] over a duplicate-free [dom]. *)
Let clipped_sum (dom a b : list ngram) : nat :=
  sum_nat (map (fun g => Nat.min (counter a g) (counter b g)) dom).

Lemma counter_remove_first (g h : ngram) (b : list ngram) :
  counter (BleuReference.remove_first g b) h
  = if ngram_dec g h then (counter b h - 1)%nat else counter b h.
Proof.
  unfold counter. induction b as [|x b IH]; cbn [BleuReference.remove_first].
  - destruct (ngram_dec g h); reflexivity.
  - destruct (ngram_dec g x) as [<-|Hgx].
    + destruct (ngram_dec g h) as [<-|Hgh].
      * rewrite count_occ_cons_eq by reflexivity. lia.
      * now rewrite count_occ_cons_neq by assumption.
    + destruct (ngram_dec x h) as [->|Hxh].
      * rewrite !count_occ_cons_eq by reflexivity. rewrite IH.
        destruct (ngram_dec g h); [contradiction | reflexivity].
      * rewrite !count_occ_cons_neq by assumption. exact IH.
Qed.

Lemma clipped_sum_absent (dom a b : list ngram) (g : ngram) :
  ~ In g b -> clipped_sum dom (g :: a) b = clipped_sum dom a b.
Proof.
  intros Hg. unfold clipped_sum. f_equal. apply map_ext. intros h.
  unfold counter. destruct (ngram_dec g h) as [<-|Hgh].
  - rewrite (proj1 (count_occ_not_In ngram_dec b g) Hg). lia.
  - now rewrite count_occ_cons_neq by assumption.
Qed.

Lemma clipped_sum_other (dom a b : list ngram) (g : ngram) :
  ~ In g dom ->
  clipped_sum dom (g :: a) b
  = clipped_sum dom a (BleuReference.remove_first g b).
Proof.
  intros Hg. unfold clipped_sum. f_equal. apply map_ext_in. intros h Hh.
  rewrite counter_remove_first. unfold counter.
  destruct (ngram_dec g h) as [<-|Hgh]; [contradiction|].
  now rewrite count_occ_cons_neq by assumption.
Qed.

Lemma clipped_sum_present (dom a b : list ngram) (g : ngram) :
  NoDup dom -> In g dom -> In g b ->
  clipped_sum dom (g :: a) b
  = S (clipped_sum dom a (BleuReference.remove_first g b)).
Proof.
  intros Hnd Hdom Hb. induction dom as [|h dom IH]; [destruct Hdom|].
  inversion Hnd as [|? ? Hh Hnd']; subst.
  change (clipped_sum (h :: dom) (g :: a) b)
    with (Nat.min (counter (g :: a) h) (counter b h)
          + clipped_sum dom (g :: a) b)%nat.
  change (clipped_sum (h :: dom) a (BleuReference.remove_first g b))
    with (Nat.min (counter a h)
                  (counter (BleuReference.remove_first g b) h)
          + clipped_sum dom a (BleuReference.remove_first g b))%nat.
  rewrite counter_remove_first.
  destruct (ngram_dec g h) as [<-|Hgh].
  - rewrite (@clipped_sum_other dom a b g Hh).
    assert (Hpos : (0 < counter b g)%nat)
      by (apply (count_occ_In ngram_dec); exact Hb).
    unfold counter in *. rewrite count_occ_cons_eq by reflexivity. lia.
  - destruct Hdom as [E|Hdom]; [congruence|].
    rewrite (IH Hnd' Hdom).
    unfold counter. rewrite count_occ_cons_neq by assumption. lia.
Qed.

Lemma clipped_matches_sum (a : list ngram) :
  forall dom b,
    NoDup dom -> incl a dom ->
    BleuReference.clipped_matches a b = clipped_sum dom a b.
Proof.
  induction a as [|g a IH]; intros dom b Hnd Hincl.
  - unfold clipped_sum. cbn [BleuReference.clipped_matches].
    induction dom as [|h dom IHd]; [reflexivity|].
    cbn [map sum_nat fold_right]. inversion Hnd; subst.
    change (fold_right Nat.add O
              (map (fun g => Nat.min (counter [] g) (counter b g)) dom))
      with (sum_nat (map (fun g => Nat.min (counter [] g) (counter b g))
                         dom)).
    rewrite <- IHd; [reflexivity | assumption | intros x []].
  - cbn [BleuReference.clipped_matches].
    assert (Hg : In g dom) by (apply Hincl; now left).
    assert (Ha : incl a dom) by (intros x Hx; apply Hincl; now right).
    destruct (in_dec ngram_dec g b) as [Hb|Hb].
    + rewrite (@clipped_sum_present dom a b g Hnd Hg Hb). f_equal. now apply IH.
    + rewrite (@clipped_sum_absent dom a b g Hb). now apply IH.
Qed.

(** The precision computed in the loop is the clipped precision. *)
Lemma bleu_precision_clipped (ct rt : list string) (n : nat) :
  (1 <= n)%nat ->
  bleu_precision ct rt n = BleuReference.clipped_precision n ct rt.
Proof.
  intros Hn. unfold bleu_precision, BleuReference.clipped_precision.
  rewrite !(get_ngrams_windows_eq _ Hn).
  destruct (BleuReference.windows n ct) as [|g l] eqn:E; [reflexivity|].
  rewrite <- E. f_equal. f_equal. symmetry.
  apply clipped_matches_sum.
  - apply NoDup_nodup.
  - intros x Hx. now apply nodup_In.
Qed.

Lemma clipped_precision_nonneg (n : nat) (ct rt : list string) :
  (0 <= BleuReference.clipped_precision n ct rt)%Q.
Proof.
  unfold BleuReference.clipped_precision.
  destruct (BleuReference.windows n ct) as [|g l]; [apply Qle_refl|].
  apply Qle_shift_div_l.
  - apply Qnat_pos. simpl. lia.
  - rewrite Qmult_0_l. apply Qnat_nonneg.
Qed.

(** C8.  BLEU is 0.0 if either token sequence is empty.  Otherwise,
    with [p n] the clipped n-gram precision (the candidate n-grams that
    find a partner among the reference n-grams, each reference n-gram
    serving once, over the number of candidate n-grams; 0 without
    candidate n-grams): BLEU is 0.0 as soon as one of [p 1 .. p 4] is 0
    (no smoothing), and when all four are positive it is the brevity
    penalty [min(1, exp(1 - |reference| / |candidate|))] times the
    fourth root of their product, their geometric mean with equal
    weights 0.25.  BLEU of candidate "a" against reference
    "a b c d e" is 0.0. *)
Theorem bleu_spec (candidate reference : string) :
  let ct := tokens_of candidate in
  let rt := tokens_of reference in
  let p := fun n => BleuReference.clipped_precision n ct rt in
  (ct = [] \/ rt = [] -> _calculate_bleu candidate reference = 0%R)
  /\ (ct <> [] -> rt <> [] ->
      (p 1%nat == 0 \/ p 2%nat == 0 \/ p 3%nat == 0 \/ p 4%nat == 0)%Q ->
      _calculate_bleu candidate reference = 0%R)
  /\ (ct <> [] -> rt <> [] ->
      (0 < p 1%nat /\ 0 < p 2%nat /\ 0 < p 3%nat /\ 0 < p 4%nat)%Q ->
      _calculate_bleu candidate reference
      = (Rmin 1 (exp (1 - INR (List.length rt) / INR (List.length ct)))
         * Rpower (Q2R (p 1%nat) * Q2R (p 2%nat)
                   * Q2R (p 3%nat) * Q2R (p 4%nat)) (/ 4))%R)
  /\ (forall n, (0 <= p n)%Q)
  /\ _calculate_bleu "a" "a b c d e" = 0%R.
Proof.
  intros ct rt p.
  destruct (bleu_cases candidate reference)
    as (Hempty & _ & Hpos & Hzero & _ & Hexample).
  fold ct rt in Hpos, Hzero.
  assert (Hps : bleu_precisions ct rt
                = [p 1%nat; p 2%nat; p 3%nat; p 4%nat]).
  { unfold bleu_precisions, p. cbn [map].
    now rewrite !bleu_precision_clipped by lia. }
  rewrite Hps in Hpos, Hzero.
  split; [exact Hempty|]. split; [|split; [|split; [|exact Hexample]]].
  - intros _ _ H. apply Hzero.
    destruct H as [H|[H|[H|H]]].
    + now left.
    + right. now left.
    + right. right. now left.
    + right. right. right. now left.
  - intros Hc Hr (H1 & H2 & H3 & H4).
    rewrite (Hpos Hc Hr) by (repeat constructor; assumption).
    unfold brevity_penalty, geometric_mean. f_equal.
    cbn [map fold_right List.length]. f_equal; [ring | simpl; f_equal; lra].
  - intros n. apply clipped_precision_nonneg.
Qed.

End BleuClaim.

(* ================================================================== *)
(** ** The fan-out over the registry *)

Section FanOutProperties.
Import Py EvaluationService.

Lemma set_fresh (V : Type) (d : list (string * V)) (k : string) (v : V) :
  ~ In k (keys d) -> set d k v = d ++ [(k, v)].
Proof.
  unfold keys. induction d as [|[k' v'] d IH]; simpl; intros Hk.
  - reflexivity.
  - destruct (String.eqb_spec k' k) as [->|Hne]; [tauto|].
    rewrite IH; [reflexivity | tauto].
Qed.

Lemma get_In (V : Type) (d : list (string * V)) (k : string) (v : V) :
  NoDup (keys d) -> In (k, v) d -> get d k = Some v.
Proof.
  unfold keys. induction d as [|[k' v'] d IH]; simpl; intros Hnd Hin.
  - destruct Hin.
  - inversion Hnd as [|? ? Hk' Hnd']; subst.
    destruct Hin as [E|Hin].
    + injection E as -> ->. now rewrite String.eqb_refl.
    + destruct (String.eqb_spec k' k) as [->|Hne].
      * exfalso. apply Hk'. apply (in_map fst) in Hin. exact Hin.
      * now apply IH.
Qed.

Lemma process_result_scores (acc : RunResult)
      (item : string * Evaluator) (outcome : exc dict) :
  framework_scores (process_result acc (item, outcome))
  = set (framework_scores acc) (fst item) (framework_entry outcome).
Proof. unfold process_result. destruct outcome; reflexivity. Qed.

Section Run.
Variable eval_context : EvalContext.
Variable selected_metrics : Selection.

Let run := framework_task eval_context selected_metrics.

Lemma fold_process_scores (evaluators : list (string * Evaluator)) :
  forall acc,
    NoDup (keys (framework_scores acc) ++ map fst evaluators) ->
    framework_scores
      (fold_left process_result
                 (combine evaluators (map run evaluators)) acc)
    = framework_scores acc
      ++ map (fun item => (fst item, framework_entry (run item))) evaluators.
Proof.
  induction evaluators as [|item evaluators IH]; intros acc Hnd; simpl.
  - now rewrite app_nil_r.
  - assert (Hfresh : ~ In (fst item) (keys (framework_scores acc))).
    { intros Hin. apply NoDup_remove_2 in Hnd. apply Hnd.
      apply in_or_app. now left. }
    rewrite IH; rewrite process_result_scores, set_fresh by exact Hfresh.
    + now rewrite <- app_assoc.
    + unfold keys in *. rewrite map_app. simpl. now rewrite <- app_assoc.
Qed.

(** Only a failing-free ["basic"] framework feeds [automatic_metrics]. *)
Lemma fold_process_all_raised (evaluators : list (string * Evaluator)) :
  forall acc,
    Forall (fun item => raised (run item) = true) evaluators ->
    automatic_metrics
      (fold_left process_result
                 (combine evaluators (map run evaluators)) acc)
    = automatic_metrics acc.
Proof.
  induction evaluators as [|item evaluators IH]; intros acc Hall; simpl.
  - reflexivity.
  - inversion Hall as [|? ? Hitem Hrest]; subst.
    rewrite IH by assumption. unfold process_result. simpl.
    destruct (run item); [discriminate | reflexivity].
Qed.

End Run.
End FanOutProperties.

(* ------------------------------------------------------------------ *)
(** *** C1: a failing framework is isolated *)

Section FanOutClaim.
Import Py EvaluationService.
Local Open Scope string_scope.

(** The outcome of the fan-out, entry by entry, through
    [framework_entry]. *)
Lemma run_evaluations_entries
        (evaluators : list (string * Evaluator))
        (eval_context : EvalContext) (selected_metrics : Selection) :
  NoDup (map fst evaluators) ->
  let task := framework_task eval_context selected_metrics in
  exists result,
    _run_evaluations evaluators eval_context selected_metrics = Ok result
    /\ framework_scores result
       = map (fun item => (fst item, framework_entry (task item))) evaluators
    /\ (forall name evaluator,
           In (name, evaluator) evaluators ->
           get (framework_scores result) name
           = Some (framework_entry (task (name, evaluator))))
    /\ (forall failing,
           filter (fun item => raised (task item)) evaluators = [failing] ->
           List.length (filter (fun item => negb (raised (task item)))
                               evaluators)
           = (List.length evaluators - 1)%nat
           /\ (exists msg,
                  task failing = Raise msg
                  /\ get (framework_scores result) (fst failing)
                     = Some (error_entry msg))
           /\ forall name evaluator,
               In (name, evaluator) evaluators ->
               (name, evaluator) <> failing ->
               exists scores,
                 task (name, evaluator) = Ok scores
                 /\ get (framework_scores result) name
                    = Some (PyDict scores))
    /\ (Forall (fun item => raised (task item) = true) evaluators ->
        Forall (fun entry => exists msg, snd entry = error_entry msg)
               (framework_scores result)
        /\ automatic_metrics result = []).
Proof.
  intros Hnd task.
  unfold _run_evaluations, gather_return_exceptions, bind. cbv zeta.
  fold task. eexists. split; [reflexivity|].
  set (result := fold_left process_result _ _).
  assert (Hscores : framework_scores result
                    = map (fun item => (fst item, framework_entry (task item)))
                          evaluators).
  { unfold result, task. rewrite fold_process_scores; [reflexivity|].
    exact Hnd. }
  assert (Hget : forall name evaluator,
             In (name, evaluator) evaluators ->
             get (framework_scores result) name
             = Some (framework_entry (task (name, evaluator)))).
  { intros name evaluator Hin. apply get_In.
    - unfold keys. rewrite Hscores, map_map. exact Hnd.
    - rewrite Hscores.
      apply (in_map (fun item => (fst item, framework_entry (task item))))
        in Hin. exact Hin. }
  split; [exact Hscores|]. split; [exact Hget|]. split.
  - intros failing Hfail.
    assert (Hin : In failing evaluators /\ raised (task failing) = true).
    { apply (filter_In (fun item => raised (task item))).
      rewrite Hfail. now left. }
    destruct Hin as [Hin Hraised]. split; [|split].
    + pose proof (filter_length (fun item => raised (task item)) evaluators)
        as Hlen.
      rewrite Hfail in Hlen. simpl in Hlen. lia.
    + destruct failing as [name evaluator].
      destruct (task (name, evaluator)) as [scores|msg] eqn:E;
        [discriminate|].
      exists msg. split; [reflexivity|]. cbn [fst].
      rewrite (Hget name evaluator Hin), E. reflexivity.
    + intros name evaluator Hitem Hne.
      destruct (task (name, evaluator)) as [scores|msg] eqn:E.
      * exists scores. split; [reflexivity|].
        rewrite (Hget name evaluator Hitem), E. reflexivity.
      * exfalso. apply Hne.
        assert (H : In (name, evaluator)
                       (filter (fun item => raised (task item)) evaluators)).
        { apply filter_In. split; [assumption|]. now rewrite E. }
        rewrite Hfail in H. destruct H as [H|[]]. now symmetry.
  - intros Hall. split.
    + rewrite Hscores. apply Forall_map. apply Forall_impl with (2 := Hall).
      intros item Hitem. simpl.
      destruct (task item) as [scores|msg]; [discriminate|].
      now exists msg.
    + unfold result, task. now rewrite fold_process_all_raised.
Qed.

(** C1.  For every evaluation context, selection and registry (a
    dictionary, so its names are distinct), the fan-out returns
    normally.  Its [framework_scores] has one entry per framework, in
    registry order: the dictionary the framework returned, or the
    dictionary [{"error": message}] holding the message of the
    exception when its run raised.  When exactly one framework raises,
    the other N-1 entries are the results of the other frameworks,
    unchanged, and the entry of the failing one is
    [{"error": message}]; when every framework raises the call still
    returns, every entry is such an error dictionary and
    [automatic_metrics] is empty. *)
Theorem run_evaluations_isolates
        (evaluators : list (string * Evaluator))
        (eval_context : EvalContext) (selected_metrics : Selection) :
  NoDup (map fst evaluators) ->
  let task := framework_task eval_context selected_metrics in
  exists result,
    _run_evaluations evaluators eval_context selected_metrics = Ok result
    /\ framework_scores result
       = map (fun item =>
                (fst item,
                 match task item with
                 | Ok scores => PyDict scores
                 | Raise msg => PyDict [("error", PyStr msg)]
                 end)) evaluators
    /\ (forall name evaluator,
           In (name, evaluator) evaluators ->
           get (framework_scores result) name
           = Some match task (name, evaluator) with
                  | Ok scores => PyDict scores
                  | Raise msg => PyDict [("error", PyStr msg)]
                  end)
    /\ (forall failing,
           filter (fun item => raised (task item)) evaluators = [failing] ->
           List.length (filter (fun item => negb (raised (task item)))
                               evaluators)
           = (List.length evaluators - 1)%nat
           /\ (exists msg,
                  task failing = Raise msg
                  /\ get (framework_scores result) (fst failing)
                     = Some (PyDict [("error", PyStr msg)]))
           /\ forall name evaluator,
               In (name, evaluator) evaluators ->
               (name, evaluator) <> failing ->
               exists scores,
                 task (name, evaluator) = Ok scores
                 /\ get (framework_scores result) name
                    = Some (PyDict scores))
    /\ (Forall (fun item => raised (task item) = true) evaluators ->
        Forall (fun entry =>
                  exists msg, snd entry = PyDict [("error", PyStr msg)])
               (framework_scores result)
        /\ automatic_metrics result = []).
Proof.
  intros Hnd.
  exact (@run_evaluations_entries evaluators eval_context selected_metrics Hnd).
Qed.

(** A registry of three frameworks, the first of which raises. *)
Lemma run_evaluations_isolates_witness :
  let eval_context :=
    {| BasicEvaluator.question := "What is a cat?";
       BasicEvaluator.answer := "A cat is a small animal.";
       BasicEvaluator.context := None;
       BasicEvaluator.expected_answer := Some "A cat is an animal.";
       BasicEvaluator.category := None |} in
  let registry :=
    [("ragas",
      {| class_name := "RAGASEvaluator";
         evaluate_async := Some (fun _ _ => Raise "connection refused");
         evaluate := None |});
     ("deepeval",
      {| class_name := "DeepEvalEvaluator";
         evaluate_async := None;
         evaluate := Some (fun _ _ => Ok [("g_eval", PyFloat (3 # 4))]) |});
     ("basic",
      {| class_name := "BasicEvaluator";
         evaluate_async := Some (fun _ _ => Ok [("coherence", PyFloat (4 # 5))]);
         evaluate := None |})] in
  NoDup (map fst registry)
  /\ exists result,
      _run_evaluations registry eval_context None = Ok result
      /\ framework_scores result
         = [("ragas", PyDict [("error", PyStr "connection refused")]);
            ("deepeval", PyDict [("g_eval", PyFloat (3 # 4))]);
            ("basic", PyDict [("coherence", PyFloat (4 # 5))])].
Proof.
  cbv zeta.
  match goal with
  | |- NoDup (map fst ?registry) /\ _ =>
      assert (Hnd : NoDup (map fst registry))
        by (simpl; repeat constructor; simpl; intuition discriminate)
  end.
  split; [exact Hnd|].
  match goal with
  | |- exists result, _run_evaluations ?registry ?ctx ?sel = _ /\ _ =>
      destruct (@run_evaluations_isolates registry ctx sel Hnd)
        as (result & Hrun & Hscores & _)
  end.
  exists result. split; [exact Hrun | exact Hscores].
Defined.

End FanOutClaim.

(* ================================================================== *)
(** ** Bulk evaluation in batches *)

Section BulkProperties.
Import Py EvaluationService.

Variable EvaluationCreate : Type.
Variable EvalResult : Type.
Variable evaluate_single : EvaluationCreate -> Selection -> exc EvalResult.
Variable selected_metrics : Selection.

Let eval (eval_data : EvaluationCreate) : exc EvalResult :=
  evaluate_single eval_data selected_metrics.

Lemma process_batch_results_items (i : Z) (batch : list EvaluationCreate) :
  process_batch_results i batch (map eval batch)
  = items_from evaluate_single selected_metrics i batch.
Proof.
  unfold process_batch_results, enumerate.
  rewrite length_combine, length_map, Nat.min_id.
  enough (H : forall k,
             map (fun jr : Z * (EvaluationCreate * exc EvalResult) =>
                    match snd (snd jr) with
                    | Raise msg =>
                        Failed EvalResult
                               {| id_prefix := "error";
                                  id_index := (i + fst jr)%Z;
                                  status := "failed";
                                  error := msg;
                                  evaluation_data := fst (snd jr) |}
                    | Ok result => Evaluated EvaluationCreate result
                    end)
                 (combine (map Z.of_nat (seq k (List.length batch)))
                          (combine batch (map eval batch)))
             = items_from evaluate_single selected_metrics
                          (i + Z.of_nat k) batch).
  { rewrite (H O). f_equal. lia. }
  induction batch as [|d batch IH]; intros k; simpl.
  - reflexivity.
  - rewrite IH. unfold item_in_isolation, eval.
    replace (i + Z.of_nat (S k))%Z with (i + Z.of_nat k + 1)%Z by lia.
    reflexivity.
Qed.

Lemma items_from_app (i : Z) (l1 l2 : list EvaluationCreate) :
  items_from evaluate_single selected_metrics i (l1 ++ l2)
  = items_from evaluate_single selected_metrics i l1
    ++ items_from evaluate_single selected_metrics
                  (i + Z.of_nat (List.length l1)) l2.
Proof.
  revert i. induction l1 as [|d l1 IH]; intros i; simpl.
  - f_equal. lia.
  - f_equal. rewrite IH. do 2 f_equal. lia.
Qed.

Lemma items_from_length (i : Z) (l : list EvaluationCreate) :
  List.length (items_from evaluate_single selected_metrics i l)
  = List.length l.
Proof. revert i. induction l; intros i; simpl; auto. Qed.

Lemma items_from_nth (l : list EvaluationCreate) :
  forall i j d,
    nth_error l j = Some d ->
    nth_error (items_from evaluate_single selected_metrics i l) j
    = Some (item_in_isolation evaluate_single selected_metrics
                              (i + Z.of_nat j) d).
Proof.
  induction l as [|a l IH]; intros i j d H.
  - destruct j; discriminate.
  - destruct j as [|j]; simpl in *.
    + injection H as ->. do 2 f_equal. lia.
    + rewrite (IH (i + 1)%Z j d H). do 2 f_equal. lia.
Qed.

Lemma firstn_add (A : Type) (n m : nat) (l : list A) :
  firstn (n + m) l = firstn n l ++ firstn m (skipn n l).
Proof.
  revert l. induction n as [|n IH]; intros l; simpl; [reflexivity|].
  destruct l as [|a l]; simpl.
  - now rewrite firstn_nil.
  - now rewrite IH.
Qed.

(** A batch and what follows it, item by item. *)
Lemma items_from_batches (b c : nat) (i : Z) (l : list EvaluationCreate) :
  items_from evaluate_single selected_metrics i (firstn (b + c) l)
  = items_from evaluate_single selected_metrics i (firstn b l)
    ++ items_from evaluate_single selected_metrics (i + Z.of_nat b)
                  (firstn c (skipn b l)).
Proof.
  rewrite firstn_add, items_from_app.
  destruct (Nat.le_gt_cases b (List.length l)) as [Hle|Hgt].
  - now rewrite length_firstn, Nat.min_l by assumption.
  - rewrite (skipn_all2 l) by lia. now rewrite firstn_nil.
Qed.

Section Batches.
Variable evaluations : list EvaluationCreate.
Variable batch_size : Z.
Variable progress_callback : option ProgressCallback.
Hypothesis batch_size_positive : (0 < batch_size)%Z.
Hypothesis callback_returns : never_raises progress_callback.

Let b := Z.to_nat batch_size.

Lemma run_batch_quiet (results : list (BulkItem EvaluationCreate EvalResult))
      (k : nat) :
  run_batch evaluate_single evaluations selected_metrics batch_size
            progress_callback results (Z.of_nat k * batch_size)
  = results
    ++ items_from evaluate_single selected_metrics (Z.of_nat (k * b))
                  (firstn b (skipn (k * b) evaluations)).
Proof.
  unfold run_batch, gather_return_exceptions, py_slice.
  replace (Z.to_nat (Z.of_nat k * batch_size + batch_size
                     - Z.of_nat k * batch_size)) with b by (unfold b; lia).
  replace (Z.to_nat (Z.of_nat k * batch_size)) with (k * b)%nat
    by (unfold b; rewrite Z2Nat.inj_mul, Nat2Z.id; lia).
  replace (Z.of_nat k * batch_size)%Z with (Z.of_nat (k * b))
    by (unfold b; rewrite Nat2Z.inj_mul, Z2Nat.id; lia).
  fold eval. rewrite process_batch_results_items.
  destruct progress_callback as [callback|]; [|reflexivity].
  simpl in callback_returns.
  match goal with
  | |- match ?call with _ => _ end = _ =>
      pose proof (callback_returns
                    (Z.min (Z.of_nat (k * b) + batch_size)
                           (Z.of_nat (List.length evaluations)))
                    (Z.of_nat (List.length evaluations))
                    (inject_Z (Z.min (Z.of_nat (k * b) + batch_size)
                                     (Z.of_nat (List.length evaluations)))
                     / inject_Z (Z.of_nat (List.length evaluations)) * 100)%Q)
        as Hcall;
      destruct call; [reflexivity | discriminate]
  end.
Qed.

Lemma fold_batches (count : nat) :
  forall k results,
    fold_left (run_batch evaluate_single evaluations selected_metrics
                         batch_size progress_callback)
              (map (fun j => (0 + Z.of_nat j * batch_size)%Z) (seq k count))
              results
    = results
      ++ items_from evaluate_single selected_metrics (Z.of_nat (k * b))
                    (firstn (count * b) (skipn (k * b) evaluations)).
Proof.
  induction count as [|count IH]; intros k results;
    cbn [seq map fold_left].
  - simpl. now rewrite app_nil_r.
  - rewrite Z.add_0_l, run_batch_quiet, IH, <- app_assoc. f_equal.
    change (S count * b)%nat with (b + count * b)%nat.
    rewrite items_from_batches. f_equal.
    rewrite skipn_skipn.
    replace (S k * b)%nat with (b + k * b)%nat by reflexivity.
    do 2 f_equal. lia.
Qed.

End Batches.
End BulkProperties.

(* ------------------------------------------------------------------ *)
(** *** C3: bulk evaluation keeps positions *)

Section BulkClaim.
Import Py EvaluationService.
Local Open Scope string_scope.

Lemma batches_cover (n : nat) (batch_size : Z) :
  (0 < batch_size)%Z ->
  (n <= Z.to_nat ((Z.of_nat n - 0 + batch_size - 1) / batch_size)
        * Z.to_nat batch_size)%nat.
Proof.
  intros Hb.
  set (q := ((Z.of_nat n - 0 + batch_size - 1) / batch_size)%Z).
  assert (Hq : (0 <= q)%Z) by (apply Z.div_pos; lia).
  pose proof (Z.mul_succ_div_gt (Z.of_nat n - 0 + batch_size - 1)
                                batch_size Hb) as Hgt.
  fold q in Hgt.
  apply Nat2Z.inj_le.
  rewrite Nat2Z.inj_mul, !Z2Nat.id by lia. nia.
Qed.



(** A batch size that is not positive, which the request schema
    excludes: with a negative step the range of batch starts is empty
    and one request yields no output at all, and with step 0 [range]
    raises. *)
Lemma evaluate_bulk_nonpositive_batch_size :
  let evaluate_single (eval_data : nat) (_ : Selection) : exc nat :=
    Ok eval_data in
  evaluate_bulk evaluate_single [7%nat] None (-1) None = Ok []
  /\ evaluate_bulk evaluate_single [7%nat] None 0 None
     = Raise "range() arg 3 must not be zero".
Proof. cbv zeta. split; reflexivity. Qed.


End BulkClaim.

(* ================================================================== *)
(** ** The comparator *)

Section ComparatorProperties.
Import Num Py EvaluationService.
Local Open Scope Q_scope.

Lemma lex_le_refl (a : Q * Q * Q) : lex_le a a.
Proof.
  destruct a as [[a1 a2] a3]. simpl. right. split; [reflexivity|].
  right. split; [reflexivity | apply Qle_refl].
Qed.

Lemma lex_le_trans (a b c : Q * Q * Q) :
  lex_le a b -> lex_le b c -> lex_le a c.
Proof.
  destruct a as [[a1 a2] a3], b as [[b1 b2] b3], c as [[c1 c2] c3]. simpl.
  intros [H1|[E1 [H1|[F1 H1]]]] [H2|[E2 [H2|[F2 H2]]]];
    first [ left; lra
          | right; split; [lra|]; left; lra
          | right; split; [lra|]; right; split; lra ].
Qed.

Lemma Qltb_false (x y : Q) : Qltb x y = false <-> y <= x.
Proof.
  unfold Qltb. rewrite negb_false_iff. apply Qle_bool_iff.
Qed.

Lemma Qeq_bool_false (x y : Q) : Qeq_bool x y = false <-> ~ x == y.
Proof.
  split.
  - intros H E. apply Qeq_bool_iff in E. congruence.
  - intros H. destruct (Qeq_bool x y) eqn:E; [|reflexivity].
    apply Qeq_bool_iff in E. contradiction.
Qed.

(** The tuple comparison [a < b] is the strict part of [lex_le]. *)
Lemma key_ltb_false (a b : Q * Q * Q) : key_ltb a b = false -> lex_le b a.
Proof.
  destruct a as [[a1 a2] a3], b as [[b1 b2] b3]. simpl.
  rewrite !orb_false_iff, !andb_false_iff, !orb_false_iff, !andb_false_iff.
  rewrite !Qltb_false, !Qeq_bool_false.
  intros [H1 H].
  destruct (Qlt_le_dec b1 a1) as [L1|L1]; [now left|].
  right. split; [lra|].
  destruct H as [H|[H2 H]]; [exfalso; apply H; lra|].
  destruct (Qlt_le_dec b2 a2) as [L2|L2]; [now left|].
  right. split; [lra|].
  destruct H as [H|H]; [exfalso; apply H; lra | assumption].
Qed.

Lemma key_ltb_true (a b : Q * Q * Q) : key_ltb a b = true -> lex_le a b.
Proof.
  destruct a as [[a1 a2] a3], b as [[b1 b2] b3]. simpl.
  rewrite !orb_true_iff, !andb_true_iff, !orb_true_iff, !andb_true_iff.
  rewrite !Qltb_spec, !Qeq_bool_iff.
  intros [H|[E [H|[E2 H]]]].
  - now left.
  - right. split; [assumption|]. now left.
  - right. split; [assumption|]. right. split; [assumption | lra].
Qed.

Lemma ranks_before_refl (x : ModelScore) : ranks_before x x.
Proof. apply lex_le_refl. Qed.

Lemma ranks_before_trans (x y z : ModelScore) :
  ranks_before x y -> ranks_before y z -> ranks_before x z.
Proof. apply lex_le_trans. Qed.

Lemma insert_by_key_perm (x : ModelScore) (l : list ModelScore) :
  Permutation (insert_by_key x l) (x :: l).
Proof.
  induction l as [|y l IH]; cbn [insert_by_key]; [reflexivity|].
  destruct (key_ltb (sort_key y) (sort_key x)); [|reflexivity].
  rewrite IH. apply perm_swap.
Qed.

Lemma sort_by_key_perm (l : list ModelScore) :
  Permutation (sort_by_key l) l.
Proof.
  induction l as [|x l IH]; simpl; [reflexivity|].
  rewrite insert_by_key_perm. now constructor.
Qed.

Lemma insert_by_key_sorted (x : ModelScore) (l : list ModelScore) :
  StronglySorted ranks_before l ->
  StronglySorted ranks_before (insert_by_key x l).
Proof.
  induction 1 as [|y l Hl IH Hy]; cbn [insert_by_key].
  - repeat constructor.
  - destruct (key_ltb (sort_key y) (sort_key x)) eqn:E.
    + constructor; [assumption|].
      apply Forall_forall. intros z Hz.
      apply (Permutation_in _ (insert_by_key_perm x l)) in Hz.
      destruct Hz as [<-|Hz].
      * now apply key_ltb_true.
      * rewrite Forall_forall in Hy. now apply Hy.
    + apply key_ltb_false in E.
      constructor; [now constructor|].
      constructor; [exact E|].
      apply Forall_impl with (2 := Hy). intros z Hz.
      now apply ranks_before_trans with y.
Qed.

Lemma sort_by_key_sorted (l : list ModelScore) :
  StronglySorted ranks_before (sort_by_key l).
Proof.
  induction l as [|x l IH]; simpl; [constructor|].
  now apply insert_by_key_sorted.
Qed.

Section Ranking.
Variable arithmetic : Arithmetic.

Lemma ranking_empty (comparisons : list ComparisonEntry) :
  ranking arithmetic comparisons = []
  <-> filter is_completed comparisons = [].
Proof.
  unfold ranking. split; intros H.
  - pose proof (sort_by_key_perm
                  (map (model_score arithmetic)
                       (filter is_completed comparisons))) as P.
    rewrite H in P. apply Permutation_nil in P.
    now apply map_eq_nil in P.
  - now rewrite H.
Qed.

Lemma ranking_members (comparisons : list ComparisonEntry) (x : ModelScore) :
  In x (ranking arithmetic comparisons)
  <-> exists c, In c comparisons /\ is_completed c = true
                /\ x = model_score arithmetic c.
Proof.
  unfold ranking. split.
  - intros H. apply (Permutation_in _ (sort_by_key_perm _)) in H.
    apply in_map_iff in H as [c [<- Hc]].
    apply filter_In in Hc as [Hin Hcomp]. eauto.
  - intros [c [Hin [Hcomp ->]]].
    apply (Permutation_in _ (Permutation_sym (sort_by_key_perm _))).
    apply in_map. apply filter_In. auto.
Qed.

End Ranking.

(** The sort key orders as the specification says. *)
Lemma ranks_before_outranks (x y : ModelScore) :
  ranks_before x y <-> ComparatorReference.outranks x y.
Proof.
  unfold ranks_before, ComparatorReference.outranks, sort_key, lex_le.
  split; intros [H|[E H]]; [left; lra | right; split; [lra | exact H]
                            | left; lra | right; split; [lra | exact H]].
Qed.

Lemma key_ltb_strict (a b : Q * Q * Q) :
  key_ltb a b = true -> ~ lex_le b a.
Proof.
  destruct a as [[a1 a2] a3], b as [[b1 b2] b3]. simpl.
  rewrite !orb_true_iff, !andb_true_iff, !orb_true_iff, !andb_true_iff.
  rewrite !Qltb_spec, !Qeq_bool_iff.
  intros [H|[E [H|[E2 H]]]] [L|[F [L|[F2 L]]]]; lra.
Qed.

(** Equal first components: the second one decides. *)
Lemma key_ltb_second (a1 b1 a2 b2 a3 b3 : Q) :
  a1 == b1 -> a2 < b2 -> key_ltb (a1, a2, a3) (b1, b2, b3) = true.
Proof.
  intros E H. cbn [key_ltb].
  apply Qeq_bool_iff in E. apply Qltb_spec in H. rewrite E, H.
  cbn. apply orb_true_r.
Qed.

(** The head of the sorted list is the first element of the input that
    no element ranks strictly before, and the tail is the sorted list
    of the other elements. *)
Lemma sort_by_key_head (l : list ModelScore) :
  forall first rest,
    sort_by_key l = first :: rest ->
    exists pre post,
      l = pre ++ first :: post
      /\ (forall x, In x pre -> ~ ranks_before x first)
      /\ (forall x, In x post -> ranks_before first x)
      /\ rest = sort_by_key (pre ++ post).
Proof.
  induction l as [|a l IH]; intros first rest Hsort; [discriminate|].
  cbn [sort_by_key fold_right] in Hsort.
  change (fold_right insert_by_key [] l) with (sort_by_key l) in Hsort.
  destruct (sort_by_key l) as [|w r] eqn:El.
  - pose proof (sort_by_key_perm l) as P. rewrite El in P.
    apply Permutation_nil in P. subst l.
    cbn [insert_by_key] in Hsort. injection Hsort as <- <-.
    exists [], []. repeat split; intros x [].
  - destruct (IH w r eq_refl) as (pre & post & -> & Hpre & Hpost & Hrest).
    cbn [insert_by_key] in Hsort.
    destruct (key_ltb (sort_key w) (sort_key a)) eqn:E.
    + injection Hsort as <- <-.
      exists (a :: pre), post. split; [reflexivity|].
      split; [|split; [assumption|]].
      * intros x [<-|Hx]; [|now apply Hpre].
        now apply key_ltb_strict.
      * cbn [app sort_by_key fold_right].
        change (fold_right insert_by_key [] (pre ++ post))
          with (sort_by_key (pre ++ post)).
        now rewrite <- Hrest.
    + injection Hsort as <- <-.
      exists [], (pre ++ w :: post). split; [reflexivity|].
      split; [intros x []|]. split; [|cbn [app]; now rewrite El].
      apply key_ltb_false in E. fold (ranks_before a w) in E.
      intros x Hx. apply in_app_or in Hx as [Hx|[<-|Hx]].
      * apply ranks_before_trans with w; [assumption|].
        destruct (key_ltb (sort_key w) (sort_key x)) eqn:Ex.
        -- now apply key_ltb_true.
        -- apply key_ltb_false in Ex. exfalso. now apply (Hpre x).
      * assumption.
      * apply ranks_before_trans with w; [assumption | now apply Hpost].
Qed.

End ComparatorProperties.

(* ------------------------------------------------------------------ *)
(** *** C2: the composite score, the ranking and the winner *)

Section ComparatorClaim.
Import Num Py EvaluationService Arithmetics ComparatorReference.
Local Open Scope Q_scope.

Lemma is_number_numeric (v : value) : is_number v = true <-> numeric v.
Proof.
  split.
  - destruct v; intros H; try discriminate H; constructor.
  - intros []; reflexivity.
Qed.

Lemma numeric_values_spec (d : dict) : numeric_of d (numeric_values d).
Proof.
  unfold numeric_values. induction d as [|[k v] d IH]; [constructor|].
  cbn [map filter snd]. destruct (is_number v) eqn:E.
  - constructor; [now apply is_number_numeric | exact IH].
  - constructor; [|exact IH].
    intros H. apply is_number_numeric in H. congruence.
Qed.

Lemma framework_values_spec (d : dict) :
  framework_numeric_of
    d (flat_map (fun kv => match snd kv with
                           | PyDict scores => numeric_values scores
                           | _ => []
                           end) d).
Proof.
  induction d as [|[k v] d IH]; [constructor|].
  cbn [flat_map snd].
  destruct v as [| | | | |scores];
    try (cbn [app]; constructor; [discriminate | exact IH]).
  constructor; [apply numeric_values_spec | exact IH].
Qed.

Lemma numeric_of_functional (d : dict) :
  forall l1 l2, numeric_of d l1 -> numeric_of d l2 -> l1 = l2.
Proof.
  induction d as [|[k v] d IH]; intros l1 l2 H1 H2;
    inversion H1; subst; inversion H2; subst;
    try reflexivity; try contradiction.
  - f_equal. now apply IH.
  - now apply IH.
Qed.

Lemma framework_numeric_of_functional (d : dict) :
  forall l1 l2,
    framework_numeric_of d l1 -> framework_numeric_of d l2 -> l1 = l2.
Proof.
  induction d as [|[k v] d IH]; intros l1 l2 H1 H2;
    inversion H1; subst; inversion H2; subst; try reflexivity;
    try match goal with
        | H : forall scores, PyDict ?s <> PyDict scores |- _ =>
            exfalso; exact (H s eq_refl)
        end.
  - f_equal; [eapply numeric_of_functional; eassumption | now apply IH].
  - now apply IH.
Qed.

(** The numbers that enter the composite score are those the
    specification names. *)
Lemma all_scores_spec (c : ComparisonEntry) (metric_numbers
                                              framework_numbers : list value) :
  numeric_of (metrics c) metric_numbers ->
  framework_numeric_of (entry_framework_scores c) framework_numbers ->
  all_scores c = metric_numbers ++ framework_numbers.
Proof.
  intros H1 H2. unfold all_scores. f_equal.
  - exact (numeric_of_functional (numeric_values_spec _) H1).
  - exact (framework_numeric_of_functional (framework_values_spec _) H2).
Qed.

Lemma is_completed_spec (c : ComparisonEntry) :
  is_completed c = true <-> entry_status c = "completed"%string.
Proof. unfold is_completed. apply String.eqb_eq. Qed.

Lemma none_completed (comparisons : list ComparisonEntry) :
  filter is_completed comparisons = []
  <-> forall c, In c comparisons -> is_completed c = false.
Proof.
  induction comparisons as [|c l IH]; simpl.
  - intuition.
  - destruct (is_completed c) eqn:E.
    + split; [discriminate|]. intros H.
      specialize (H c (or_introl eq_refl)). congruence.
    + rewrite IH. split.
      * intros H c' [<-|Hc']; auto.
      * intros H c' Hc'. apply H. now right.
Qed.

Lemma scenario_ranking (arithmetic : Arithmetic) (a b : ComparisonEntry) :
  is_completed a = true -> is_completed b = true ->
  score (model_score arithmetic a) == score (model_score arithmetic b) ->
  response_time b < response_time a ->
  ranking arithmetic [a; b]
  = [model_score arithmetic b; model_score arithmetic a].
Proof.
  intros Ha Hb Hscore Htime. unfold ranking. cbn [filter].
  rewrite Ha, Hb. cbn [map sort_by_key fold_right insert_by_key].
  unfold sort_key at 1 2.
  rewrite key_ltb_second; [reflexivity | | exact Htime].
  cbn [model_score ms_response_time] in *. rewrite Hscore. reflexivity.
Qed.

(** C2.  For every arithmetic of the interpreter and every list of
    comparison entries.  The numbers of an entry are the numeric values
    (ints, bools included, and floats) of its [metrics], followed by
    those of each map in its [framework_scores]; strings, nulls and
    entries that are not maps are left out.  The composite score is 0
    without numbers, and otherwise their sum divided by their count, as
    the interpreter computes them; with exact arithmetic this is the
    arithmetic mean.  The completed entries are ranked by higher
    score, then shorter response time, then lower cost (a missing cost
    counts as 0); the winner is the first of the ranking and ranks no
    lower than any completed entry; there is no winner exactly when no
    entry completed.  In scenario D, with equal scores 0.9, A at 2s and
    $0.01 and B at 1s and $0.02, B wins. *)
Theorem determine_winner_spec (arithmetic : Arithmetic)
        (comparisons : list ComparisonEntry) :
  (forall c metric_numbers framework_numbers,
      numeric_of (metrics c) metric_numbers ->
      framework_numeric_of (entry_framework_scores c) framework_numbers ->
      let numbers := (metric_numbers ++ framework_numbers)%list in
      score (model_score arithmetic c)
      = match numbers with
        | [] => 0
        | _ => py_truediv arithmetic (py_sum arithmetic numbers)
                          (List.length numbers)
        end
      /\ score (model_score exact_arithmetic c)
         == match numbers with
            | [] => 0
            | _ => sum_Q (map number_value numbers)
                   / Qnat (List.length numbers)
            end)
  /\ (forall c,
         (exists metric_numbers framework_numbers,
             numeric_of (metrics c) metric_numbers
             /\ framework_numeric_of (entry_framework_scores c)
                                     framework_numbers)
         /\ model (model_score arithmetic c) = model_name c
         /\ ms_response_time (model_score arithmetic c) = response_time c
         /\ ms_cost (model_score arithmetic c)
            = match cost c with
              | Some dollars => dollars
              | None => 0
              end)
  /\ StronglySorted outranks (ranking arithmetic comparisons)
  /\ Permutation (ranking arithmetic comparisons)
                 (map (model_score arithmetic)
                      (filter (fun c => String.eqb (entry_status c)
                                                   "completed")
                              comparisons))
  /\ (_determine_winner arithmetic comparisons = None
      <-> forall c, In c comparisons ->
                    entry_status c <> "completed"%string)
  /\ (forall w,
         _determine_winner arithmetic comparisons = Some w ->
         exists c,
           In c comparisons /\ entry_status c = "completed"%string
           /\ winner_model w = model_name c
           /\ reason_score w = score (model_score arithmetic c)
           /\ forall c', In c' comparisons ->
                         entry_status c' = "completed"%string ->
                         outranks (model_score arithmetic c)
                                  (model_score arithmetic c'))
  /\ option_map winner_model
                (_determine_winner
                   arithmetic
                   [scenario_model "A" (9 # 10) 2 (1 # 100);
                    scenario_model "B" (9 # 10) 1 (2 # 100)])
     = Some "B"%string.
Proof.
  split; [|split; [|split; [|split; [|split; [|split]]]]].
  - intros c metric_numbers framework_numbers H1 H2 numbers.
    unfold model_score. cbn [score].
    rewrite (all_scores_spec c H1 H2). fold numbers.
    split; [reflexivity|].
    destruct numbers; reflexivity.
  - intros c. split; [|repeat split].
    eexists. eexists. split;
      [apply numeric_values_spec | apply framework_values_spec].
  - pose proof (sort_by_key_sorted
                  (map (model_score arithmetic)
                       (filter is_completed comparisons))) as H.
    unfold ranking. induction H as [|x l Hl IH Hx]; constructor.
    + exact IH.
    + apply Forall_impl with (2 := Hx). intros y.
      apply ranks_before_outranks.
  - apply sort_by_key_perm.
  - unfold _determine_winner.
    assert (Hnone : filter is_completed comparisons = []
                    <-> forall c, In c comparisons ->
                                  entry_status c <> "completed"%string).
    { rewrite none_completed. split; intros H c Hc; specialize (H c Hc).
      - intros E. apply is_completed_spec in E. congruence.
      - destruct (is_completed c) eqn:E; [|reflexivity].
        apply is_completed_spec in E. contradiction. }
    rewrite <- Hnone, <- (ranking_empty arithmetic).
    destruct (ranking arithmetic comparisons).
    + tauto.
    + split; discriminate.
  - intros w Hw. unfold _determine_winner in Hw.
    pose proof (sort_by_key_sorted
                  (map (model_score arithmetic)
                       (filter is_completed comparisons)))
      as Hsorted.
    fold (ranking arithmetic comparisons) in Hsorted.
    pose proof (ranking_members arithmetic comparisons) as Hmem.
    destruct (ranking arithmetic comparisons) as [|first rest];
      [discriminate|].
    injection Hw as <-. cbn [winner_model reason_score].
    destruct (proj1 (Hmem first) (or_introl eq_refl)) as [c [Hin [Hc ->]]].
    exists c. split; [exact Hin|].
    split; [now apply is_completed_spec|].
    split; [reflexivity|]. split; [reflexivity|].
    intros c' Hin' Hc'. apply ranks_before_outranks.
    assert (H : In (model_score arithmetic c')
                   (model_score arithmetic c :: rest)).
    { apply Hmem. exists c'. split; [exact Hin'|].
      split; [now apply is_completed_spec | reflexivity]. }
    destruct H as [<-|H].
    + apply ranks_before_refl.
    + apply StronglySorted_inv in Hsorted as [_ Hall].
      rewrite Forall_forall in Hall. now apply Hall.
  - unfold _determine_winner.
    rewrite scenario_ranking; [reflexivity | reflexivity | reflexivity
                               | reflexivity | reflexivity].
Qed.

(** Where rounding decides: the three doubles 0.1, 0.2 and 0.3 sum to
    0.6000000000000001 from left to right and their float mean
    0.20000000000000004 is above the double 0.2, so with binary64
    arithmetic A (2s) beats B (1s); with exact arithmetic the mean of
    A is below B's score and B wins. *)
Remark rounding_decides_winner :
  let double := fun q => PyFloat (binary64 q) in
  let a := {| model_name := "A";
              response := "";
              metrics := [("m1"%string, double (1 # 10));
                          ("m2"%string, double (2 # 10));
                          ("m3"%string, double (3 # 10))];
              entry_framework_scores := [];
              response_time := 2;
              tokens_used := 0;
              cost := None;
              entry_status := "completed" |} in
  let b := {| model_name := "B";
              response := "";
              metrics := [("m1"%string, double (2 # 10))];
              entry_framework_scores := [];
              response_time := 1;
              tokens_used := 0;
              cost := None;
              entry_status := "completed" |} in
  option_map winner_model (_determine_winner binary64_arithmetic [a; b])
  = Some "A"%string
  /\ option_map winner_model (_determine_winner exact_arithmetic [a; b])
     = Some "B"%string.
Proof. cbv zeta. split; vm_compute; reflexivity. Qed.

End ComparatorClaim.

(* ================================================================== *)
(** * Further properties of the metrics engine *)

(* ------------------------------------------------------------------ *)
(** ** Tokens and n-grams *)

Section TokenProperties.
Import Num Text BasicEvaluator.
Local Open Scope string_scope.

Lemma lower_char_idempotent (c : ascii) :
  lower_char (lower_char c) = lower_char c.
Proof.
  destruct c as [b0 b1 b2 b3 b4 b5 b6 b7].
  destruct b0, b1, b2, b3, b4, b5, b6, b7; reflexivity.
Qed.

Lemma lower_idempotent (s : string) : lower (lower s) = lower s.
Proof.
  induction s as [|c s IH]; simpl; [reflexivity|].
  now rewrite lower_char_idempotent, IH.
Qed.

Lemma is_empty_lower (s : string) : is_empty (lower s) = is_empty s.
Proof. destruct s; reflexivity. Qed.

(** The runs read from a text keep every property of its characters. *)
Lemma word_runs_all_chars (p : ascii -> bool) (s : string) :
  forall cur,
    all_chars p cur = true -> all_chars p s = true ->
    Forall (fun t => all_chars p t = true) (word_runs s cur).
Proof.
  induction s as [|c s IH]; intros cur Hcur Hs; simpl.
  - destruct (is_empty cur); repeat constructor. assumption.
  - simpl in Hs. apply andb_true_iff in Hs as [Hc Hs].
    destruct (is_word c).
    + apply IH; [now apply all_chars_snoc | assumption].
    + destruct (is_empty cur).
      * now apply IH.
      * constructor; [assumption|]. now apply IH.
Qed.

Lemma lower_all_lower (s : string) :
  all_chars (fun c => Ascii.eqb (lower_char c) c) (lower s) = true.
Proof.
  induction s as [|c s IH]; simpl; [reflexivity|].
  rewrite lower_char_idempotent, Ascii.eqb_refl. exact IH.
Qed.

Lemma all_lower_fixed (t : string) :
  all_chars (fun c => Ascii.eqb (lower_char c) c) t = true -> lower t = t.
Proof.
  induction t as [|c t IH]; simpl; [reflexivity|].
  intros H. apply andb_true_iff in H as [Hc Ht].
  apply Ascii.eqb_eq in Hc. now rewrite Hc, IH.
Qed.

(** X1.  Tokenising ignores case: a text and its lower-cased form have
    the same tokens, and every token is already in lower case. *)
Theorem tokenize_ignores_case (text : string) :
  _tokenize (Some (lower text)) = _tokenize (Some text)
  /\ Forall (fun token => lower token = token) (_tokenize (Some text)).
Proof.
  split.
  - unfold _tokenize. now rewrite is_empty_lower, lower_idempotent.
  - unfold _tokenize. destruct (is_empty text); [constructor|].
    apply Forall_impl with (2 := word_runs_all_chars _ (lower text) ""
                                   eq_refl (lower_all_lower text)).
    intros t. apply all_lower_fixed.
Qed.

(** X2.  [_get_ngrams] returns nothing when the sequence is shorter
    than [n]; otherwise it returns [len - n + 1] windows, the window at
    position [i] is the slice [tokens[i:i+n]], and every window has
    exactly [n] tokens. *)
Theorem get_ngrams_windows (tokens : list string) (n : nat) :
  ((List.length tokens < n)%nat -> _get_ngrams tokens n = [])
  /\ ((n <= List.length tokens)%nat ->
      List.length (_get_ngrams tokens n) = (List.length tokens - n + 1)%nat
      /\ (forall i, (i < List.length tokens - n + 1)%nat ->
                    nth_error (_get_ngrams tokens n) i
                    = Some (firstn n (skipn i tokens)))
      /\ Forall (fun g => List.length g = n) (_get_ngrams tokens n)).
Proof.
  unfold _get_ngrams. split.
  - intros H. apply Nat.ltb_lt in H. now rewrite H.
  - intros H. destruct (Nat.ltb_spec (List.length tokens) n) as [Hlt|_];
      [lia|].
    split; [now rewrite length_map, length_seq|]. split.
    + intros i Hi. rewrite nth_error_map, nth_error_seq.
      apply Nat.ltb_lt in Hi. now rewrite Hi.
    + apply Forall_map, Forall_forall. intros i Hi.
      apply in_seq in Hi. rewrite length_firstn, length_skipn. lia.
Qed.

End TokenProperties.

(* ------------------------------------------------------------------ *)
(** ** Overlap scores: symmetry and identical texts *)

Section OverlapProperties.
Import Num Text BasicEvaluator.
Local Open Scope Q_scope.

Lemma mem_In (A : Type) (A_dec : forall x y : A, {x = y} + {x <> y})
      (x : A) (l : list A) : mem A_dec x l = true <-> In x l.
Proof.
  unfold mem. destruct (in_dec A_dec x l); intuition. discriminate.
Qed.

Lemma intersection_In (A : Type) (A_dec : forall x y : A, {x = y} + {x <> y})
      (a b : list A) (x : A) :
  In x (intersection A_dec a b) <-> In x a /\ In x b.
Proof.
  unfold intersection. now rewrite filter_In, mem_In.
Qed.

Lemma union_In (A : Type) (A_dec : forall x y : A, {x = y} + {x <> y})
      (a b : list A) (x : A) :
  In x (union A_dec a b) <-> In x a \/ In x b.
Proof.
  unfold union. now rewrite nodup_In, in_app_iff.
Qed.

(** The overlap of two sets has the same size whichever comes first. *)
Lemma intersection_length_comm (A : Type)
      (A_dec : forall x y : A, {x = y} + {x <> y}) (a b : list A) :
  NoDup a -> NoDup b ->
  List.length (intersection A_dec a b) = List.length (intersection A_dec b a).
Proof.
  intros Ha Hb. apply Permutation_length, NoDup_Permutation.
  - now apply intersection_NoDup.
  - now apply intersection_NoDup.
  - intros x. rewrite !intersection_In. tauto.
Qed.

Lemma union_length_comm (A : Type)
      (A_dec : forall x y : A, {x = y} + {x <> y}) (a b : list A) :
  List.length (union A_dec a b) = List.length (union A_dec b a).
Proof.
  apply Permutation_length, NoDup_Permutation.
  - apply NoDup_nodup.
  - apply NoDup_nodup.
  - intros x. rewrite !union_In. tauto.
Qed.

Lemma union_length_self (A : Type)
      (A_dec : forall x y : A, {x = y} + {x <> y}) (a : list A) :
  NoDup a -> List.length (union A_dec a a) = List.length a.
Proof.
  intros Ha. apply Permutation_length, NoDup_Permutation.
  - apply NoDup_nodup.
  - assumption.
  - intros x. rewrite union_In. tauto.
Qed.

Lemma jaccard_comm (a b : list string) :
  NoDup a -> NoDup b -> jaccard a b = jaccard b a.
Proof.
  intros Ha Hb. unfold jaccard, str_inter, str_union.
  now rewrite (intersection_length_comm string_dec Ha Hb),
              (union_length_comm string_dec a b).
Qed.

(** X3.  Word overlap does not depend on the order of its two
    arguments. *)
Theorem word_overlap_symmetric (a b : string) :
  _calculate_word_overlap a b = _calculate_word_overlap b a.
Proof.
  unfold _calculate_word_overlap.
  pose proof (str_set_NoDup (tokens_of a)) as Ha.
  pose proof (str_set_NoDup (tokens_of b)) as Hb.
  destruct (str_set (tokens_of a)) as [|a0 sa];
    destruct (str_set (tokens_of b)) as [|b0 sb]; try reflexivity.
  now apply jaccard_comm.
Qed.

(** X4.  The word overlap of any text with itself is exactly 1.0, also
    when the text has no token at all. *)
Theorem word_overlap_self (text : string) :
  _calculate_word_overlap text text == 1.
Proof.
  unfold _calculate_word_overlap.
  pose proof (str_set_NoDup (tokens_of text)) as Hnd.
  destruct (str_set (tokens_of text)) as [|t0 ts] eqn:E; [reflexivity|].
  unfold jaccard, str_inter, str_union.
  rewrite intersection_self, (union_length_self string_dec Hnd).
  apply ratio_or_zero_self. simpl. lia.
Qed.

(** X5.  The approximate METEOR score of a text against itself is
    [1 - distinct / (2 * total)] over its token counts: the penalty
    grows with the matches, so identical texts score between 0.5 and
    1.0 and never reach 1.0. *)
Theorem meteor_self (text : string) :
  tokens_of text <> [] ->
  let total := List.length (tokens_of text) in
  let distinct := List.length (str_set (tokens_of text)) in
  _calculate_meteor_approx text text
  == 1 - (1 # 2) * (Qnat distinct / Qnat total)
  /\ 1 # 2 <= _calculate_meteor_approx text text
  /\ _calculate_meteor_approx text text < 1.
Proof.
  intros Hne total distinct.
  assert (Hval : _calculate_meteor_approx text text
                 == 1 - (1 # 2) * (Qnat distinct / Qnat total)).
  { unfold _calculate_meteor_approx, total, distinct.
    destruct (tokens_of text) as [|t0 ts] eqn:E; [congruence|].
    cbv zeta. unfold str_inter. rewrite intersection_self.
    set (cs := str_set (t0 :: ts)).
    assert (Hpos : (0 < List.length cs)%nat)
      by (apply to_set_nonempty; discriminate).
    pose proof (ratio_or_zero_self Hpos) as Hone.
    destruct (Qeq_bool (ratio_or_zero (List.length cs) (List.length cs)
                        + ratio_or_zero (List.length cs) (List.length cs)) 0)
      eqn:Ez.
    - apply Qeq_bool_iff in Ez. rewrite Hone in Ez. discriminate.
    - rewrite Hone.
      setoid_replace (10 * 1 * 1 / (9 * 1 + 1)) with 1 by reflexivity.
      ring. }
  split; [exact Hval|].
  assert (Hd : (0 < distinct)%nat)
    by (apply to_set_nonempty; assumption).
  assert (Hle : (distinct <= total)%nat) by apply to_set_length_le.
  assert (Hr : 0 <= Qnat distinct / Qnat total <= 1)
    by (apply ratio_in_unit; lia).
  assert (Hp : 0 < Qnat distinct / Qnat total).
  { apply Qlt_shift_div_l; [apply Qnat_pos; lia|].
    rewrite Qmult_0_l. now apply Qnat_pos. }
  rewrite Hval. split; lra.
Qed.

Lemma meteor_self_witness :
  tokens_of "the cat saw the dog" <> []
  /\ _calculate_meteor_approx "the cat saw the dog" "the cat saw the dog"
     == 6 # 10.
Proof.
  split; [discriminate|].
  destruct (@meteor_self "the cat saw the dog") as [H _]; [discriminate|].
  rewrite H. reflexivity.
Defined.

(** X6.  With a non-empty reference that has tokens, the length ratio
    is the smaller token count divided by the larger one; so it is the
    same when candidate and reference swap their token counts. *)
Theorem length_ratio_min_max (candidate reference : string) :
  (0 < List.length (tokens_of reference))%nat ->
  let c := List.length (tokens_of candidate) in
  let r := List.length (tokens_of reference) in
  _calculate_length_ratio candidate reference
  == Qnat (Nat.min c r) / Qnat (Nat.max c r).
Proof.
  intros Hr c r. unfold _calculate_length_ratio.
  destruct (is_empty reference) eqn:E.
  { apply is_empty_true in E. subst reference. simpl in Hr. lia. }
  cbv zeta. fold c r.
  destruct (Nat.eqb_spec r 0) as [H0|_]; [unfold r in H0; lia|].
  assert (Hrpos : 0 < Qnat r) by now apply Qnat_pos.
  pose proof (Qnat_nonneg c) as Hc0.
  destruct (Nat.le_gt_cases c r) as [Hle|Hgt].
  - rewrite Nat.min_l, Nat.max_r by assumption.
    assert (Hratio : 0 <= Qnat c / Qnat r <= 1) by now apply ratio_in_unit.
    rewrite Q.max_l, Qabs_pos by lra. field. lra.
  - rewrite Nat.min_r, Nat.max_l by lia.
    assert (Hcpos : 0 < Qnat c) by (apply Qnat_pos; lia).
    assert (Hratio : 1 < Qnat c / Qnat r).
    { apply Qlt_shift_div_l; [assumption|].
      rewrite Qmult_1_l. unfold Qnat. rewrite <- Zlt_Qlt. lia. }
    rewrite Q.max_r, Qabs_neg by lra. field. split; lra.
Qed.

Lemma length_ratio_min_max_witness :
  (0 < List.length (tokens_of "a b c d"))%nat
  /\ _calculate_length_ratio "one two three four five six" "a b c d"
     == 4 # 6.
Proof.
  split; [vm_compute; lia|].
  rewrite (@length_ratio_min_max "one two three four five six" "a b c d");
    [reflexivity | vm_compute; lia].
Defined.

End OverlapProperties.

(* ------------------------------------------------------------------ *)
(** ** What [lcs_length] computes *)

Section LcsProperties.
Import Num Text BasicEvaluator Sequences.
Local Open Scope nat_scope.

Lemma lcs_ref_nil_r (a : list string) : lcs_ref a [] = O.
Proof. destruct a; reflexivity. Qed.

Lemma lcs_ref_cons (x y : string) (a b : list string) :
  lcs_ref (x :: a) (y :: b)
  = if String.eqb x y then S (lcs_ref a b)
    else Nat.max (lcs_ref a (y :: b)) (lcs_ref (x :: a) b).
Proof. reflexivity. Qed.

Lemma subsequence_tail (A : Type) (z : A) (s l : list A) :
  subsequence (z :: s) l -> subsequence s l.
Proof.
  induction l as [|a l IH]; intros H; inversion H; subst.
  - apply subsequence_skip. now apply IH.
  - now apply subsequence_skip.
Qed.

Lemma subsequence_cons_inv (A : Type) (z a : A) (s l : list A) :
  subsequence (z :: s) (a :: l) -> subsequence s l.
Proof.
  intros H. inversion H; subst.
  - now apply subsequence_tail with z.
  - assumption.
Qed.

Lemma subsequence_length (A : Type) (s l : list A) :
  subsequence s l -> (List.length s <= List.length l)%nat.
Proof. induction 1; simpl; lia. Qed.

Lemma subsequence_refl (A : Type) (l : list A) : subsequence l l.
Proof. induction l; constructor; assumption. Qed.

Lemma subsequence_app (A : Type) (s1 l1 s2 l2 : list A) :
  subsequence s1 l1 -> subsequence s2 l2 ->
  subsequence (s1 ++ s2) (l1 ++ l2).
Proof.
  intros H1 H2. induction H1; simpl.
  - induction l as [|a l IH]; simpl; [assumption|].
    now apply subsequence_skip.
  - now apply subsequence_skip.
  - now apply subsequence_take.
Qed.

Lemma subsequence_rev (A : Type) (s l : list A) :
  subsequence s l -> subsequence (rev s) (rev l).
Proof.
  induction 1; simpl.
  - constructor.
  - rewrite <- (app_nil_r (rev s)). apply subsequence_app; [assumption|].
    constructor.
  - apply subsequence_app; [assumption|]. apply subsequence_refl.
Qed.

(** The recurrence reaches the length of a common subsequence. *)
Lemma lcs_ref_reached (a : list string) :
  forall b, exists s,
    subsequence s a /\ subsequence s b /\ List.length s = lcs_ref a b.
Proof.
  induction a as [|x a IHa]; intros b.
  - exists []. repeat split; constructor.
  - induction b as [|y b IHb].
    + exists []. repeat split; constructor.
    + rewrite lcs_ref_cons. destruct (String.eqb_spec x y) as [->|Hne].
      * destruct (IHa b) as (s & Ha & Hb & Hlen).
        exists (y :: s). repeat split; [|  |simpl; lia];
          now apply subsequence_take.
      * destruct (Nat.max_spec (lcs_ref a (y :: b)) (lcs_ref (x :: a) b))
          as [[_ ->]|[_ ->]].
        -- destruct IHb as (s & Ha & Hb & Hlen).
           exists s. repeat split; [assumption| |assumption].
           now apply subsequence_skip.
        -- destruct (IHa (y :: b)) as (s & Ha & Hb & Hlen).
           exists s. repeat split; [|assumption|assumption].
           now apply subsequence_skip.
Qed.

(** No common subsequence is longer. *)
Lemma lcs_ref_bound (a : list string) :
  forall b s,
    subsequence s a -> subsequence s b ->
    (List.length s <= lcs_ref a b)%nat.
Proof.
  induction a as [|x a IHa]; intros b s Ha Hb.
  - inversion Ha; subst. simpl. lia.
  - induction b as [|y b IHb].
    + inversion Hb; subst. simpl. lia.
    + destruct s as [|z s]; [simpl; lia|].
      rewrite lcs_ref_cons. destruct (String.eqb_spec x y) as [->|Hne].
      * apply subsequence_cons_inv in Ha, Hb.
        specialize (IHa b s Ha Hb). simpl. lia.
      * inversion Ha; subst.
        -- assert (H := IHa (y :: b) (z :: s) H1 Hb). lia.
        -- inversion Hb; subst; [|congruence].
           assert (H := IHb H2). lia.
Qed.

(** A row computed from a row: every new cell follows the recurrence
    of the table, [F] being the row above and [G] the new row. *)
Lemma lcs_row_map (xi : string) (F G : nat -> nat) (ysuf : list string) :
  forall j0,
    (forall j, (j < List.length ysuf)%nat ->
               G (S (j0 + j))
               = if String.eqb xi (nth j ysuf EmptyString)
                 then (F (j0 + j) + 1)%nat
                 else Nat.max (F (S (j0 + j))) (G (j0 + j))) ->
    lcs_row xi ysuf (map F (seq j0 (List.length ysuf + 1))) (G j0)
    = map G (seq (S j0) (List.length ysuf)).
Proof.
  induction ysuf as [|yj ys IH]; intros j0 Hrec; [reflexivity|].
  cbn [List.length]. rewrite Nat.add_1_r. cbn [seq map lcs_row].
  assert (Hcell : (if String.eqb xi yj then (F j0 + 1)%nat
                   else Nat.max (F (S j0)) (G j0)) = G (S j0)).
  { specialize (Hrec O ltac:(simpl; lia)). rewrite Nat.add_0_r in Hrec.
    symmetry. exact Hrec. }
  rewrite Hcell. f_equal.
  rewrite <- (IH (S j0)).
  - rewrite Nat.add_1_r. reflexivity.
  - intros j Hj. specialize (Hrec (S j) ltac:(simpl; lia)).
    rewrite Nat.add_succ_r in Hrec. exact Hrec.
Qed.

Section Table.
Variables x y : list string.

(** The cell [dp[i][j]] according to the recurrence on the prefixes
    [x[:i]] and [y[:j]], read from their last elements. *)
Let cell (i j : nat) : nat :=
  lcs_ref (rev (firstn i x)) (rev (firstn j y)).

Lemma firstn_succ_rev (l : list string) (i : nat) :
  (i < List.length l)%nat ->
  rev (firstn (S i) l) = nth i l EmptyString :: rev (firstn i l).
Proof.
  revert i. induction l as [|a l IH]; intros i Hi; simpl in Hi; [lia|].
  destruct i as [|i].
  - destruct l; reflexivity.
  - change (firstn (S (S i)) (a :: l)) with (a :: firstn (S i) l).
    change (firstn (S i) (a :: l)) with (a :: firstn i l).
    cbn [rev nth]. rewrite IH by lia. reflexivity.
Qed.

Lemma cell_recurrence (i j : nat) :
  (i < List.length x)%nat -> (j < List.length y)%nat ->
  cell (S i) (S j)
  = if String.eqb (nth i x EmptyString) (nth j y EmptyString)
    then (cell i j + 1)%nat
    else Nat.max (cell i (S j)) (cell (S i) j).
Proof.
  intros Hi Hj. unfold cell.
  rewrite (firstn_succ_rev x Hi), (firstn_succ_rev y Hj), lcs_ref_cons.
  destruct (String.eqb _ _); [lia | reflexivity].
Qed.

Lemma lcs_step_row (i : nat) :
  (i < List.length x)%nat ->
  lcs_step y (map (cell i) (seq 0 (List.length y + 1))) (nth i x EmptyString)
  = map (cell (S i)) (seq 0 (List.length y + 1)).
Proof.
  intros Hi. unfold lcs_step.
  assert (H0 : cell (S i) 0 = O) by (unfold cell; apply lcs_ref_nil_r).
  replace (lcs_row (nth i x EmptyString) y
                   (map (cell i) (seq 0 (List.length y + 1))) 0)
    with (lcs_row (nth i x EmptyString) y
                  (map (cell i) (seq 0 (List.length y + 1))) (cell (S i) 0))
    by now rewrite H0.
  rewrite (@lcs_row_map (nth i x EmptyString) (cell i) (cell (S i)) y 0).
  - rewrite Nat.add_1_r. cbn [seq map]. now rewrite H0.
  - intros j Hj. cbn [Nat.add]. now apply cell_recurrence.
Qed.

Lemma lcs_rows (i : nat) :
  (i <= List.length x)%nat ->
  fold_left (lcs_step y) (firstn i x) (repeat O (List.length y + 1))
  = map (cell i) (seq 0 (List.length y + 1)).
Proof.
  induction i as [|i IH]; intros Hi.
  - cbn [firstn fold_left].
    assert (H : forall n k, repeat O n = map (cell 0) (seq k n)).
    { induction n as [|n IHn]; intros k; cbn [repeat seq map];
        [reflexivity|].
      now rewrite <- IHn. }
    apply H.
  - assert (Hsplit : firstn (S i) x = firstn i x ++ [nth i x EmptyString]).
    { clear IH. revert i Hi. induction x as [|a l IHl]; intros i Hi;
        simpl in Hi; [lia|].
      destruct i as [|i]; [reflexivity|].
      change (firstn (S (S i)) (a :: l)) with (a :: firstn (S i) l).
      rewrite IHl by lia. reflexivity. }
    rewrite Hsplit, fold_left_app, IH by lia. cbn [fold_left].
    apply lcs_step_row. lia.
Qed.

Lemma lcs_length_ref : lcs_length x y = lcs_ref (rev x) (rev y).
Proof.
  unfold lcs_length, lcs_table.
  rewrite <- (firstn_all x) at 1. rewrite lcs_rows by lia.
  rewrite last_nth with (n := List.length y)
    by now rewrite length_map, length_seq.
  rewrite nth_indep with (d' := cell (List.length x) O)
    by (rewrite length_map, length_seq; lia).
  rewrite map_nth, seq_nth by lia. unfold cell.
  cbn [Nat.add]. now rewrite !firstn_all.
Qed.

End Table.

End LcsProperties.

(* ------------------------------------------------------------------ *)
(** *** X7, X8: the longest common subsequence *)

Section LcsClaims.
Import Num Text BasicEvaluator Sequences.
Local Open Scope nat_scope.

Lemma lcs_length_reached (x y : list string) :
  exists s, subsequence s x /\ subsequence s y
            /\ List.length s = lcs_length x y.
Proof.
  rewrite lcs_length_ref.
  destruct (lcs_ref_reached (rev x) (rev y)) as (s & Hx & Hy & Hlen).
  exists (rev s). apply subsequence_rev in Hx, Hy.
  rewrite rev_involutive in Hx, Hy. now rewrite length_rev.
Qed.

Lemma lcs_length_bound (x y s : list string) :
  subsequence s x -> subsequence s y -> List.length s <= lcs_length x y.
Proof.
  intros Hx Hy. rewrite lcs_length_ref, <- length_rev.
  apply lcs_ref_bound; now apply subsequence_rev.
Qed.

Lemma lcs_length_comm (x y : list string) : lcs_length x y = lcs_length y x.
Proof.
  destruct (lcs_length_reached x y) as (s & Hx & Hy & Hs).
  destruct (lcs_length_reached y x) as (t & Ht1 & Ht2 & Ht).
  apply Nat.le_antisymm.
  - rewrite <- Hs. now apply lcs_length_bound.
  - rewrite <- Ht. now apply lcs_length_bound.
Qed.

Lemma lcs_length_le (x y : list string) :
  lcs_length x y <= List.length x /\ lcs_length x y <= List.length y.
Proof.
  destruct (lcs_length_reached x y) as (s & Hx & Hy & Hs).
  rewrite <- Hs. split; now apply subsequence_length.
Qed.

(** X7.  [lcs_length] returns the length of a longest common
    subsequence of its two token sequences: some common subsequence has
    that length, and none is longer. *)
Theorem lcs_length_longest (x y : list string) :
  (exists s, subsequence s x /\ subsequence s y
             /\ List.length s = lcs_length x y)
  /\ (forall s, subsequence s x -> subsequence s y ->
                List.length s <= lcs_length x y).
Proof.
  split; [apply lcs_length_reached|].
  intros s. apply lcs_length_bound.
Qed.

(** X8.  [lcs_length] is symmetric and never exceeds the length of
    either sequence. *)
Theorem lcs_length_symmetric_bounded (x y : list string) :
  lcs_length x y = lcs_length y x
  /\ lcs_length x y <= List.length x
  /\ lcs_length x y <= List.length y.
Proof.
  split; [apply lcs_length_comm | apply lcs_length_le].
Qed.

End LcsClaims.

(* ------------------------------------------------------------------ *)
(** ** ROUGE: range and symmetry *)

Section RougeBounds.
Import Num Text BasicEvaluator Sequences.
Local Open Scope Q_scope.

Lemma f1_in_unit (p r : Q) :
  0 <= p <= 1 -> 0 <= r <= 1 -> 0 <= f1 p r <= 1.
Proof.
  intros [Hp0 Hp1] [Hr0 Hr1]. unfold f1.
  destruct (Qltb 0 (p + r)) eqn:E; [|lra].
  apply Qltb_spec in E. split.
  - apply Qle_shift_div_l; [assumption|]. nra.
  - apply Qle_shift_div_r; [assumption|]. nra.
Qed.

Lemma f1_comm (p r : Q) : f1 p r == f1 r p.
Proof.
  unfold f1.
  destruct (Qltb 0 (p + r)) eqn:E1; destruct (Qltb 0 (r + p)) eqn:E2.
  - setoid_replace (r + p) with (p + r) by ring.
    setoid_replace (r * p) with (p * r) by ring. reflexivity.
  - apply Qltb_spec in E1. apply Qltb_false in E2. lra.
  - apply Qltb_spec in E2. apply Qltb_false in E1. lra.
  - reflexivity.
Qed.

Lemma set_f1_in_unit (A : Type) (A_dec : forall x y : A, {x = y} + {x <> y})
      (a b : list A) :
  let sa := to_set A_dec a in
  let sb := to_set A_dec b in
  let overlap := intersection A_dec sa sb in
  0 <= f1 (ratio_or_zero (List.length overlap) (List.length sa))
          (ratio_or_zero (List.length overlap) (List.length sb)) <= 1.
Proof.
  intros sa sb overlap. apply f1_in_unit; apply ratio_or_zero_in_unit.
  - apply intersection_length_le.
  - apply intersection_length_le_r, to_set_NoDup.
Qed.

Lemma set_f1_comm (A : Type) (A_dec : forall x y : A, {x = y} + {x <> y})
      (a b : list A) :
  let sa := to_set A_dec a in
  let sb := to_set A_dec b in
  f1 (ratio_or_zero (List.length (intersection A_dec sa sb)) (List.length sa))
     (ratio_or_zero (List.length (intersection A_dec sa sb)) (List.length sb))
  == f1 (ratio_or_zero (List.length (intersection A_dec sb sa))
                       (List.length sb))
        (ratio_or_zero (List.length (intersection A_dec sb sa))
                       (List.length sa)).
Proof.
  cbv zeta.
  rewrite (intersection_length_comm A_dec (to_set_NoDup A_dec a)
                                    (to_set_NoDup A_dec b)).
  apply f1_comm.
Qed.

Lemma lcs_f1_in_unit (x y : list string) : 0 <= _calculate_lcs_f1 x y <= 1.
Proof.
  unfold _calculate_lcs_f1.
  destruct (lcs_length_le x y) as (Hx & Hy).
  destruct x as [|x0 x]; [lra|]. destruct y as [|y0 y]; [lra|].
  set (l := lcs_length (x0 :: x) (y0 :: y)) in *.
  assert (Hp : 0 <= Qnat l / Qnat (List.length (x0 :: x)) <= 1)
    by (apply ratio_in_unit; [assumption | simpl; lia]).
  assert (Hr : 0 <= Qnat l / Qnat (List.length (y0 :: y)) <= 1)
    by (apply ratio_in_unit; [assumption | simpl; lia]).
  destruct (Qeq_bool _ 0) eqn:E; [lra|].
  apply Qeq_bool_neq in E.
  set (p := Qnat l / Qnat (List.length (x0 :: x))) in *.
  set (r := Qnat l / Qnat (List.length (y0 :: y))) in *.
  assert (Hpos : 0 < p + r).
  { destruct (Qlt_le_dec 0 (p + r)); [assumption|]. exfalso. apply E. lra. }
  split.
  - apply Qle_shift_div_l; [assumption|]. nra.
  - apply Qle_shift_div_r; [assumption|]. nra.
Qed.

Lemma lcs_f1_comm (x y : list string) :
  _calculate_lcs_f1 x y == _calculate_lcs_f1 y x.
Proof.
  unfold _calculate_lcs_f1.
  rewrite (lcs_length_comm x y).
  destruct x as [|x0 x]; destruct y as [|y0 y]; try reflexivity.
  set (p := Qnat _ / Qnat (List.length (x0 :: x))).
  set (r := Qnat _ / Qnat (List.length (y0 :: y))).
  assert (E : Qeq_bool (p + r) 0 = Qeq_bool (r + p) 0).
  { destruct (Qeq_bool (p + r) 0) eqn:E1; symmetry.
    - apply Qeq_bool_iff in E1. apply Qeq_bool_iff. lra.
    - apply Qeq_bool_neq in E1. apply Qeq_bool_false. intros H.
      apply E1. lra. }
  rewrite E. destruct (Qeq_bool (r + p) 0); [reflexivity|].
  setoid_replace (r + p) with (p + r) by ring.
  setoid_replace (r * p) with (p * r) by ring. reflexivity.
Qed.

Lemma rouge_in_unit_aux (candidate reference : string) :
  0 <= rouge1 (_calculate_rouge candidate reference) <= 1
  /\ 0 <= rouge2 (_calculate_rouge candidate reference) <= 1
  /\ 0 <= rougeL (_calculate_rouge candidate reference) <= 1.
Proof.
  unfold _calculate_rouge.
  destruct (tokens_of candidate) as [|c0 ct]; [simpl; lra|].
  destruct (tokens_of reference) as [|r0 rt]; [simpl; lra|].
  cbn [rouge1 rouge2 rougeL]. split; [|split].
  - apply (set_f1_in_unit string_dec).
  - apply (set_f1_in_unit ngram_dec).
  - apply lcs_f1_in_unit.
Qed.

(** X9.  For all candidate and reference texts the three ROUGE scores
    lie between 0 and 1. *)
Theorem rouge_in_unit (candidate reference : string) :
  0 <= rouge1 (_calculate_rouge candidate reference) <= 1
  /\ 0 <= rouge2 (_calculate_rouge candidate reference) <= 1
  /\ 0 <= rougeL (_calculate_rouge candidate reference) <= 1.
Proof. apply rouge_in_unit_aux. Qed.

(** X10.  The three ROUGE scores are F1 scores: they do not change when
    candidate and reference are exchanged. *)
Theorem rouge_symmetric (candidate reference : string) :
  rouge1 (_calculate_rouge candidate reference)
  == rouge1 (_calculate_rouge reference candidate)
  /\ rouge2 (_calculate_rouge candidate reference)
     == rouge2 (_calculate_rouge reference candidate)
  /\ rougeL (_calculate_rouge candidate reference)
     == rougeL (_calculate_rouge reference candidate).
Proof.
  unfold _calculate_rouge.
  destruct (tokens_of candidate) as [|c0 ct];
    destruct (tokens_of reference) as [|r0 rt];
    try (simpl; repeat split; reflexivity).
  cbn [rouge1 rouge2 rougeL]. split; [|split].
  - apply (set_f1_comm string_dec).
  - apply (set_f1_comm ngram_dec).
  - apply lcs_f1_comm.
Qed.

End RougeBounds.

(* ------------------------------------------------------------------ *)
(** ** BLEU: range and identical texts *)

Section BleuBounds.
Import Num Text BasicEvaluator.

Lemma sum_nat_le (A : Type) (f g : A -> nat) (l : list A) :
  (forall a, (f a <= g a)%nat) ->
  (sum_nat (map f l) <= sum_nat (map g l))%nat.
Proof.
  intros H. induction l as [|a l IH]; simpl; [lia|].
  specialize (H a). lia.
Qed.

(** The counts of the distinct elements of a list add up to its
    length. *)
Lemma sum_counts (l : list ngram) :
  forall s, NoDup s -> incl l s ->
            sum_nat (map (count_occ ngram_dec l) s) = List.length l.
Proof.
  induction l as [|a l IH]; intros s Hnd Hincl.
  - induction s as [|g s IHs]; [reflexivity|]. simpl.
    apply IHs; [now inversion Hnd | intros x []].
  - assert (Hsplit : forall s',
               sum_nat (map (count_occ ngram_dec (a :: l)) s')
               = (sum_nat (map (count_occ ngram_dec l) s')
                  + count_occ ngram_dec s' a)%nat).
    { induction s' as [|g s' IHs']; [reflexivity|].
      rewrite !map_cons.
      change (sum_nat (?h :: ?t)) with (h + sum_nat t)%nat.
      rewrite IHs'.
      destruct (ngram_dec a g) as [->|Hne].
      - rewrite !count_occ_cons_eq by reflexivity. lia.
      - rewrite (count_occ_cons_neq ngram_dec l Hne).
        rewrite (count_occ_cons_neq ngram_dec s'
                                    (fun E => Hne (eq_sym E))).
        lia. }
    rewrite Hsplit, (IH s Hnd); [|intros x Hx; apply Hincl; now right].
    assert (Hone : count_occ ngram_dec s a = 1%nat).
    { apply NoDup_count_occ'; [assumption|]. apply Hincl. now left. }
    simpl. lia.
Qed.

Lemma sum_counts_set (l : list ngram) :
  sum_nat (map (counter l) (to_set ngram_dec l)) = List.length l.
Proof.
  apply sum_counts; [apply NoDup_nodup|].
  intros x Hx. now apply nodup_In.
Qed.

Lemma bleu_precision_le_one (ct rt : list string) (n : nat) :
  (bleu_precision ct rt n <= 1)%Q.
Proof.
  unfold bleu_precision. destruct (_get_ngrams ct n) as [|g gs] eqn:E.
  - discriminate.
  - set (l := g :: gs).
    apply Qle_shift_div_r; [apply Qnat_pos; simpl; lia|].
    rewrite Qmult_1_l. apply Qnat_le.
    rewrite <- (sum_counts_set l).
    apply sum_nat_le. intros a. apply Nat.le_min_l.
Qed.

Lemma bleu_precision_self (tokens : list string) (n : nat) :
  (n <= List.length tokens)%nat ->
  (bleu_precision tokens tokens n == 1)%Q.
Proof.
  intros Hn. unfold bleu_precision.
  pose proof (get_ngrams_nonempty tokens Hn) as Hne.
  destruct (_get_ngrams tokens n) as [|g gs] eqn:E; [congruence|].
  set (l := g :: gs).
  assert (Hsum : sum_nat (map (fun a => Nat.min (counter l a) (counter l a))
                              (to_set ngram_dec l)) = List.length l).
  { rewrite <- (sum_counts_set l). f_equal.
    apply map_ext. intros a. apply Nat.min_id. }
  rewrite Hsum. apply Qnat_self_ratio. simpl. lia.
Qed.

Lemma brevity_penalty_in_unit (ct rt : list string) :
  (0 < brevity_penalty ct rt <= 1)%R.
Proof.
  unfold brevity_penalty. split.
  - apply Rmin_glb_lt; [lra | apply exp_pos].
  - apply Rmin_l.
Qed.

Lemma weighted_log_mean_in_unit (p1 p2 p3 p4 : Q) :
  (0 < p1 <= 1)%Q -> (0 < p2 <= 1)%Q -> (0 < p3 <= 1)%Q -> (0 < p4 <= 1)%Q ->
  (0 < exp (sum_R (map (fun wp => fst wp * ln (Q2R (snd wp)))%R
                       (combine bleu_weights [p1; p2; p3; p4]))) <= 1)%R.
Proof.
  intros H1 H2 H3 H4. split; [apply exp_pos|].
  rewrite <- exp_0.
  enough (Hsum : (sum_R (map (fun wp => fst wp * ln (Q2R (snd wp)))%R
                             (combine bleu_weights [p1; p2; p3; p4]))
                  <= 0)%R).
  { destruct Hsum as [Hlt|Heq].
    - left. now apply exp_increasing.
    - right. now rewrite Heq. }
  assert (Hln : forall p, (0 < p <= 1)%Q -> (ln (Q2R p) <= 0)%R).
  { intros p [Hp0 Hp1]. apply Qlt_Rlt in Hp0. apply Qle_Rle in Hp1.
    replace (Q2R 0) with 0%R in Hp0 by (unfold Q2R; simpl; lra).
    replace (Q2R 1) with 1%R in Hp1 by (unfold Q2R; simpl; lra).
    rewrite <- ln_1. destruct Hp1 as [Hlt|Heq].
    - left. now apply ln_increasing.
    - right. now rewrite Heq. }
  pose proof (Hln p1 H1). pose proof (Hln p2 H2).
  pose proof (Hln p3 H3). pose proof (Hln p4 H4).
  unfold bleu_weights, sum_R. simpl. lra.
Qed.

End BleuBounds.

Section BleuRange.
Import Num Text BasicEvaluator.

Lemma bleu_zero_precision (candidate reference : string) :
  Exists (fun p => (p == 0)%Q)
         (bleu_precisions (tokens_of candidate) (tokens_of reference)) ->
  _calculate_bleu candidate reference = 0%R.
Proof.
  intros Hex. unfold _calculate_bleu.
  destruct (tokens_of candidate) as [|c0 ct]; [reflexivity|].
  destruct (tokens_of reference) as [|r0 rt]; [reflexivity|].
  cbv zeta. rewrite (zero_not_all_positive Hex). apply Rmult_0_r.
Qed.

Lemma Q2R_one (p : Q) : (p == 1)%Q -> Q2R p = 1%R.
Proof.
  intros H. rewrite (Qeq_eqR _ _ H). unfold Q2R. simpl. lra.
Qed.

Lemma bleu_in_unit_aux (candidate reference : string) :
  (0 <= _calculate_bleu candidate reference <= 1)%R.
Proof.
  destruct (tokens_of candidate) as [|c0 ct] eqn:Ec.
  { unfold _calculate_bleu. rewrite Ec. lra. }
  destruct (tokens_of reference) as [|r0 rt] eqn:Er.
  { unfold _calculate_bleu. rewrite Ec, Er. lra. }
  rewrite bleu_unfold by congruence. cbv zeta. rewrite Ec, Er.
  pose proof (brevity_penalty_in_unit (c0 :: ct) (r0 :: rt)) as Hbp.
  destruct (forallb _ _) eqn:Hall; [|lra].
  apply all_positive_spec in Hall.
  unfold bleu_precisions in *. cbn [map] in *.
  inversion Hall as [|? ? H1 Hall1]; subst.
  inversion Hall1 as [|? ? H2 Hall2]; subst.
  inversion Hall2 as [|? ? H3 Hall3]; subst.
  inversion Hall3 as [|? ? H4 _]; subst.
  pose proof (fun n => bleu_precision_le_one (c0 :: ct) (r0 :: rt) n) as Hle.
  pose proof (@weighted_log_mean_in_unit _ _ _ _
                (conj H1 (Hle 1%nat)) (conj H2 (Hle 2%nat))
                (conj H3 (Hle 3%nat)) (conj H4 (Hle 4%nat))) as Hgm.
  split; nra.
Qed.

(** X11.  For all candidate and reference texts BLEU lies between 0
    and 1. *)
Theorem bleu_in_unit (candidate reference : string) :
  (0 <= _calculate_bleu candidate reference <= 1)%R.
Proof. apply bleu_in_unit_aux. Qed.

(** X12.  BLEU of a text against itself is 1.0 when the text has at
    least four tokens and 0.0 when it has fewer: without smoothing a
    text too short for a 4-gram scores nothing even against itself. *)
Theorem bleu_self (text : string) :
  ((4 <= List.length (tokens_of text))%nat ->
   _calculate_bleu text text = 1%R)
  /\ ((List.length (tokens_of text) < 4)%nat ->
      _calculate_bleu text text = 0%R).
Proof.
  split; intros Hlen.
  - assert (Hne : tokens_of text <> [])
      by (intros E; rewrite E in Hlen; simpl in Hlen; lia).
    rewrite bleu_unfold by assumption. cbv zeta.
    set (tokens := tokens_of text) in *.
    assert (Hp : forall n, (1 <= n <= 4)%nat ->
                           (bleu_precision tokens tokens n == 1)%Q)
      by (intros n Hn; apply bleu_precision_self; lia).
    pose proof (Hp 1%nat ltac:(lia)) as H1.
    pose proof (Hp 2%nat ltac:(lia)) as H2.
    pose proof (Hp 3%nat ltac:(lia)) as H3.
    pose proof (Hp 4%nat ltac:(lia)) as H4.
    assert (Hall : forallb (fun p => Qltb 0 p) (bleu_precisions tokens tokens)
                   = true).
    { apply all_positive_spec. unfold bleu_precisions. cbn [map].
      repeat constructor;
        [rewrite H1 | rewrite H2 | rewrite H3 | rewrite H4]; reflexivity. }
    rewrite Hall. unfold bleu_precisions, bleu_weights, sum_R. simpl.
    rewrite (Q2R_one H1), (Q2R_one H2), (Q2R_one H3), (Q2R_one H4), ln_1.
    replace (0.25 * 0 + (0.25 * 0 + (0.25 * 0 + (0.25 * 0 + 0))))%R
      with 0%R by lra.
    unfold brevity_penalty.
    assert (Hn : INR (List.length tokens) <> 0%R).
    { apply not_0_INR. lia. }
    replace (1 - INR (List.length tokens) / INR (List.length tokens))%R
      with 0%R by (field; assumption).
    rewrite exp_0, Rmin_left by lra. lra.
  - apply bleu_zero_precision. unfold bleu_precisions. cbn [map].
    do 3 apply Exists_cons_tl. apply Exists_cons_hd.
    unfold bleu_precision, _get_ngrams.
    apply Nat.ltb_lt in Hlen. rewrite Hlen. reflexivity.
Qed.

End BleuRange.

(* ------------------------------------------------------------------ *)
(** ** The mapping returned by [evaluate] *)

Section EvaluateResult.
Import Num Text BasicEvaluator.
Local Open Scope string_scope.

Lemma set_values (V : Type) (P : V -> Prop) (d : list (string * V))
      (k : string) (v : V) :
  Forall (fun kv => P (snd kv)) d -> P v ->
  Forall (fun kv => P (snd kv)) (Py.set d k v).
Proof.
  intros Hd Hv. induction Hd as [|[k' v'] d Hkv Hd IH]; simpl.
  - now repeat constructor.
  - destruct (String.eqb k' k); constructor; auto.
Qed.

Lemma store_if_values (P : R -> Prop) (cond : bool) (k : string) (v : R)
      (d : list (string * R)) :
  Forall (fun kv => P (snd kv)) d -> P v ->
  Forall (fun kv => P (snd kv)) (store_if cond k v d).
Proof.
  intros Hd Hv. unfold store_if. destruct cond; [|assumption].
  now apply set_values.
Qed.

Lemma Q2R_in_unit (q : Q) : (0 <= q <= 1)%Q -> (0 <= Q2R q <= 1)%R.
Proof.
  intros [H0 H1]. apply Qle_Rle in H0, H1.
  replace (Q2R 0) with 0%R in H0 by (unfold Q2R; simpl; lra).
  replace (Q2R 1) with 1%R in H1 by (unfold Q2R; simpl; lra).
  split; assumption.
Qed.

Lemma rouge_get_in_unit (candidate reference metric : string) :
  (0 <= rouge_get (_calculate_rouge candidate reference) metric <= 1)%Q.
Proof.
  destruct (rouge_in_unit_aux candidate reference) as (H1 & H2 & HL).
  unfold rouge_get.
  destruct (String.eqb metric "rouge1"); [assumption|].
  destruct (String.eqb metric "rouge2"); [assumption|].
  destruct (String.eqb metric "rougeL"); [assumption|].
  split; [apply Qle_refl | discriminate].
Qed.

Lemma keys_set_eq (V : Type) (d : list (string * V)) (k : string) (v : V) :
  Py.keys (Py.set d k v) = keys_after_set k (Py.keys d).
Proof.
  unfold keys_after_set, Py.keys.
  induction d as [|[k' v'] d IH]; [reflexivity|].
  cbn [Py.set map fst].
  destruct (String.eqb_spec k' k) as [->|Hne]; cbn [map fst].
  - assert (H : mem string_dec k (k :: map fst d) = true)
      by (apply mem_In; now left).
    now rewrite H.
  - rewrite IH. destruct (mem string_dec k (map fst d)) eqn:E.
    + assert (H : mem string_dec k (k' :: map fst d) = true)
        by (apply mem_In; right; now apply mem_In in E).
      now rewrite H.
    + assert (H : mem string_dec k (k' :: map fst d) = false).
      { destruct (mem string_dec k (k' :: map fst d)) eqn:E';
          [|reflexivity].
        apply mem_In in E'. destruct E' as [E'|E']; [congruence|].
        apply (mem_In string_dec) in E'. congruence. }
      now rewrite H.
Qed.

Lemma keys_store_if_eq (cond : bool) (k : string) (v : R)
      (d : list (string * R)) :
  Py.keys (store_if cond k v d)
  = if cond then keys_after_set k (Py.keys d) else Py.keys d.
Proof.
  unfold store_if. destruct cond; [apply keys_set_eq | reflexivity].
Qed.

Lemma keys_after_set_NoDup (k : string) (l : list string) :
  NoDup l -> NoDup (keys_after_set k l).
Proof.
  intros Hl. unfold keys_after_set, mem.
  destruct (in_dec string_dec k l) as [Hin|Hout]; [assumption|].
  apply NoDup_app; [assumption | repeat constructor; intros [] |].
  intros x Hx [<-|[]]. contradiction.
Qed.

Lemma store_if_keys_NoDup (cond : bool) (k : string) (v : R)
      (d : list (string * R)) :
  NoDup (Py.keys d) -> NoDup (Py.keys (store_if cond k v d)).
Proof.
  intros Hd. rewrite keys_store_if_eq. destruct cond; [|assumption].
  now apply keys_after_set_NoDup.
Qed.

(** X13.  Every score in the mapping returned by [evaluate] lies
    between 0 and 1, whatever the context and the selection. *)
Theorem evaluate_values_in_unit (eval_context : EvalContext)
        (selected_metrics : option (list string)) :
  Forall (fun entry => (0 <= snd entry <= 1)%R)
         (evaluate eval_context selected_metrics).
Proof.
  unfold evaluate. cbv zeta.
  pose proof (fun q H => Q2R_in_unit (q := q) H) as HQ.
  repeat (apply (store_if_values (fun r => (0 <= r <= 1)%R));
          [| first [ apply bleu_in_unit_aux
                   | apply HQ;
                     first [ apply meteor_in_unit | apply coherence_in_unit
                           | apply relevance_in_unit | apply fluency_in_unit
                           | apply informativeness_in_unit
                           | apply length_ratio_in_unit
                           | apply word_overlap_in_unit
                           | apply sentence_similarity_in_unit ] ]]).
  match goal with
  | |- Forall _ (if ?c then _ else _) => destruct c; [|constructor]
  end.
  cbn [fold_left].
  repeat (apply (store_if_values (fun r => (0 <= r <= 1)%R));
          [|apply HQ, rouge_get_in_unit]).
  constructor.
Qed.

(** X14.  The mapping returned by [evaluate] has no repeated key.
    Without a selection and with a non-empty expected answer it holds
    the twelve metrics of the catalog, in catalog order; without an
    expected answer it holds coherence, relevance, fluency and
    informativeness only. *)
Theorem evaluate_catalog (eval_context : EvalContext)
        (selected_metrics : option (list string)) :
  NoDup (Py.keys (evaluate eval_context selected_metrics))
  /\ (truthy (expected_answer eval_context) = true ->
      Py.keys (evaluate eval_context None) = available_metrics)
  /\ (truthy (expected_answer eval_context) = false ->
      Py.keys (evaluate eval_context None) = reference_free_metrics).
Proof.
  split; [|split].
  - unfold evaluate. cbv zeta.
    repeat apply store_if_keys_NoDup.
    match goal with
    | |- NoDup (Py.keys (if ?c then _ else _)) => destruct c; [|constructor]
    end.
    cbn [fold_left]. repeat apply store_if_keys_NoDup. constructor.
  - intros H. unfold evaluate. cbv zeta. rewrite H.
    rewrite !keys_store_if_eq. cbn [effective_selection].
    change (existsb (String.prefix "rouge") available_metrics) with true.
    cbn [andb fold_left]. rewrite !keys_store_if_eq.
    vm_compute. reflexivity.
  - intros H. unfold evaluate. cbv zeta. rewrite H.
    rewrite !keys_store_if_eq. cbn [effective_selection andb].
    vm_compute. reflexivity.
Qed.

End EvaluateResult.

(* ------------------------------------------------------------------ *)
(** ** The merged [automatic_metrics] *)

Section AutomaticMetrics.
Import Py EvaluationService.
Local Open Scope string_scope.

Lemma combine_map_self (A B : Type) (f : A -> B) (l : list A) :
  combine l (map f l) = map (fun a => (a, f a)) l.
Proof. induction l as [|a l IH]; simpl; [reflexivity | now rewrite IH]. Qed.

Lemma update_fresh (V : Type) (other : list (string * V)) :
  forall d, NoDup (keys d ++ keys other)%list ->
            update d other = (d ++ other)%list.
Proof.
  unfold update.
  induction other as [|[k v] other IH]; intros d Hnd; simpl.
  - now rewrite app_nil_r.
  - assert (Hfresh : ~ In k (keys d)).
    { intros Hin. apply NoDup_remove_2 in Hnd. apply Hnd.
      apply in_or_app. now left. }
    rewrite set_fresh by exact Hfresh. rewrite IH.
    + now rewrite <- app_assoc.
    + unfold keys in *. rewrite map_app. simpl. rewrite <- app_assoc.
      exact Hnd.
Qed.

Section Registry.
Variable eval_context : EvalContext.
Variable selected_metrics : Selection.

Let task := framework_task eval_context selected_metrics.

Let step (acc : RunResult) (item : string * Evaluator) : RunResult :=
  process_result acc (item, task item).

(** Frameworks under another name leave [automatic_metrics] alone. *)
Lemma fold_other_frameworks (items : list (string * Evaluator)) :
  forall acc,
    ~ In "basic" (map fst items) ->
    automatic_metrics (fold_left step items acc) = automatic_metrics acc.
Proof.
  induction items as [|item items IH]; intros acc Hout; [reflexivity|].
  cbn [fold_left]. rewrite IH by (intros H; apply Hout; now right).
  unfold step, process_result. cbn [fst snd].
  destruct (task item); [|reflexivity]. cbn [automatic_metrics].
  destruct (String.eqb_spec (fst item) "basic") as [E|_]; [|reflexivity].
  exfalso. apply Hout. left. exact E.
Qed.

Lemma run_evaluations_fold (evaluators : list (string * Evaluator)) :
  _run_evaluations evaluators eval_context selected_metrics
  = Ok (fold_left step evaluators
                  {| automatic_metrics := []; framework_scores := [] |}).
Proof.
  unfold _run_evaluations, gather_return_exceptions, bind. cbv zeta.
  fold task. rewrite combine_map_self. f_equal.
  generalize {| automatic_metrics := []; framework_scores := [] |}.
  induction evaluators as [|item evaluators IH]; intros acc;
    [reflexivity|].
  cbn [map fold_left]. apply IH.
Qed.

Lemma automatic_metrics_cases (evaluators : list (string * Evaluator)) :
  NoDup (map fst evaluators) ->
  forall result,
    _run_evaluations evaluators eval_context selected_metrics = Ok result ->
    (forall evaluator scores,
        In ("basic", evaluator) evaluators ->
        task ("basic", evaluator) = Ok scores ->
        NoDup (keys scores) ->
        automatic_metrics result = scores)
    /\ ((forall evaluator,
            In ("basic", evaluator) evaluators ->
            raised (task ("basic", evaluator)) = true) ->
        automatic_metrics result = []).
Proof.
  intros Hnd result Hrun. rewrite run_evaluations_fold in Hrun.
  injection Hrun as <-. split.
  - intros evaluator scores Hin Htask Hkeys.
    apply in_split in Hin as (pre & post & ->).
    rewrite map_app in Hnd. cbn [map fst] in Hnd.
    assert (Hpre : ~ In "basic" (map fst pre)).
    { intros H. apply NoDup_remove_2 in Hnd. apply Hnd.
      apply in_or_app. now left. }
    assert (Hpost : ~ In "basic" (map fst post)).
    { intros H. apply NoDup_remove_2 in Hnd. apply Hnd.
      apply in_or_app. now right. }
    rewrite fold_left_app. cbn [fold_left].
    rewrite fold_other_frameworks by exact Hpost.
    unfold step at 1, process_result. cbn [fst snd].
    rewrite Htask. cbn [automatic_metrics String.eqb Ascii.eqb Bool.eqb].
    rewrite fold_other_frameworks by exact Hpre. cbn [automatic_metrics].
    rewrite update_fresh; [reflexivity | exact Hkeys].
  - intros Hbasic.
    assert (H : forall items acc,
               incl items evaluators ->
               automatic_metrics (fold_left step items acc)
               = automatic_metrics acc).
    { induction items as [|item items IH]; intros acc Hincl; [reflexivity|].
      cbn [fold_left]. rewrite IH by (intros x Hx; apply Hincl; now right).
      unfold step, process_result. cbn [fst snd].
      destruct (task item) as [scores|msg] eqn:E; [|reflexivity].
      cbn [automatic_metrics].
      destruct (String.eqb_spec (fst item) "basic") as [Eb|_]; [|reflexivity].
      exfalso. destruct item as [name evaluator]. cbn [fst] in Eb. subst name.
      specialize (Hbasic evaluator (Hincl _ (or_introl eq_refl))).
      rewrite E in Hbasic. discriminate. }
    rewrite H by apply incl_refl. reflexivity.
Qed.

End Registry.

(** X15.  [automatic_metrics] is the result of the framework registered
    as ["basic"] and of no other: when that framework returns a
    dictionary, [automatic_metrics] is this dictionary, and when it
    raises (or is not registered) [automatic_metrics] is empty,
    whatever the other frameworks return. *)
Theorem automatic_metrics_from_basic
        (evaluators : list (string * Evaluator))
        (eval_context : EvalContext) (selected_metrics : Selection)
        (result : RunResult) :
  NoDup (map fst evaluators) ->
  _run_evaluations evaluators eval_context selected_metrics = Ok result ->
  (forall evaluator scores,
      In ("basic", evaluator) evaluators ->
      framework_task eval_context selected_metrics ("basic", evaluator)
      = Ok scores ->
      NoDup (keys scores) ->
      automatic_metrics result = scores)
  /\ ((forall evaluator,
          In ("basic", evaluator) evaluators ->
          raised (framework_task eval_context selected_metrics
                                 ("basic", evaluator)) = true) ->
      automatic_metrics result = []).
Proof.
  intros Hnd Hrun.
  exact (@automatic_metrics_cases eval_context selected_metrics
                                  evaluators Hnd result Hrun).
Qed.

Lemma automatic_metrics_from_basic_witness :
  exists result,
    _run_evaluations Examples.sample_registry Examples.sample_context None
    = Ok result
    /\ automatic_metrics result = [("coherence", PyFloat (4 # 5))].
Proof.
  eexists. split; [reflexivity|].
  assert (Hnd : NoDup (map fst Examples.sample_registry))
    by (simpl; repeat constructor; simpl; intuition discriminate).
  destruct (@automatic_metrics_from_basic
              Examples.sample_registry Examples.sample_context None _
              Hnd eq_refl) as [Hbasic _].
  eapply Hbasic.
  - right. right. left. reflexivity.
  - reflexivity.
  - simpl. repeat constructor. intros [].
Defined.

End AutomaticMetrics.

(* ------------------------------------------------------------------ *)
(** ** Bulk evaluation: batch sizes and callbacks of any kind *)

Section BulkEdges.
Import Py EvaluationService.

Variable EvaluationCreate : Type.
Variable EvalResult : Type.
Variable evaluate_single : EvaluationCreate -> Selection -> exc EvalResult.
Variable selected_metrics : Selection.

Let eval (eval_data : EvaluationCreate) : exc EvalResult :=
  evaluate_single eval_data selected_metrics.

Let keep (item : BulkItem EvaluationCreate EvalResult) : bool :=
  negb (is_batch_error item).

Lemma items_from_kept (l : list EvaluationCreate) :
  forall i, filter keep (items_from evaluate_single selected_metrics i l)
            = items_from evaluate_single selected_metrics i l.
Proof.
  induction l as [|d l IH]; intros i; [reflexivity|].
  cbn [items_from filter]. rewrite IH.
  unfold keep, item_in_isolation.
  destruct (evaluate_single d selected_metrics); reflexivity.
Qed.

Lemma batch_errors_dropped (i : Z) (batch : list EvaluationCreate)
      (msg : string) :
  filter keep (batch_errors EvalResult i batch msg) = [].
Proof.
  unfold batch_errors, enumerate.
  generalize (map Z.of_nat (seq 0 (List.length batch))).
  induction batch as [|d batch IH]; intros l; destruct l as [|j l];
    try reflexivity.
  cbn [combine map filter]. apply IH.
Qed.

Section Batches.
Variable evaluations : list EvaluationCreate.
Variable batch_size : Z.
Variable progress_callback : option ProgressCallback.
Hypothesis batch_size_positive : (0 < batch_size)%Z.

Let b := Z.to_nat batch_size.

Lemma run_batch_kept (results : list (BulkItem EvaluationCreate EvalResult))
      (k : nat) :
  filter keep
         (run_batch evaluate_single evaluations selected_metrics batch_size
                    progress_callback results (Z.of_nat k * batch_size))
  = filter keep results
    ++ items_from evaluate_single selected_metrics (Z.of_nat (k * b))
                  (firstn b (skipn (k * b) evaluations)).
Proof.
  unfold run_batch, gather_return_exceptions, py_slice. cbv beta iota zeta.
  replace (Z.to_nat (Z.of_nat k * batch_size + batch_size
                     - Z.of_nat k * batch_size)) with b by (unfold b; lia).
  replace (Z.to_nat (Z.of_nat k * batch_size)) with (k * b)%nat
    by (unfold b; rewrite Z2Nat.inj_mul, Nat2Z.id; lia).
  replace (Z.of_nat k * batch_size)%Z with (Z.of_nat (k * b))
    by (unfold b; rewrite Nat2Z.inj_mul, Z2Nat.id; lia).
  destruct progress_callback as [callback|].
  - match goal with
    | |- filter keep (match ?call with _ => _ end) = _ => destruct call
    end.
    + now rewrite process_batch_results_items, filter_app, items_from_kept.
    + now rewrite process_batch_results_items, !filter_app, items_from_kept,
        batch_errors_dropped, app_nil_r.
  - now rewrite process_batch_results_items, filter_app, items_from_kept.
Qed.

Lemma fold_batches_kept (count : nat) :
  forall k results,
    filter keep
           (fold_left (run_batch evaluate_single evaluations selected_metrics
                                 batch_size progress_callback)
                      (map (fun j => (0 + Z.of_nat j * batch_size)%Z)
                           (seq k count))
                      results)
    = filter keep results
      ++ items_from evaluate_single selected_metrics (Z.of_nat (k * b))
                    (firstn (count * b) (skipn (k * b) evaluations)).
Proof.
  induction count as [|count IH]; intros k results;
    cbn [seq map fold_left].
  - simpl. now rewrite app_nil_r.
  - rewrite IH, Z.add_0_l, run_batch_kept, <- app_assoc. f_equal.
    change (S count * b)%nat with (b + count * b)%nat.
    rewrite items_from_batches. f_equal.
    rewrite skipn_skipn.
    replace (S k * b)%nat with (b + k * b)%nat by reflexivity.
    do 2 f_equal. lia.
Qed.

End Batches.

(** X16.  A batch size that is not positive never yields a result,
    whatever the input: with 0 the call raises the [ValueError] of
    [range], and with a negative size it returns the empty list. *)
Theorem evaluate_bulk_nonpositive (evaluations : list EvaluationCreate)
        (batch_size : Z) (progress_callback : option ProgressCallback) :
  (batch_size = 0%Z ->
   evaluate_bulk evaluate_single evaluations selected_metrics
                 batch_size progress_callback
   = Raise "range() arg 3 must not be zero")
  /\ ((batch_size < 0)%Z ->
      evaluate_bulk evaluate_single evaluations selected_metrics
                    batch_size progress_callback = Ok []).
Proof.
  unfold evaluate_bulk, py_range. split.
  - intros ->. reflexivity.
  - intros Hneg.
    destruct (Z.eqb_spec batch_size 0) as [E|_]; [lia|].
    destruct (Z.ltb_spec 0 batch_size) as [E|_]; [lia|].
    set (n := ((0 - Z.of_nat (List.length evaluations) - batch_size - 1)
               / - batch_size)%Z).
    assert (Hn : (n < 1)%Z)
      by (apply Z.div_lt_upper_bound; lia).
    replace (Z.to_nat n) with O by lia. reflexivity.
Qed.

(** X17.  With a positive batch size no record of an item is lost or
    moved, whatever the progress callback does: once the records of the
    batch handler (prefix ["batch_error"]) are removed, the output is
    the list of what each item yields in isolation, in input order. *)
Theorem evaluate_bulk_keeps_items (evaluations : list EvaluationCreate)
        (batch_size : Z) (progress_callback : option ProgressCallback) :
  (0 < batch_size)%Z ->
  exists results,
    evaluate_bulk evaluate_single evaluations selected_metrics
                  batch_size progress_callback = Ok results
    /\ filter (fun item => negb (is_batch_error item)) results
       = items_from evaluate_single selected_metrics 0 evaluations
    /\ (List.length evaluations <= List.length results)%nat.
Proof.
  intros Hb. unfold evaluate_bulk, py_range.
  destruct (Z.eqb_spec batch_size 0) as [E|_]; [lia|].
  destruct (Z.ltb_spec 0 batch_size) as [_|E]; [|lia].
  cbn [bind]. eexists. split; [reflexivity|].
  set (out := fold_left _ _ _).
  assert (Hkept : filter keep out
                  = items_from evaluate_single selected_metrics 0
                               evaluations).
  { unfold out.
    rewrite (@fold_batches_kept evaluations batch_size progress_callback Hb).
    cbn [filter app Nat.mul skipn Z.of_nat].
    now rewrite firstn_all2 by now apply batches_cover. }
  split; [exact Hkept|].
  apply Nat.le_trans with (List.length (filter keep out)).
  - rewrite Hkept, items_from_length. apply Nat.le_refl.
  - apply filter_length_le.
Qed.

End BulkEdges.

Section BulkEdgesWitness.
Import Py EvaluationService.
Local Open Scope string_scope.

(** Three requests in batches of two, with a callback that raises. *)
Lemma evaluate_bulk_keeps_items_witness :
  let evaluate_single (eval_data : nat) (_ : Selection) : exc nat :=
    Ok eval_data in
  exists results,
    evaluate_bulk evaluate_single [7; 8; 9]%nat None 2
                  (Some (fun _ _ _ => Raise "callback failed"))
    = Ok results
    /\ filter (fun item => negb (is_batch_error item)) results
       = [Evaluated nat 7%nat; Evaluated nat 8%nat; Evaluated nat 9%nat].
Proof.
  cbv zeta.
  destruct (@evaluate_bulk_keeps_items
              nat nat (fun eval_data _ => Ok eval_data) None
              [7; 8; 9]%nat 2%Z
              (Some (fun _ _ _ => Raise "callback failed")) eq_refl)
    as (results & Hrun & Hkept & _).
  exists results. split; [exact Hrun | exact Hkept].
Defined.

End BulkEdgesWitness.

(* ------------------------------------------------------------------ *)
(** ** The comparator: ties, the gap to the runner-up, score range *)

Section ComparatorOrder.
Import Num Py EvaluationService Arithmetics ComparatorReference.
Local Open Scope Q_scope.

Variable arithmetic : Arithmetic.

(** The completed entries, split around the winner. *)
Lemma winner_split (comparisons : list ComparisonEntry)
      (first : ModelScore) (rest : list ModelScore) :
  ranking arithmetic comparisons = first :: rest ->
  exists pre c post,
    filter (fun c => String.eqb (entry_status c) "completed") comparisons
    = (pre ++ c :: post)%list
    /\ first = model_score arithmetic c
    /\ (forall c', In c' pre ->
                   ~ outranks (model_score arithmetic c')
                              (model_score arithmetic c))
    /\ (forall c', In c' post ->
                   outranks (model_score arithmetic c)
                            (model_score arithmetic c'))
    /\ rest = ranking arithmetic (pre ++ post).
Proof.
  unfold ranking. intros E.
  destruct (sort_by_key_head _ E)
    as (pre & post & Hsplit & Hpre & Hpost & Hrest).
  apply map_eq_app in Hsplit as (cpre & ctail & Hc & <- & Htail).
  apply map_eq_cons in Htail as (c & cpost & -> & <- & <-).
  exists cpre, c, cpost. split; [exact Hc|]. split; [reflexivity|].
  split; [|split].
  - intros c' Hin. rewrite <- ranks_before_outranks.
    apply Hpre. now apply in_map.
  - intros c' Hin. rewrite <- ranks_before_outranks.
    apply Hpost. now apply in_map.
  - rewrite Hrest, <- map_app. f_equal. f_equal.
    assert (Hall : Forall (fun c => is_completed c = true)
                          (cpre ++ c :: cpost)).
    { unfold is_completed at 1. rewrite <- Hc.
      apply Forall_forall. intros x Hx. now apply filter_In in Hx. }
    symmetry. apply forallb_filter_id.
    apply forallb_forall. intros x Hx.
    rewrite Forall_forall in Hall. apply Hall.
    apply in_app_or in Hx as [Hx|Hx]; apply in_or_app;
      [now left | right; now right].
Qed.

(** X18.  Ties are broken by input order: the winner is the first
    completed entry that no completed entry ranks strictly before, so
    of two models with the same score, response time and cost the one
    listed first wins. *)
Theorem determine_winner_first_best (comparisons : list ComparisonEntry)
        (w : Winner) :
  _determine_winner arithmetic comparisons = Some w ->
  exists pre c post,
    filter (fun c => String.eqb (entry_status c) "completed") comparisons
    = (pre ++ c :: post)%list
    /\ winner_model w = model_name c
    /\ (forall c', In c' pre ->
                   ~ outranks (model_score arithmetic c')
                              (model_score arithmetic c))
    /\ (forall c', In c' post ->
                   outranks (model_score arithmetic c)
                            (model_score arithmetic c')).
Proof.
  unfold _determine_winner. intros Hw.
  destruct (ranking arithmetic comparisons) as [|first rest] eqn:E;
    [discriminate|].
  injection Hw as <-. cbn [winner_model].
  destruct (winner_split _ E)
    as (pre & c & post & Hsplit & -> & Hpre & Hpost & _).
  exists pre, c, post. repeat split; assumption.
Qed.

(** X19.  The runner-up named in the reason is the winner of the
    completed entries without the winner: the reason carries no gap
    exactly when no other entry completed, and otherwise it carries the
    name of that runner-up and the difference of the two scores. *)
Theorem determine_winner_gap (comparisons : list ComparisonEntry)
        (w : Winner) :
  _determine_winner arithmetic comparisons = Some w ->
  exists pre c post,
    filter (fun c => String.eqb (entry_status c) "completed") comparisons
    = (pre ++ c :: post)%list
    /\ winner_model w = model_name c
    /\ (reason_gap w = None <-> (pre ++ post)%list = [])
    /\ (forall runner_up,
           _determine_winner arithmetic (pre ++ post) = Some runner_up ->
           reason_gap w
           = Some (py_sub arithmetic (reason_score w)
                          (reason_score runner_up),
                   winner_model runner_up)).
Proof.
  unfold _determine_winner at 1. intros Hw.
  destruct (ranking arithmetic comparisons) as [|first rest] eqn:E;
    [discriminate|].
  injection Hw as <-. cbn [winner_model reason_gap reason_score].
  destruct (winner_split _ E)
    as (pre & c & post & Hsplit & -> & _ & _ & Hrest).
  exists pre, c, post. split; [exact Hsplit|]. split; [reflexivity|].
  unfold _determine_winner. rewrite <- Hrest.
  assert (Hempty : rest = [] <-> (pre ++ post)%list = []).
  { rewrite Hrest. unfold ranking. split; intros H.
    - pose proof (sort_by_key_perm
                    (map (model_score arithmetic)
                         (filter is_completed (pre ++ post)))) as P.
      rewrite H in P. apply Permutation_nil in P.
      apply map_eq_nil in P.
      assert (Hall : Forall (fun c => is_completed c = true)
                            (pre ++ c :: post)).
      { unfold is_completed at 1. rewrite <- Hsplit.
        apply Forall_forall. intros x Hx. now apply filter_In in Hx. }
      destruct (pre ++ post)%list as [|x l] eqn:El; [reflexivity|].
      exfalso. cbn [filter] in P.
      assert (Hx : is_completed x = true).
      { rewrite Forall_forall in Hall. apply Hall.
        assert (Hin : In x (pre ++ post)) by (rewrite El; now left).
        apply in_app_or in Hin as [Hin|Hin]; apply in_or_app;
          [now left | right; now right]. }
      rewrite Hx in P. discriminate.
    - now rewrite H. }
  split.
  - rewrite <- Hempty. destruct rest; split; intros H;
      [reflexivity | reflexivity | discriminate | discriminate].
  - intros runner_up Hr. destruct rest as [|second rest']; [discriminate|].
    injection Hr as <-. reflexivity.
Qed.

End ComparatorOrder.

Section ComparatorOrderWitnesses.
Import Num Py EvaluationService Arithmetics ComparatorReference.
Local Open Scope Q_scope.

Lemma determine_winner_first_best_witness :
  let comparisons := [scenario_model "A" (9 # 10) 1 (1 # 100);
                      scenario_model "B" (9 # 10) 1 (1 # 100)] in
  exists w,
    _determine_winner binary64_arithmetic comparisons = Some w
    /\ winner_model w = "A"%string
    /\ exists pre c post,
        filter (fun c => String.eqb (entry_status c) "completed")
               comparisons
        = (pre ++ c :: post)%list
        /\ winner_model w = model_name c
        /\ (forall c', In c' pre ->
                       ~ outranks (model_score binary64_arithmetic c')
                                  (model_score binary64_arithmetic c))
        /\ (forall c', In c' post ->
                       outranks (model_score binary64_arithmetic c)
                                (model_score binary64_arithmetic c')).
Proof.
  cbv zeta. eexists. split; [vm_compute; reflexivity|].
  split; [reflexivity|].
  apply determine_winner_first_best. vm_compute. reflexivity.
Defined.

Lemma determine_winner_gap_witness :
  let comparisons := [scenario_model "A" (7 # 10) 2 (1 # 100);
                      scenario_model "B" (9 # 10) 1 (2 # 100)] in
  exists w,
    _determine_winner exact_arithmetic comparisons = Some w
    /\ winner_model w = "B"%string
    /\ exists pre c post,
        filter (fun c => String.eqb (entry_status c) "completed")
               comparisons
        = (pre ++ c :: post)%list
        /\ winner_model w = model_name c
        /\ (reason_gap w = None <-> (pre ++ post)%list = [])
        /\ (forall runner_up,
               _determine_winner exact_arithmetic (pre ++ post)
               = Some runner_up ->
               reason_gap w
               = Some (py_sub exact_arithmetic (reason_score w)
                              (reason_score runner_up),
                       winner_model runner_up)).
Proof.
  cbv zeta. eexists. split; [vm_compute; reflexivity|].
  split; [reflexivity|].
  apply determine_winner_gap. vm_compute. reflexivity.
Defined.

End ComparatorOrderWitnesses.

(* ------------------------------------------------------------------ *)
(** ** When an overlap score is exactly 1.0 *)

Section PerfectScores.
Import Num Text BasicEvaluator Sequences.
Local Open Scope Q_scope.

Lemma subsequence_full (A : Type) (s l : list A) :
  subsequence s l -> List.length s = List.length l -> s = l.
Proof.
  induction 1 as [l|s a l H IH|s a l H IH]; simpl; intros Hlen.
  - destruct l; [reflexivity | discriminate].
  - apply subsequence_length in H. lia.
  - f_equal. apply IH. lia.
Qed.

Lemma Qnat_inj (a b : nat) : Qnat a == Qnat b -> a = b.
Proof.
  unfold Qnat, Qeq. simpl. lia.
Qed.

Lemma Qnat_ratio_one (a b : nat) :
  (0 < b)%nat -> Qnat a / Qnat b == 1 -> a = b.
Proof.
  intros Hb H. apply Qnat_inj.
  pose proof (Qnat_pos Hb) as Hpos.
  setoid_replace (Qnat a) with (Qnat a / Qnat b * Qnat b)
    by (field; lra).
  rewrite H. ring.
Qed.

(** An F1 score of two ratios is 1 only when both ratios are 1. *)
Lemma harmonic_one (p r : Q) :
  0 <= p <= 1 -> 0 <= r <= 1 -> ~ p + r == 0 ->
  2 * (p * r) / (p + r) == 1 -> p == 1 /\ r == 1.
Proof.
  intros Hp Hr Hsum H.
  assert (Hpos : 0 < p + r) by (destruct (Qlt_le_dec 0 (p + r)); lra).
  assert (E : 2 * (p * r) == p + r).
  { setoid_replace (2 * (p * r)) with (2 * (p * r) / (p + r) * (p + r))
      by (field; lra).
    rewrite H. ring. }
  assert (E1 : p * (1 - r) + r * (1 - p) == 0) by lra.
  assert (N1 : 0 <= p * (1 - r)) by (apply Qmult_le_0_compat; lra).
  assert (N2 : 0 <= r * (1 - p)) by (apply Qmult_le_0_compat; lra).
  assert (Z1 : p * (1 - r) == 0) by lra.
  assert (Z2 : r * (1 - p) == 0) by lra.
  apply Qmult_integral in Z1, Z2.
  destruct Z1 as [Z1|Z1], Z2 as [Z2|Z2]; lra.
Qed.

Lemma lcs_f1_one_iff (x y : list string) :
  _calculate_lcs_f1 x y == 1 <-> x = y /\ x <> [].
Proof.
  split.
  - intros H.
    destruct x as [|x0 x']; [discriminate H|].
    destruct y as [|y0 y']; [discriminate H|].
    unfold _calculate_lcs_f1 in H. cbv beta iota zeta in H.
    set (x := x0 :: x') in *. set (y := y0 :: y') in *.
    assert (Hx : (0 < List.length x)%nat) by (simpl; lia).
    assert (Hy : (0 < List.length y)%nat) by (simpl; lia).
    pose proof (lcs_length_le x y) as [Lx Ly].
    destruct (Qeq_bool _ 0) eqn:E; [discriminate H|].
    apply Qeq_bool_false in E.
    apply harmonic_one in H as [Hp Hr];
      [| now apply ratio_in_unit | now apply ratio_in_unit | exact E].
    apply Qnat_ratio_one in Hp; [|exact Hx].
    apply Qnat_ratio_one in Hr; [|exact Hy].
    destruct (lcs_length_reached x y) as (s & Sx & Sy & Hs).
    split; [|discriminate].
    rewrite <- (subsequence_full Sx) by congruence.
    apply subsequence_full; [assumption | congruence].
  - intros [<- Hx]. now apply lcs_f1_self.
Qed.

(** X21.  ROUGE-L is exactly 1.0 if and only if candidate and reference
    have the same, non-empty, token sequence; any difference in the
    words or their order lowers it. *)
Theorem rougeL_one_iff_same_tokens (candidate reference : string) :
  rougeL (_calculate_rouge candidate reference) == 1
  <-> tokens_of candidate = tokens_of reference
      /\ tokens_of candidate <> [].
Proof.
  unfold _calculate_rouge.
  destruct (tokens_of candidate) as [|c0 c'] eqn:Ec.
  - cbn [rougeL]. split; [discriminate | intros [_ H]; now elim H].
  - destruct (tokens_of reference) as [|r0 r'] eqn:Er.
    + cbn [rougeL]. split; [discriminate | intros [H _]; discriminate H].
    + cbn [rougeL]. apply lcs_f1_one_iff.
Qed.

Lemma same_elements_length (a b : list string) :
  NoDup a -> NoDup b -> (forall t, In t a <-> In t b) ->
  List.length a = List.length b.
Proof.
  intros Ha Hb H. apply Permutation_length.
  now apply NoDup_Permutation.
Qed.

Lemma jaccard_one_iff (a b : list string) :
  NoDup a -> NoDup b -> a <> [] ->
  (jaccard a b == 1 <-> forall t, In t a <-> In t b).
Proof.
  intros Ha Hb Hne. unfold jaccard, str_inter, str_union.
  assert (Hu : (0 < List.length (union string_dec a b))%nat).
  { destruct a as [|a0 a']; [now elim Hne|].
    assert (Hin : In a0 (union string_dec (a0 :: a') b))
      by (apply union_In; left; now left).
    destruct (union string_dec (a0 :: a') b); [destruct Hin | simpl; lia]. }
  assert (Hi : NoDup (intersection string_dec a b))
    by now apply intersection_NoDup.
  assert (Hn : NoDup (union string_dec a b)) by apply NoDup_nodup.
  assert (Hincl : incl (intersection string_dec a b) (union string_dec a b)).
  { intros t Ht. apply intersection_In in Ht. apply union_In. tauto. }
  unfold ratio_or_zero.
  destruct (List.length (union string_dec a b)) as [|n] eqn:El; [lia|].
  rewrite <- El. split.
  - intros H. apply Qnat_ratio_one in H; [|lia].
    assert (Hback : incl (union string_dec a b) (intersection string_dec a b)).
    { apply NoDup_length_incl; [assumption | lia | assumption]. }
    intros t. split; intros Ht.
    + assert (In t (union string_dec a b)) as Hu' by (apply union_In; tauto).
      apply Hback, intersection_In in Hu'. tauto.
    + assert (In t (union string_dec a b)) as Hu' by (apply union_In; tauto).
      apply Hback, intersection_In in Hu'. tauto.
  - intros H.
    rewrite (@same_elements_length (intersection string_dec a b)
                                   (union string_dec a b) Hi Hn).
    + apply Qnat_self_ratio. lia.
    + intros t. rewrite intersection_In, union_In. specialize (H t). tauto.
Qed.

(** X22.  The word overlap is exactly 1.0 if and only if the two texts
    use the same set of words: every token of one occurs in the other,
    whatever the order and the number of repetitions. *)
Theorem word_overlap_one_iff_same_words (candidate reference : string) :
  _calculate_word_overlap candidate reference == 1
  <-> forall t, In t (tokens_of candidate) <-> In t (tokens_of reference).
Proof.
  unfold _calculate_word_overlap.
  assert (Hc : forall t, In t (str_set (tokens_of candidate))
                         <-> In t (tokens_of candidate))
    by (intros t; apply nodup_In).
  assert (Hr : forall t, In t (str_set (tokens_of reference))
                         <-> In t (tokens_of reference))
    by (intros t; apply nodup_In).
  pose proof (str_set_NoDup (tokens_of candidate)) as Nc.
  pose proof (str_set_NoDup (tokens_of reference)) as Nr.
  destruct (str_set (tokens_of candidate)) as [|c0 c'] eqn:Ec;
    destruct (str_set (tokens_of reference)) as [|r0 r'] eqn:Er.
  - split; [|reflexivity]. intros _ t.
    rewrite <- Hc, <- Hr. reflexivity.
  - split; [discriminate|]. intros H.
    exfalso. apply (proj2 (Hc r0)). apply H, Hr. now left.
  - split; [discriminate|]. intros H.
    exfalso. apply (proj2 (Hr c0)). apply H, Hc. now left.
  - rewrite jaccard_one_iff by (assumption || discriminate).
    split; intros H t.
    + rewrite <- Hc, <- Hr. apply H.
    + rewrite Hc, Hr. apply H.
Qed.

Lemma nodup_length_NoDup (l : list string) :
  List.length (nodup string_dec l) = List.length l <-> NoDup l.
Proof.
  split.
  - induction l as [|a l IH]; [constructor|].
    cbn [nodup]. pose proof (to_set_length_le string_dec l) as Hle.
    unfold to_set in Hle.
    destruct (in_dec string_dec a l); simpl; intros H; [lia|].
    constructor; [assumption | apply IH; lia].
  - intros H. now rewrite nodup_fixed_point.
Qed.

Lemma filter_length_all (A : Type) (p : A -> bool) (l : list A) :
  List.length (filter p l) = List.length l
  <-> Forall (fun x => p x = true) l.
Proof.
  induction l as [|a l IH]; simpl; [split; [constructor | reflexivity]|].
  pose proof (filter_length_le p l) as Hle.
  destruct (p a) eqn:E; simpl; split; intros H.
  - constructor; [assumption | apply IH; lia].
  - apply Forall_inv_tail in H. apply IH in H. lia.
  - lia.
  - apply Forall_inv in H. congruence.
Qed.

(** X23.  For a text with at least one token, informativeness is
    exactly 1.0 if and only if no token is repeated and no token is a
    stop word. *)
Theorem informativeness_one_iff (text : string) :
  tokens_of text <> [] ->
  (_calculate_informativeness text == 1
   <-> NoDup (tokens_of text)
       /\ Forall (fun token => ~ In token stop_words) (tokens_of text)).
Proof.
  intros Hne. unfold _calculate_informativeness.
  destruct (is_empty text) eqn:Ee.
  { exfalso. apply Hne. unfold tokens_of, _tokenize. now rewrite Ee. }
  destruct (tokens_of text) as [|t0 ts] eqn:Et; [now elim Hne|].
  rewrite <- Et in *. clear Hne.
  assert (Hlen : (0 < List.length (tokens_of text))%nat)
    by (rewrite Et; simpl; lia).
  set (tokens := tokens_of text) in *.
  set (content := filter (fun token => negb (mem string_dec token stop_words))
                         tokens).
  assert (Hv : 0 <= Qnat (List.length (str_set tokens))
                    / Qnat (List.length tokens) <= 1).
  { apply ratio_in_unit; [apply to_set_length_le | assumption]. }
  assert (Hc : 0 <= Qnat (List.length content)
                    / Qnat (List.length tokens) <= 1).
  { apply ratio_in_unit; [apply filter_length_le | assumption]. }
  assert (Hall : Forall (fun token => ~ In token stop_words) tokens
                 <-> Forall (fun x => negb (mem string_dec x stop_words) = true)
                            tokens).
  { rewrite !Forall_forall. split; intros H x Hx; specialize (H x Hx).
    - destruct (mem string_dec x stop_words) eqn:E; [|reflexivity].
      apply mem_In in E. contradiction.
    - intros Hin. apply (mem_In string_dec) in Hin.
      rewrite Hin in H. discriminate. }
  rewrite Hall, <- filter_length_all, <- nodup_length_NoDup.
  fold content. change (nodup string_dec tokens) with (str_set tokens).
  split.
  - intros H.
    assert (Hsum : 1 <= (6 # 10) * (Qnat (List.length (str_set tokens))
                                    / Qnat (List.length tokens))
                        + (4 # 10) * (Qnat (List.length content)
                                      / Qnat (List.length tokens))).
    { rewrite <- H at 1. apply Q.le_min_r. }
    split; apply Qnat_ratio_one; try assumption; lra.
  - intros [Hs Hcont]. rewrite Hs, Hcont.
    rewrite (Qnat_self_ratio Hlen).
    apply Q.min_l. lra.
Qed.

Lemma informativeness_one_iff_witness :
  tokens_of "Cats chase mice" <> []
  /\ _calculate_informativeness "Cats chase mice" == 1.
Proof.
  assert (Hne : tokens_of "Cats chase mice" <> []) by discriminate.
  split; [exact Hne|].
  apply (@informativeness_one_iff "Cats chase mice" Hne).
  split.
  - repeat constructor; simpl; intuition discriminate.
  - repeat constructor; simpl; intuition discriminate.
Defined.

End PerfectScores.

(* ------------------------------------------------------------------ *)
(** ** Sentence similarity of a text with itself *)

Section SentenceSimilaritySelf.
Import Num Text BasicEvaluator.
Local Open Scope Q_scope.

(** A sentence has a token. *)
Let has_token (s : string) : bool :=
  match tokens_of s with
  | [] => false
  | _ => true
  end.

Lemma jaccard_self (a : list string) :
  NoDup a -> a <> [] -> jaccard a a == 1.
Proof.
  intros Ha Hne. unfold jaccard, str_inter, str_union.
  rewrite intersection_self, union_length_self by assumption.
  apply ratio_or_zero_self. destruct a; [now elim Hne | simpl; lia].
Qed.

(** The inner loop never lowers [best_sim], and ends at least as high
    as the similarity with any reference sentence that has a token. *)
Lemma best_similarity_reaches (cand_tokens : list string)
      (reference_sentences : list string) (ref_sent : string) :
  cand_tokens <> [] ->
  In ref_sent reference_sentences ->
  str_set (tokens_of ref_sent) <> [] ->
  jaccard cand_tokens (str_set (tokens_of ref_sent))
  <= best_similarity cand_tokens reference_sentences.
Proof.
  intros Hc Hin Hr. unfold best_similarity.
  set (step := fun (best_sim : Q) (ref_sent : string) =>
                 let ref_tokens := str_set (tokens_of ref_sent) in
                 match cand_tokens, ref_tokens with
                 | [], _ | _, [] => best_sim
                 | _, _ => Qmax best_sim (jaccard cand_tokens ref_tokens)
                 end).
  assert (Hmono : forall l best, best <= fold_left step l best).
  { induction l as [|s l IH]; intros best; simpl; [lra|].
    apply Qle_trans with (step best s); [|apply IH].
    unfold step. destruct cand_tokens; [lra|].
    destruct (str_set (tokens_of s)); [lra | apply Q.le_max_l]. }
  generalize 0 as best.
  induction reference_sentences as [|s l IH]; intros best; [destruct Hin|].
  simpl. destruct Hin as [->|Hin]; [|now apply IH].
  apply Qle_trans with (step best ref_sent); [|apply Hmono].
  unfold step. destruct cand_tokens as [|c0 cs]; [now elim Hc|].
  destruct (str_set (tokens_of ref_sent)) as [|r0 rs]; [now elim Hr|].
  apply Q.le_max_r.
Qed.

Lemma best_similarity_no_token (reference_sentences : list string) :
  best_similarity [] reference_sentences = 0.
Proof.
  unfold best_similarity. generalize 0 as best.
  induction reference_sentences as [|s l IH]; intros best; simpl;
    [reflexivity | apply IH].
Qed.

Lemma str_set_nil_iff (l : list string) : str_set l = [] <-> l = [].
Proof.
  split; [|intros ->; reflexivity].
  intros H. destruct l as [|a l]; [reflexivity|].
  assert (Hin : In a (str_set (a :: l))) by (apply nodup_In; now left).
  rewrite H in Hin. destruct Hin.
Qed.

Lemma best_similarity_own_sentence (sentences : list string) (s : string) :
  In s sentences ->
  best_similarity (str_set (tokens_of s)) sentences
  == if has_token s then 1 else 0.
Proof.
  intros Hin. unfold has_token.
  destruct (tokens_of s) as [|t0 ts] eqn:Et.
  - change (str_set []) with (@nil string).
    now rewrite best_similarity_no_token.
  - rewrite <- Et.
    assert (Hne : str_set (tokens_of s) <> []).
    { rewrite str_set_nil_iff, Et. discriminate. }
    pose proof (str_set_NoDup (tokens_of s)) as Hnd.
    pose proof (@best_similarity_in_unit _ sentences Hnd) as [_ Hle].
    pose proof (@best_similarity_reaches _ sentences s Hne Hin Hne) as Hge.
    rewrite (jaccard_self Hnd Hne) in Hge.
    apply Qle_antisym; assumption.
Qed.

Lemma sum_Q_indicator (A : Type) (f : A -> Q) (p : A -> bool) (l : list A) :
  (forall x, In x l -> f x == if p x then 1 else 0) ->
  sum_Q (map f l) == Qnat (List.length (filter p l)).
Proof.
  induction l as [|a l IH]; intros H; [reflexivity|].
  cbn [map sum_Q fold_right filter].
  change (fold_right Qplus 0 (map f l)) with (sum_Q (map f l)).
  rewrite IH by (intros x Hx; apply H; now right).
  rewrite (H a) by now left.
  destruct (p a); cbn [List.length]; rewrite ?Qnat_succ; ring.
Qed.

(** X24.  The sentence similarity of a text with itself is the share of
    its sentences that have at least one token: it is 1.0 when every
    sentence has a token, and lower when a sentence consists of
    symbols only. *)
Theorem sentence_similarity_self (text : string) :
  sentences_of text <> [] ->
  _calculate_sentence_similarity text text
  == Qnat (List.length
             (filter (fun s => match tokens_of s with
                               | [] => false
                               | _ => true
                               end) (sentences_of text)))
     / Qnat (List.length (sentences_of text))
  /\ (Forall (fun s => tokens_of s <> []) (sentences_of text) ->
      _calculate_sentence_similarity text text == 1).
Proof.
  intros Hne.
  assert (Hlen : (0 < List.length (sentences_of text))%nat).
  { destruct (sentences_of text); [now elim Hne | simpl; lia]. }
  assert (Hmain :
    _calculate_sentence_similarity text text
    == Qnat (List.length (filter has_token (sentences_of text)))
       / Qnat (List.length (sentences_of text))).
  { unfold _calculate_sentence_similarity.
    destruct (sentences_of text) as [|s0 l] eqn:Es; [now elim Hne|].
    rewrite length_map.
    rewrite (@sum_Q_indicator _ _ has_token (s0 :: l)); [reflexivity|].
    intros x Hx. now apply best_similarity_own_sentence. }
  split; [exact Hmain|].
  intros Hall. rewrite Hmain.
  assert (Hfilter : List.length (filter has_token (sentences_of text))
                    = List.length (sentences_of text)).
  { apply filter_length_all. rewrite Forall_forall in *.
    intros x Hx. specialize (Hall x Hx). unfold has_token.
    destruct (tokens_of x); [now elim Hall | reflexivity]. }
  rewrite Hfilter. now apply Qnat_self_ratio.
Qed.

Lemma sentence_similarity_self_witness :
  sentences_of "Hello there. --" <> []
  /\ _calculate_sentence_similarity "Hello there. --" "Hello there. --"
     == 1 # 2.
Proof.
  assert (Hne : sentences_of "Hello there. --" <> []) by discriminate.
  split; [exact Hne|].
  destruct (@sentence_similarity_self "Hello there. --" Hne) as [H _].
  rewrite H. reflexivity.
Defined.

End SentenceSimilaritySelf.

(* ------------------------------------------------------------------ *)
(** ** One evaluation: failures are absorbed *)

Section SingleEvaluationProperties.
Import Py Text EvaluationService SingleEvaluation.
Local Open Scope string_scope.

Variable generate_llm_response :
  string -> string -> option string -> option Q -> option Z -> option Q
  -> exc (string * dict).
Variable evaluators : list (string * Evaluator).

Lemma run_evaluations_returns (eval_context : EvalContext)
      (selected_metrics : Selection) :
  exists evaluation_results,
    _run_evaluations evaluators eval_context selected_metrics
    = Ok evaluation_results.
Proof.
  unfold _run_evaluations, gather_return_exceptions. cbn [bind].
  eexists. reflexivity.
Qed.


(** X27.  Without a model name or without a prompt the generator is
    not called: the response is [None], the frameworks score the empty
    text, and the result is the same for every generator. *)
Theorem evaluate_single_without_generation
        (evaluation_data : EvaluationCreate)
        (selected_metrics : Selection) :
  model_name evaluation_data = "" \/ prompt evaluation_data = "" ->
  exists result,
    evaluate_single generate_llm_response evaluators
                    evaluation_data selected_metrics = Ok result
    /\ model_response result = None
    /\ model_metadata result = []
    /\ result_response_time result = PyInt 0
    /\ result_cost result = PyNone
    /\ forall other_generator,
        evaluate_single other_generator evaluators
                        evaluation_data selected_metrics = Ok result.
Proof.
  intros Hempty.
  assert (Hgen : forall g, generate g evaluation_data = (None, [])).
  { intros g. unfold generate.
    destruct Hempty as [-> | ->]; [reflexivity|].
    now rewrite andb_false_r. }
  unfold evaluate_single. cbv zeta. rewrite Hgen. cbn [fst snd].
  destruct (run_evaluations_returns
              (eval_context_of evaluation_data None) selected_metrics)
    as [evaluation_results Hrun].
  rewrite Hrun. eexists. split; [reflexivity|].
  do 4 (split; [reflexivity|]).
  intros g. rewrite Hgen. cbn [fst snd]. rewrite Hrun. reflexivity.
Qed.

End SingleEvaluationProperties.

Section SingleEvaluationWitnesses.
Import Py Text EvaluationService SingleEvaluation Examples.
Local Open Scope string_scope.


Lemma evaluate_single_without_generation_witness :
  let request := {| session_id := "s1";
                    prompt := "What is a cat?";
                    context := None;
                    expected_answer := None;
                    model_name := "";
                    category := None;
                    temperature := None;
                    max_tokens := None;
                    top_p := None |} in
  let generator (model prompt : string) (context : option string)
                (temperature : option Q) (max_tokens : option Z)
                (top_p : option Q) : exc (string * dict) :=
    Ok ("A cat is an animal.", []) in
  exists result,
    evaluate_single generator sample_registry request None = Ok result
    /\ model_response result = None.
Proof.
  cbv zeta.
  destruct (@evaluate_single_without_generation
              (fun _ _ _ _ _ _ => Ok ("A cat is an animal.", []))
              sample_registry
              {| session_id := "s1";
                 prompt := "What is a cat?";
                 context := None;
                 expected_answer := None;
                 model_name := "";
                 category := None;
                 temperature := None;
                 max_tokens := None;
                 top_p := None |} None (or_introl eq_refl))
    as (result & Hrun & Hresponse & _).
  exists result. split; assumption.
Defined.

End SingleEvaluationWitnesses.
